(** * RaccoonAI bridge: a shallow embedding of the connection manager,
      the webhook forwarder and the outbound HTTP route.

    Sources embedded here:
    - [extensions/raccoonai-bridge/src/whatsapp-connection.ts]
      (class [WhatsAppConnectionManager]),
    - [extensions/raccoonai-bridge/src/bridge.ts] ([forwardToRaccoonAI]),
    - the plugin entry point that registers [/raccoonai/send].

    Conventions.
    - A JavaScript string is the list of its UTF-16 code units.
    - An object that is shared between closures (a [UserConnection]) lives
      in a store and is named by a reference; the [Map] of the manager, the
      handlers of a socket and a pending reconnect timer all hold references.
    - A call into the host (network, Baileys socket, clock) is an effect that
      is appended to a trace; what the host answers is an input of the
      operation.  A JavaScript exception is a value of type [outcome].
    - The credential directory tree is part of the state.  A call of [fs]
      changes it or throws; whether it throws is for the host to say, from
      the tree and the arguments of the call.
    - An operation of the manager and a run of an event handler are one
      atomic step each: what they await is answered by the host before any
      other handler runs.  A reconnect timer is a step of its own, so other
      steps can come between the moment it is set and the moment it fires. *)

From Stdlib Require Import ZArith NArith Ascii String Lia.
From stdpp Require Import base option list gmap pretty countable.

Local Open Scope list_scope.

(** ** JavaScript strings *)

Abbreviation jsstring := (list N).

Definition lit (s : String.string) : jsstring :=
  (λ a, N_of_ascii a) <$> String.list_ascii_of_string s.

Global Arguments lit : simpl never.

(** [String(n)] for an integral number. *)
Definition String_of_number (z : Z) : jsstring := lit (pretty z).
Global Arguments String_of_number : simpl never.

(** A string in a boolean position: the empty string is falsy. *)
Definition truthy_string (s : jsstring) : bool :=
  match s with [] => false | _ :: _ => true end.

(** An optional string in a boolean position ([undefined], [null] and the
    empty string are falsy). *)
Definition truthy (o : option jsstring) : bool :=
  match o with Some s => truthy_string s | None => false end.

(** [a || b] where [a] is an optional string. *)
Definition or_else (a : option jsstring) (b : jsstring) : jsstring :=
  match a with
  | Some s => if truthy_string s then s else b
  | None => b
  end.

(** [a || undefined]. *)
Definition or_undefined (a : option jsstring) : option jsstring :=
  if truthy a then a else None.

(** [s.endsWith(t)]. *)
Definition endsWith (s t : jsstring) : bool := bool_decide (t `suffix_of` s).

(** The character class [\d] and its complement [\D]. *)
Definition is_digit (c : N) : bool := ((48 <=? c) && (c <=? 57))%N.

(** [s.replace(/\D/g, "")]. *)
Definition strip_non_digits (s : jsstring) : jsstring := List.filter is_digit s.

(** WhiteSpace and LineTerminator code units, the ones [trim] removes. *)
Definition is_whitespace (c : N) : bool :=
  ((9 <=? c) && (c <=? 13) || (c =? 32) || (c =? 160) || (c =? 5760)
   || (8192 <=? c) && (c <=? 8202) || (c =? 8232) || (c =? 8233)
   || (c =? 8239) || (c =? 8287) || (c =? 12288) || (c =? 65279))%N.

Fixpoint trimStart (s : jsstring) : jsstring :=
  match s with
  | c :: s' => if is_whitespace c then trimStart s' else s
  | [] => []
  end.

(** [s.trim()]. *)
Definition trim (s : jsstring) : jsstring :=
  reverse (trimStart (reverse (trimStart s))).

(** [s.split(sep)[0]] for a one-character separator. *)
Fixpoint before (sep : N) (s : jsstring) : jsstring :=
  match s with
  | c :: s' => if (c =? sep)%N then [] else c :: before sep s'
  | [] => []
  end.

(** [jid.split("@")[0].split(":")[0]]. *)
Definition phone_of_jid (jid : jsstring) : jsstring :=
  before 58 (before 64 jid).

Definition ascii_lower (c : N) : N :=
  if ((65 <=? c) && (c <=? 90))%N then (c + 32)%N else c.

(** [/\.(e1|e2|...)$/i.test(url)]: the pattern is ASCII, so under the [i]
    flag it matches exactly the ASCII case variants. *)
Definition has_extension (exts : list String.string) (url : jsstring) : bool :=
  existsb (λ e, endsWith (ascii_lower <$> url) (lit ("." ++ e))) exts.

(** ** Exceptions *)

(** What a [catch] clause can observe of a thrown value: an [Error] carries
    a message, anything else does not. *)
Inductive thrown :=
  | JsError (message : jsstring)
  | JsOther.

Inductive outcome (A : Type) :=
  | Ret (a : A)
  | Throw (e : thrown).
Arguments Ret {A} a.
Arguments Throw {A} e.

(** [error instanceof Error ? error.message : fallback]. *)
Definition message_or (e : thrown) (fallback : jsstring) : jsstring :=
  match e with JsError m => m | JsOther => fallback end.

(** [try { body } catch (error) { handler(error) }]. *)
Definition try_catch {A} (body : outcome A) (handler : thrown → outcome A)
  : outcome A :=
  match body with Ret a => Ret a | Throw e => handler e end.

(** [promise.catch(() => fallback)]. *)
Definition catch_default {A} (p : outcome A) (fallback : A) : A :=
  match p with Ret a => a | Throw _ => fallback end.

(** The call returned: it did not throw. *)
Definition returned {A} (p : outcome A) : bool :=
  match p with Ret _ => true | Throw _ => false end.

(** ** JSON values *)

#[local] Unset Elimination Schemes.
Inductive json {number : Type} :=
  | JNull
  | JBool (b : bool)
  | JNumber (x : number)
  | JString (s : jsstring)
  | JArray (items : list json)
  | JObject (props : list (jsstring * json)).
#[local] Set Elimination Schemes.
Arguments json : clear implicits.

(** The credential directory tree: regular files by path, and the
    directories that exist. *)
Module FileSystem.
Record t := mk {
  files : gmap jsstring jsstring;
  dirs : gset jsstring;
}.
End FileSystem.
Abbreviation FileSystem := FileSystem.t.

(** ** The host: Node.js and the Baileys library

    The functions and constants of the host that the bridge calls and whose
    code is not part of the bridge.  [JSON_stringify indent v] is
    [JSON.stringify(v, null, indent)], [path_join] is [path.join] and the
    three reason codes are members of Baileys' [DisconnectReason].

    A call of [fs.mkdirSync], [fs.writeFileSync] or [fs.readFileSync] can
    throw ([ENOENT], [EACCES], [ENOTDIR], [ENOSPC], ...).  Whether it does,
    and with what, is for the host to say, from the tree as it is at the
    call and from the arguments: [mkdirSync_error fs dir],
    [writeFileSync_error fs file content] and [readFileSync_error fs file]
    are the exception of the call, if it throws. *)
Class Runtime := {
  number : Type;
  number_truthy : number → bool;
  JSON_stringify : nat → json number → jsstring;
  JSON_parse : jsstring → option (json number);
  path_join : list jsstring → jsstring;
  os_homedir : jsstring;
  mkdirSync_error : FileSystem → jsstring → option thrown;
  writeFileSync_error : FileSystem → jsstring → jsstring → option thrown;
  readFileSync_error : FileSystem → jsstring → option thrown;
  restartRequired : Z;
  connectionReplaced : Z;
  loggedOut : Z;
  isJidGroup : jsstring → bool;
}.

(** ** Data model *)

Inductive Status := connecting | connected | disconnected | error.

Global Instance Status_eq_dec : EqDecision Status.
Proof. solve_decision. Defined.

Definition Status_name (s : Status) : jsstring :=
  match s with
  | connecting => lit "connecting"
  | connected => lit "connected"
  | disconnected => lit "disconnected"
  | error => lit "error"
  end.

(** A socket made by [makeWASocket] is named by its creation index. *)
Abbreviation SocketId := nat.

(** A reference to a [UserConnection] object in the store. *)
Abbreviation Ref := nat.

Module UserConnection.
Record t := mk {
  userId : jsstring;
  socket : option SocketId;
  authDir : jsstring;
  status : Status;
  phone : option jsstring;
  error : option jsstring;
  lastConnectedAt : option Z;
  reconnectAttempts : Z;
}.
End UserConnection.
Abbreviation UserConnection := UserConnection.t.

Inductive ChatType := direct | group.

Module Metadata.
Record t := mk {
  conversationId : option jsstring;
  chatType : option ChatType;
  senderName : option jsstring;
  senderJid : option jsstring;
  groupSubject : option jsstring;
  messageId : option jsstring;
}.
End Metadata.

Module InboundMessage.
Record t := mk {
  userId : jsstring;
  integrationId : jsstring;
  chatId : jsstring;
  from : jsstring;
  text : jsstring;
  timestamp : Z;
  metadata : option Metadata.t;
}.
End InboundMessage.
Abbreviation InboundMessage := InboundMessage.t.

(** The fields of Baileys' [WAMessage] that the bridge reads. *)
Module WAMessage.
Record Key := mkKey {
  remoteJid : option jsstring;
  fromMe : option bool;
  id : option jsstring;
  participant : option jsstring;
}.
Record Extended := mkExtended { text : option jsstring }.
Record Captioned := mkCaptioned { caption : option jsstring }.
Record Content := mkContent {
  conversation : option jsstring;
  extendedTextMessage : option Extended;
  imageMessage : option Captioned;
  videoMessage : option Captioned;
}.
Record t := mk {
  key : option Key;
  message : option Content;
  messageTimestamp : option Z;
  pushName : option jsstring;
}.
End WAMessage.
Abbreviation WAMessage := WAMessage.t.

(** Baileys' [AnyMessageContent], as [sendMessage] builds it. *)
Inductive AnyMessageContent :=
  | ImageContent (url : jsstring) (caption : option jsstring)
  | VideoContent (url : jsstring) (caption : option jsstring)
  | AudioContent (url : jsstring)
  | DocumentContent (url : jsstring) (caption : option jsstring)
  | TextContent (text : jsstring).

(** The value [sendMessage] resolves to. *)
Module SendResult.
Record t := mk {
  success : bool;
  messageId : option jsstring;
  error : option jsstring;
}.
End SendResult.
Abbreviation SendResult := SendResult.t.

(** The body of the webhook request ([bridge.ts]). *)
Module InboundPayload.
Record Meta := mkMeta {
  accountId : option jsstring;
  conversationId : option jsstring;
  chatType : option ChatType;
  senderName : option jsstring;
}.
Record t := mk {
  userId : jsstring;
  integrationId : jsstring;
  chatId : jsstring;
  from : jsstring;
  text : jsstring;
  media : option (list jsstring);
  timestamp : Z;
  metadata : option Meta;
}.
End InboundPayload.
Abbreviation InboundPayload := InboundPayload.t.

(** Calls into the host, in the order they are made. *)
Inductive Effect :=
  | FetchIntegrations (url : jsstring)
  | PostWebhook (url : jsstring) (payload : InboundPayload)
  | MakeSocket (sock : SocketId) (authDir : jsstring)
  | SocketEnd (sock : SocketId)
  | SendPresenceUpdate (sock : SocketId)
  | SocketSendMessage (sock : SocketId) (chatId : jsstring)
      (content : AnyMessageContent)
  | GroupMetadata (sock : SocketId) (jid : jsstring)
  | ReadMessages (sock : SocketId) (remoteJid id : jsstring)
      (participant : option jsstring)
  | OnMessage (message : InboundMessage)
  | SetTimeout (target : Ref) (delay : Z).

(** The state of the process: the fields of the manager, the store of
    [UserConnection] objects, the sockets made so far (each with the
    [UserConnection] its handlers closed over), the pending reconnect timers
    (each with the [UserConnection] its callback closed over) and the disk.
    [connections] is the [Map] in insertion order. *)
Module World.
Record t := mk {
  connections : list (jsstring * Ref);
  onMessageCallback : bool;
  apiUrl : option jsstring;
  isInitialized : bool;
  store : list UserConnection;
  sockets : list Ref;
  timers : list Ref;
  disk : FileSystem;
}.
End World.
Abbreviation World := World.t.

(** One element of the [integrations] array of the RaccoonAI API. *)
Module Integration.
Record Meta := mkMeta {
  phone : option jsstring;
  displayName : option jsstring;
}.
Record t {number : Type} := mk {
  userId : jsstring;
  integrationId : jsstring;
  credentials : option (list (jsstring * json number));
  metadata : option Meta;
}.
Arguments t : clear implicits.
End Integration.

(** What [fetch] does: it rejects, or it resolves to a response with a
    status, a text body and a JSON body, each of which may fail to be read. *)
Inductive FetchOutcome (body : Type) :=
  | FetchRejected (e : thrown)
  | Response (status : Z) (text : outcome jsstring) (json_body : outcome body).
Arguments FetchRejected {body} e.
Arguments Response {body} status text json_body.

(** [response.ok]. *)
Definition response_ok (status : Z) : bool :=
  ((200 <=? status) && (status <=? 299))%Z.

(** ** The [Map] of connections, in insertion order *)

Definition map_get {V} (k : jsstring) (m : list (jsstring * V)) : option V :=
  snd <$> List.find (λ e, bool_decide (e.1 = k)) m.

Fixpoint map_set {V} (k : jsstring) (v : V) (m : list (jsstring * V))
  : list (jsstring * V) :=
  match m with
  | [] => [(k, v)]
  | e :: m' => if bool_decide (e.1 = k) then (k, v) :: m' else e :: map_set k v m'
  end.

Definition map_delete {V} (k : jsstring) (m : list (jsstring * V))
  : list (jsstring * V) :=
  List.filter (λ e, negb (bool_decide (e.1 = k))) m.

(** ** File system calls *)

(** The tree after a [mkdirSync(dir, {recursive: true})] that returned, and
    after a [writeFileSync(file, content)] that returned. *)
Definition with_dir (fs : FileSystem) (dir : jsstring) : FileSystem :=
  FileSystem.mk (FileSystem.files fs) ({[dir]} ∪ FileSystem.dirs fs).

Definition with_file (fs : FileSystem) (file content : jsstring)
  : FileSystem :=
  FileSystem.mk (<[file := content]> (FileSystem.files fs)) (FileSystem.dirs fs).

(** The content of a regular file, if there is one at the path. *)
Definition readFile (fs : FileSystem) (file : jsstring) : option jsstring :=
  FileSystem.files fs !! file.

(** [fs.existsSync]: true of a file and of a directory; it does not throw. *)
Definition existsSync (fs : FileSystem) (path : jsstring) : bool :=
  bool_decide (is_Some (FileSystem.files fs !! path))
  || bool_decide (path ∈ FileSystem.dirs fs).

Section FileSystemCalls.
Context `{Runtime}.

(** [fs.mkdirSync(dir, {recursive: true})]: it throws and leaves the tree
    as it is, or it returns with the directory made. *)
Definition mkdirSync (fs : FileSystem) (dir : jsstring) : outcome FileSystem :=
  match mkdirSync_error fs dir with
  | Some e => Throw e
  | None => Ret (with_dir fs dir)
  end.

(** [fs.writeFileSync(file, content)]. *)
Definition writeFileSync (fs : FileSystem) (file content : jsstring)
  : outcome FileSystem :=
  match writeFileSync_error fs file content with
  | Some e => Throw e
  | None => Ret (with_file fs file content)
  end.

(** [fs.readFileSync(file, "utf-8")]; where there is no regular file it
    throws as Node does. *)
Definition readFileSync (fs : FileSystem) (file : jsstring) : outcome jsstring :=
  match readFileSync_error fs file with
  | Some e => Throw e
  | None =>
      match FileSystem.files fs !! file with
      | Some content => Ret content
      | None =>
          if bool_decide (file ∈ FileSystem.dirs fs)
          then Throw (JsError
                        (lit "EISDIR: illegal operation on a directory, read"))
          else Throw (JsError
                        (lit "ENOENT: no such file or directory, open '"
                         ++ file ++ lit "'"))
      end
  end.
End FileSystemCalls.

(** What [createSocket] writes into the connection it is called with. *)
Definition rebound (c : UserConnection) (sock : SocketId) : UserConnection :=
  UserConnection.mk (UserConnection.userId c) (Some sock)
    (UserConnection.authDir c) connecting (UserConnection.phone c)
    (UserConnection.error c) (UserConnection.lastConnectedAt c)
    (UserConnection.reconnectAttempts c).

(** ** The connection manager *)

Section Manager.
Context `{Runtime}.

Definition json_truthy (v : json number) : bool :=
  match v with
  | JNull => false
  | JBool b => b
  | JNumber x => number_truthy x
  | JString s => truthy_string s
  | JArray _ | JObject _ => true
  end.

(** [o.k] on a value that JSON can denote; [None] is [undefined]. *)
Definition get_prop (k : jsstring) (v : json number) : option (json number) :=
  match v with
  | JObject props => map_get k props
  | _ => None
  end.

Definition getBaseAuthDir : jsstring :=
  path_join [os_homedir; lit ".clawdbot"; lit "credentials"; lit "whatsapp"].

Definition getAuthDir (userId : jsstring) : jsstring :=
  path_join [getBaseAuthDir; lit "raccoon-" ++ userId].

(** The body of the loop over [Object.entries(credentials)]. *)
Definition write_entry (authDir : jsstring) (fs : FileSystem)
    (entry : jsstring * json number) : outcome FileSystem :=
  match entry.2 with
  | JNull => Ret fs
  | value =>
      writeFileSync fs (path_join [authDir; entry.1 ++ lit ".json"])
        (JSON_stringify 2 value)
  end.

(** The loop: it stops at the first entry whose write throws, with the
    files of the entries before it written. *)
Fixpoint write_entries (authDir : jsstring) (fs : FileSystem)
    (credentials : list (jsstring * json number))
  : FileSystem * outcome unit :=
  match credentials with
  | [] => (fs, Ret ())
  | entry :: rest =>
      match write_entry authDir fs entry with
      | Ret fs' => write_entries authDir fs' rest
      | Throw e => (fs, Throw e)
      end
  end.

(** The block that ensures [registered: true] in [creds.json].  The file is
    a module, hence strict code: reading a property of [null] and assigning
    a property of a primitive both throw.  A property set on an array is not
    printed by [JSON.stringify].  Whatever is thrown inside the [try], by
    the object, by [JSON.parse] or by a call of [fs], the [catch] ignores. *)
Definition ensure_registered (fs : FileSystem) (credsPath : jsstring)
  : FileSystem :=
  if negb (existsSync fs credsPath) then fs
  else
    let patch (creds : json number) :=
      catch_default (writeFileSync fs credsPath (JSON_stringify 2 creds)) fs in
    match readFileSync fs credsPath with
    | Throw _ => fs
    | Ret content =>
        match JSON_parse content with
        | None => fs
        | Some (JObject props) =>
            if from_option json_truthy false (map_get (lit "registered") props)
            then fs
            else patch (JObject (map_set (lit "registered") (JBool true)
                                   props))
        | Some (JArray items) => patch (JArray items)
        | Some _ => fs
        end
    end.

(** [writeCredentials]: the tree it leaves, and the directory it returns or
    the exception of the [fs] call that it lets through. *)
Definition writeCredentials (fs : FileSystem) (userId : jsstring)
    (credentials : list (jsstring * json number))
  : FileSystem * outcome jsstring :=
  let authDir := getAuthDir userId in
  match mkdirSync fs authDir with
  | Throw e => (fs, Throw e)
  | Ret fs =>
      match write_entries authDir fs credentials with
      | (fs, Throw e) => (fs, Throw e)
      | (fs, Ret _) =>
          let credsPath := path_join [authDir; lit "creds.json"] in
          (ensure_registered fs credsPath, Ret authDir)
      end
  end.

(** [extractPhone].  [creds.me.id] is declared a string; on any other
    truthy value [.split] is not a function and the call throws. *)
Definition extractPhone (credentials : list (jsstring * json number))
    (metadata : option Integration.Meta) : outcome (option jsstring) :=
  let meta_phone :=
    match metadata with Some m => Integration.phone m | None => None end in
  if truthy meta_phone then Ret meta_phone
  else
    let me :=
      match map_get (lit "creds") credentials with
      | Some creds => get_prop (lit "me") creds
      | None => None
      end in
    match me with
    | None => Ret None
    | Some me =>
        match get_prop (lit "id") me with
        | Some (JString s) =>
            if truthy_string s then Ret (Some (phone_of_jid s)) else Ret None
        | Some v =>
            if json_truthy v
            then Throw (JsError (lit "creds.me.id.split is not a function"))
            else Ret None
        | None => Ret None
        end
    end.

(** [this.connections.get(userId)], with the object it refers to.  The map
    only holds references that [connectUser] allocated, so the lookup in the
    store does not fail in a state the process reaches. *)
Definition conn_get (w : World) (userId : jsstring)
  : option (Ref * UserConnection) :=
  match map_get userId (World.connections w) with
  | Some r =>
      match World.store w !! r with
      | Some c => Some (r, c)
      | None => None
      end
  | None => None
  end.

(** The entries of [this.connections], in iteration order. *)
Definition entries (w : World) : list (jsstring * UserConnection) :=
  omap (λ e : jsstring * Ref, pair e.1 <$> World.store w !! e.2)
    (World.connections w).

Definition set_store (w : World) (store : list UserConnection) : World :=
  World.mk (World.connections w) (World.onMessageCallback w) (World.apiUrl w)
    (World.isInitialized w) store (World.sockets w) (World.timers w)
    (World.disk w).

Definition set_connections (w : World) (m : list (jsstring * Ref)) : World :=
  World.mk m (World.onMessageCallback w) (World.apiUrl w)
    (World.isInitialized w) (World.store w) (World.sockets w)
    (World.timers w) (World.disk w).

Definition set_isInitialized (w : World) (b : bool) : World :=
  World.mk (World.connections w) (World.onMessageCallback w) (World.apiUrl w)
    b (World.store w) (World.sockets w) (World.timers w) (World.disk w).

Definition set_timers (w : World) (ts : list Ref) : World :=
  World.mk (World.connections w) (World.onMessageCallback w) (World.apiUrl w)
    (World.isInitialized w) (World.store w) (World.sockets w) ts
    (World.disk w).

Definition set_disk (w : World) (fs : FileSystem) : World :=
  World.mk (World.connections w) (World.onMessageCallback w) (World.apiUrl w)
    (World.isInitialized w) (World.store w) (World.sockets w)
    (World.timers w) fs.

Definition setApiUrl (w : World) (url : jsstring) : World :=
  World.mk (World.connections w) (World.onMessageCallback w) (Some url)
    (World.isInitialized w) (World.store w) (World.sockets w)
    (World.timers w) (World.disk w).

Definition setOnMessage (w : World) : World :=
  World.mk (World.connections w) true (World.apiUrl w)
    (World.isInitialized w) (World.store w) (World.sockets w)
    (World.timers w) (World.disk w).

(** The synchronous tail of [createSocket]: the awaited library calls
    ([useMultiFileAuthState], [fetchLatestBaileysVersion]) and
    [makeWASocket] come first and touch no state of the bridge; [lib] is
    their outcome.  The new socket's handlers close over [r]. *)
Definition createSocket (w : World) (r : Ref) (lib : outcome unit)
  : World * list Effect * outcome unit :=
  match lib with
  | Throw e => (w, [], Throw e)
  | Ret _ =>
      let sock := length (World.sockets w) in
      let authDir :=
        from_option UserConnection.authDir [] (World.store w !! r) in
      (World.mk (World.connections w) (World.onMessageCallback w)
         (World.apiUrl w) (World.isInitialized w)
         (alter (λ c, rebound c sock) r (World.store w)) (World.sockets w ++ [r])
         (World.timers w) (World.disk w),
       [MakeSocket sock authDir], Ret ())
  end.

(** [connectUser].  An exception of [writeCredentials] is let through, with
    the map as it was. *)
Definition connectUser (w : World) (userId : jsstring)
    (credentials : list (jsstring * json number))
    (metadata : option Integration.Meta) (lib : outcome unit)
  : World * list Effect * outcome unit :=
  let already :=
    match conn_get w userId with
    | Some (_, existing) =>
        bool_decide (UserConnection.status existing = connected)
    | None => false
    end in
  if already then (w, [], Ret ())
  else
    let (fs, wrote) := writeCredentials (World.disk w) userId credentials in
    let w := set_disk w fs in
    match wrote with
    | Throw e => (w, [], Throw e)
    | Ret authDir =>
        match extractPhone credentials metadata with
        | Throw e => (w, [], Throw e)
        | Ret phone =>
            let userConn :=
              UserConnection.mk userId None authDir connecting phone None None
                0 in
            let r := length (World.store w) in
            let w := set_store w (World.store w ++ [userConn]) in
            let w :=
              set_connections w (map_set userId r (World.connections w)) in
            createSocket w r lib
        end
    end.

(** The message content [sendMessage] builds. *)
Definition build_content (text : jsstring) (mediaUrl : option jsstring)
  : AnyMessageContent :=
  match mediaUrl with
  | Some url =>
      if truthy_string url then
        let isImage := has_extension ["jpg"; "jpeg"; "png"; "gif"; "webp"] url in
        let isVideo := has_extension ["mp4"; "mov"; "avi"; "mkv"; "webm"] url in
        let isAudio := has_extension ["mp3"; "wav"; "ogg"; "m4a"; "opus"] url in
        if isImage then ImageContent url (or_undefined (Some text))
        else if isVideo then VideoContent url (or_undefined (Some text))
        else if isAudio then AudioContent url
        else DocumentContent url (or_undefined (Some text))
      else TextContent text
  | None => TextContent text
  end.

(** [sendMessage].  [net] is what the socket's [sendMessage] does when it is
    called: it resolves to a result whose [key.id] may be absent, or it
    rejects. *)
Definition sendMessage (w : World) (userId chatId text : jsstring)
    (mediaUrl : option jsstring) (net : outcome (option jsstring))
  : outcome SendResult * list Effect :=
  let not_connected :=
    (Ret (SendResult.mk false None (Some (lit "User not connected"))), []) in
  match conn_get w userId with
  | None => not_connected
  | Some (_, userConn) =>
      match UserConnection.socket userConn with
      | None => not_connected
      | Some sock =>
          if negb (bool_decide (UserConnection.status userConn = connected))
          then
            (Ret (SendResult.mk false None
                    (Some (lit "Connection status: "
                           ++ Status_name (UserConnection.status userConn)))),
             [])
          else
            let content := build_content text mediaUrl in
            (try_catch
               (match net with
                | Ret id => Ret (SendResult.mk true id None)
                | Throw e => Throw e
                end)
               (λ e, Ret (SendResult.mk false None
                            (Some (message_or e (lit "Send failed"))))),
             [SocketSendMessage sock chatId content])
      end
  end.

Definition getConnectionStatus (w : World) (userId : jsstring)
  : option UserConnection :=
  snd <$> conn_get w userId.

(** The loop of [getUserIdByPhone] over the entries of the map. *)
Fixpoint find_by_phone (normalized : jsstring)
    (es : list (jsstring * UserConnection)) : option jsstring :=
  match es with
  | [] => None
  | (userId, conn) :: rest =>
      let phone := UserConnection.phone conn in
      if truthy phone && endsWith (default [] phone) normalized
      then Some userId
      else if truthy phone && endsWith normalized (default [] phone)
      then Some userId
      else find_by_phone normalized rest
  end.

Definition getUserIdByPhone (w : World) (phone : jsstring) : option jsstring :=
  let normalized := strip_non_digits phone in
  find_by_phone normalized (entries w).

Definition getConnectedUserIds (w : World) : list jsstring :=
  fst <$> List.filter
            (λ e : jsstring * UserConnection,
               bool_decide (UserConnection.status e.2 = connected))
            (entries w).

(** [disconnectUser]; an exception of [socket.end] is ignored. *)
Definition disconnectUser (w : World) (userId : jsstring)
  : World * list Effect :=
  let ended :=
    match conn_get w userId with
    | Some (_, userConn) =>
        match UserConnection.socket userConn with
        | Some sock => [SocketEnd sock]
        | None => []
        end
    | None => []
    end in
  (set_connections w (map_delete userId (World.connections w)), ended).

(** [shutdown].  The loop deletes the entry it is visiting, which a [Map]
    iterator tolerates: with no other step in between, it visits every key
    the map had. *)
Definition shutdown (w : World) : World * list Effect :=
  let (w, effs) :=
    foldl (λ (acc : World * list Effect) (e : jsstring * Ref),
             let (w', effs') := disconnectUser acc.1 e.1 in
             (w', acc.2 ++ effs'))
      (w, []) (World.connections w) in
  (set_isInitialized w false, effs).

(** *** The [connection.update] handler *)

Inductive WAConnectionState := conn_open | conn_close | conn_connecting.

(** [update.connection] and
    [(update.lastDisconnect?.error as Boom)?.output?.statusCode]. *)
Record ConnectionUpdate := mkUpdate {
  connection : option WAConnectionState;
  statusCode : option Z;
}.

(** The [connection === "open"] branch; [sockUser] is [sock.user?.id]. *)
Definition on_open (c : UserConnection) (sockUser : option jsstring)
    (now : Z) : UserConnection :=
  UserConnection.mk (UserConnection.userId c) (UserConnection.socket c)
    (UserConnection.authDir c) connected
    (if truthy sockUser then phone_of_jid <$> sockUser
     else UserConnection.phone c)
    None (Some now) 0.

Definition shouldReconnect (code : option Z) : bool :=
  bool_decide (code = Some restartRequired)
  || bool_decide (code = Some 515%Z)
  || bool_decide (code = Some connectionReplaced).

(** The [connection === "close"] branch: the new object, and whether a
    reconnect timer was set. *)
Definition on_close (c : UserConnection) (code : option Z)
  : UserConnection * bool :=
  if shouldReconnect code
     && (UserConnection.reconnectAttempts c <? 3)%Z
     && negb (bool_decide (UserConnection.status c = error))
  then
    (UserConnection.mk (UserConnection.userId c) (UserConnection.socket c)
       (UserConnection.authDir c) connecting (UserConnection.phone c)
       (UserConnection.error c) (UserConnection.lastConnectedAt c)
       (UserConnection.reconnectAttempts c + 1)%Z,
     true)
  else if bool_decide (code = Some loggedOut) then
    (UserConnection.mk (UserConnection.userId c) (UserConnection.socket c)
       (UserConnection.authDir c) error (UserConnection.phone c)
       (Some (lit "logged_out")) (UserConnection.lastConnectedAt c)
       (UserConnection.reconnectAttempts c),
     false)
  else
    (UserConnection.mk (UserConnection.userId c) (UserConnection.socket c)
       (UserConnection.authDir c) disconnected (UserConnection.phone c)
       (Some (lit "disconnect_"
              ++ from_option String_of_number (lit "undefined") code))
       (UserConnection.lastConnectedAt c)
       (UserConnection.reconnectAttempts c),
     false).

(** The handler registered on socket [sock]; it mutates the
    [UserConnection] that [createSocket] was called with. *)
Definition connection_update (w : World) (sock : SocketId)
    (update : ConnectionUpdate) (sockUser : option jsstring) (now : Z)
  : World * list Effect :=
  match World.sockets w !! sock with
  | None => (w, [])
  | Some r =>
      match connection update with
      | Some conn_open =>
          (set_store w (alter (λ c, on_open c sockUser now) r (World.store w)),
           [SendPresenceUpdate sock])
      | Some conn_close =>
          match World.store w !! r with
          | None => (w, [])
          | Some c =>
              let (c', timer) := on_close c (statusCode update) in
              let w := set_store w (<[r := c']> (World.store w)) in
              if timer
              then (set_timers w (World.timers w ++ [r]), [SetTimeout r 2000%Z])
              else (w, [])
          end
      | _ => (w, [])
      end
  end.

(** The callback of the [i]-th pending reconnect timer:
    [() => this.createSocket(userConn)]. *)
Definition timer_fires (w : World) (i : nat) (lib : outcome unit)
  : World * list Effect * outcome unit :=
  match World.timers w !! i with
  | None => (w, [], Ret ())
  | Some r => createSocket (set_timers w (delete i (World.timers w))) r lib
  end.

(** *** Inbound messages *)

(** The text of a message: the first non-empty field. *)
Definition extract_text (m : WAMessage.Content) : jsstring :=
  or_else (WAMessage.conversation m)
    (or_else (WAMessage.extendedTextMessage m ≫= WAMessage.text)
       (or_else (WAMessage.imageMessage m ≫= WAMessage.caption)
          (or_else (WAMessage.videoMessage m ≫= WAMessage.caption) []))).

(** What the host answers while one message is handled: the result of
    [sock.groupMetadata] (its [subject]) and the clock.  The outcomes of
    [sock.readMessages] and of the callback are ignored by the source. *)
Record HandleEnv := mkHandleEnv {
  groupMeta : outcome (option jsstring);
  clock : Z;
}.

(** [handleIncomingMessage]: the calls it makes, in order. *)
Definition handleIncomingMessage (w : World) (userConn : UserConnection)
    (msg : WAMessage) (sock : SocketId) (env : HandleEnv) : list Effect :=
  let key := WAMessage.key msg in
  let remoteJid := key ≫= WAMessage.remoteJid in
  if negb (truthy remoteJid) then []
  else
    let remoteJid := default [] remoteJid in
    if endsWith remoteJid (lit "@status")
       || endsWith remoteJid (lit "@broadcast")
    then []
    else if default false (key ≫= WAMessage.fromMe) then []
    else
      match WAMessage.message msg with
      | None => []
      | Some message =>
          let text := extract_text message in
          if negb (truthy_string (trim text)) then []
          else
            let isGroup := isJidGroup remoteJid in
            let participantJid := key ≫= WAMessage.participant in
            let senderE164 :=
              if isGroup && truthy participantJid
              then phone_of_jid <$> participantJid
              else if negb isGroup then Some (phone_of_jid remoteJid)
              else None in
            let lookup := if isGroup then [GroupMetadata sock remoteJid] else [] in
            let groupSubject :=
              if isGroup then catch_default (groupMeta env) None else None in
            let messageId := key ≫= WAMessage.id in
            let inboundMessage :=
              InboundMessage.mk (UserConnection.userId userConn)
                (lit "whatsapp") remoteJid (or_else senderE164 remoteJid) text
                (match WAMessage.messageTimestamp msg with
                 | Some t => if (t =? 0)%Z then clock env else (t * 1000)%Z
                 | None => clock env
                 end)
                (Some (Metadata.mk (Some remoteJid)
                         (Some (if isGroup then group else direct))
                         (or_undefined (WAMessage.pushName msg))
                         (or_undefined participantJid)
                         groupSubject messageId)) in
            let read :=
              if truthy messageId
              then [ReadMessages sock remoteJid (default [] messageId)
                      participantJid]
              else [] in
            let forward :=
              if World.onMessageCallback w then [OnMessage inboundMessage]
              else [] in
            lookup ++ read ++ forward
      end.

(** The [messages.upsert] handler of socket [sock]. *)
Definition messages_upsert (w : World) (sock : SocketId)
    (type : option jsstring) (messages : option (list (WAMessage * HandleEnv)))
  : list Effect :=
  if negb (bool_decide (type = Some (lit "notify"))) then []
  else
    match World.sockets w !! sock ≫= (λ r, World.store w !! r) with
    | None => []
    | Some userConn =>
        concat ((λ me : WAMessage * HandleEnv,
                   handleIncomingMessage w userConn me.1 sock me.2)
                <$> default [] messages)
    end.

(** *** Start-up *)

(** [fetchIntegrations]; [net] is what [fetch] does when it is called, the
    JSON body being the [integrations] member of the parsed object. *)
Definition fetchIntegrations (w : World)
    (net : FetchOutcome (option (list (Integration.t number))))
  : list (Integration.t number) * list Effect :=
  if negb (truthy (World.apiUrl w)) then ([], [])
  else
    let url := default [] (World.apiUrl w) ++ lit "/i/moltbot/integrations" in
    (match net with
     | FetchRejected _ => []
     | Response status _ body =>
         if negb (response_ok status) then []
         else match body with
              | Ret data => default [] data
              | Throw _ => []
              end
     end,
     [FetchIntegrations url]).

(** The integrations request failed: it was rejected, or the status of the
    response is outside 200..299. *)
Definition fetch_failed
    (net : FetchOutcome (option (list (Integration.t number)))) : Prop :=
  match net with
  | FetchRejected _ => True
  | Response status _ _ => ¬ (200 ≤ status ≤ 299)%Z
  end.

(** What the host answers during [initialize]: the integrations request,
    and the library calls of [createSocket] for the [i]-th integration. *)
Record InitEnv := mkInitEnv {
  integrations_response : FetchOutcome (option (list (Integration.t number)));
  socket_lib : nat → outcome unit;
}.

(** [initialize]; a failure of [connectUser] is logged and the loop goes
    on. *)
Definition initialize (w : World) (env : InitEnv) : World * list Effect :=
  if World.isInitialized w then (w, [])
  else
    let (integrations, fetched) :=
      fetchIntegrations w (integrations_response env) in
    let whatsappIntegrations :=
      List.filter
        (λ i : Integration.t number,
           bool_decide (Integration.integrationId i = lit "whatsapp")
           && bool_decide (is_Some (Integration.credentials i)))
        integrations in
    let (w, effs) :=
      foldl (λ (acc : World * list Effect) (ii : nat * Integration.t number),
               let '(w', effs', _) :=
                 connectUser acc.1 (Integration.userId ii.2)
                   (default [] (Integration.credentials ii.2))
                   (Integration.metadata ii.2) (socket_lib env ii.1) in
               (w', acc.2 ++ effs'))
        (w, fetched)
        (zip (seq 0 (length whatsappIntegrations)) whatsappIntegrations) in
    (set_isInitialized w true, effs).

(** *** The process as a transition system *)

Inductive Action :=
  | DoSetApiUrl (url : jsstring)
  | DoSetOnMessage
  | DoInitialize (env : InitEnv)
  | DoConnectUser (userId : jsstring)
      (credentials : list (jsstring * json number))
      (metadata : option Integration.Meta) (lib : outcome unit)
  | DoConnectionUpdate (sock : SocketId) (update : ConnectionUpdate)
      (sockUser : option jsstring) (now : Z)
  | DoTimer (i : nat) (lib : outcome unit)
  | DoMessagesUpsert (sock : SocketId) (type : option jsstring)
      (messages : option (list (WAMessage * HandleEnv)))
  | DoSendMessage (userId chatId text : jsstring) (mediaUrl : option jsstring)
      (net : outcome (option jsstring))
  | DoDisconnectUser (userId : jsstring)
  | DoShutdown.

Definition step (w : World) (a : Action) : World * list Effect :=
  match a with
  | DoSetApiUrl url => (setApiUrl w url, [])
  | DoSetOnMessage => (setOnMessage w, [])
  | DoInitialize env => initialize w env
  | DoConnectUser userId credentials metadata lib =>
      (connectUser w userId credentials metadata lib).1
  | DoConnectionUpdate sock update sockUser now =>
      connection_update w sock update sockUser now
  | DoTimer i lib => (timer_fires w i lib).1
  | DoMessagesUpsert sock type messages =>
      (w, messages_upsert w sock type messages)
  | DoSendMessage userId chatId text mediaUrl net =>
      (w, (sendMessage w userId chatId text mediaUrl net).2)
  | DoDisconnectUser userId => disconnectUser w userId
  | DoShutdown => shutdown w
  end.

Definition run (w : World) (actions : list Action) : World :=
  foldl (λ w a, (step w a).1) w actions.

(** The process at start: an empty manager over some disk. *)
Definition initial (fs : FileSystem) : World :=
  World.mk [] false None false [] [] [] fs.
End Manager.

(** ** The forwarder ([bridge.ts]) *)

Module RaccoonAIBridgeConfig.
Record t := mk {
  webhookUrl : option jsstring;
  raccoonApiUrl : option jsstring;
  enabled : option bool;
}.
End RaccoonAIBridgeConfig.
Abbreviation RaccoonAIBridgeConfig := RaccoonAIBridgeConfig.t.

(** The JSON object the webhook answers with. *)
Module WebhookReply.
Record t := mk {
  success : option bool;
  sessionId : option jsstring;
  sessionUrl : option jsstring;
  error : option jsstring;
}.
End WebhookReply.

Module ForwardResult.
Record t := mk {
  success : bool;
  sessionId : option jsstring;
  sessionUrl : option jsstring;
  error : option jsstring;
}.
End ForwardResult.
Abbreviation ForwardResult := ForwardResult.t.

Definition forward_failure (message : jsstring) : ForwardResult :=
  ForwardResult.mk false None None (Some message).

(** [forwardToRaccoonAI]; [config] is [getBridgeConfig()] and [net] is what
    [fetch] does when it is called.  A body that is not JSON makes
    [response.json()] reject and a body that is [null] makes the property
    reads throw, which [Throw] in [json_body] stands for.  A body that is a
    number, a string, a boolean or an array has none of the four members:
    it is a reply in which all four are absent. *)
Definition forwardToRaccoonAI (config : RaccoonAIBridgeConfig)
    (payload : InboundPayload) (net : FetchOutcome WebhookReply.t)
  : outcome ForwardResult * list Effect :=
  if negb (default false (RaccoonAIBridgeConfig.enabled config))
  then (Ret (forward_failure (lit "Bridge is disabled")), [])
  else if negb (truthy (RaccoonAIBridgeConfig.webhookUrl config))
  then (Ret (forward_failure (lit "No webhook URL configured")), [])
  else
    (try_catch
       (match net with
        | FetchRejected e => Throw e
        | Response status text body =>
            if negb (response_ok status) then
              let errorText := catch_default text (lit "Unknown error") in
              Ret (forward_failure
                     (lit "HTTP " ++ String_of_number status ++ lit ": "
                      ++ errorText))
            else
              match body with
              | Throw e => Throw e
              | Ret result =>
                  Ret (ForwardResult.mk
                         (default true (WebhookReply.success result))
                         (WebhookReply.sessionId result)
                         (WebhookReply.sessionUrl result)
                         (WebhookReply.error result))
              end
        end)
       (λ e, Ret (forward_failure
                    (message_or e (lit "Failed to forward message")))),
     [PostWebhook (default [] (RaccoonAIBridgeConfig.webhookUrl config))
        payload]).

(** ** The outbound route [/raccoonai/send] *)

Module OutboundPayload.
Record Media := mkMedia {
  url : jsstring;
  mimeType : option jsstring;
  filename : option jsstring;
}.
Record t := mk {
  integrationId : option jsstring;
  chatId : option jsstring;
  text : option jsstring;
  userId : option jsstring;
  media : option (list Media);
}.
End OutboundPayload.
Abbreviation OutboundPayload := OutboundPayload.t.

(** A request: its method, and what reading and parsing its body gives. *)
Module Request.
Record t := mk {
  method : jsstring;
  body : outcome OutboundPayload;
}.
End Request.

(** A response: the status of [writeHead] and the object [end] prints. *)
Module HttpResponse.
Record t := mk {
  status : Z;
  body : SendResult;
}.
End HttpResponse.
Abbreviation HttpResponse := HttpResponse.t.

Definition http_error (status : Z) (message : jsstring) : HttpResponse :=
  HttpResponse.mk status (SendResult.mk false None (Some message)).

(** The user the request is for: the one it names, else the only connected
    one; or the response that reports why there is none. *)
Definition resolve_user (w : World) (payload : OutboundPayload)
  : HttpResponse + jsstring :=
  if truthy (OutboundPayload.userId payload)
  then inr (default [] (OutboundPayload.userId payload))
  else
    match getConnectedUserIds w with
    | [userId] => inr userId
    | [] => inl (http_error 500 (lit "No WhatsApp connections available"))
    | _ => inl (http_error 400 (lit "Multiple users connected, userId required"))
    end.

(** The media URL the route passes on: the first item's, if any. *)
Definition first_media_url (payload : OutboundPayload) : option jsstring :=
  match OutboundPayload.media payload with
  | Some (m :: _) => Some (OutboundPayload.url m)
  | _ => None
  end.

(** The handler of the route; [net] is what the socket does if the handler
    gets as far as sending. *)
Definition handler (w : World) (req : Request.t)
    (net : outcome (option jsstring)) : HttpResponse * list Effect :=
  if negb (bool_decide (Request.method req = lit "POST"))
  then (http_error 405 (lit "Method not allowed"), [])
  else
    let attempt : outcome HttpResponse * list Effect :=
      match Request.body req with
      | Throw e => (Throw e, [])
      | Ret payload =>
          if negb (truthy (OutboundPayload.integrationId payload))
             || negb (truthy (OutboundPayload.chatId payload))
             || negb (truthy (OutboundPayload.text payload))
          then
            (Ret (http_error 400
                    (lit "Missing required fields: integrationId, chatId, text")),
             [])
          else
            match resolve_user w payload with
            | inl response => (Ret response, [])
            | inr userId =>
                let integrationId :=
                  default [] (OutboundPayload.integrationId payload) in
                if bool_decide (integrationId = lit "whatsapp") then
                  let mediaUrl := first_media_url payload in
                  let (result, effs) :=
                    sendMessage w userId
                      (default [] (OutboundPayload.chatId payload))
                      (default [] (OutboundPayload.text payload)) mediaUrl net in
                  match result with
                  | Ret result =>
                      (Ret (HttpResponse.mk
                              (if SendResult.success result then 200 else 500)
                              result),
                       effs)
                  | Throw e => (Throw e, effs)
                  end
                else
                  (Ret (http_error 400
                          (lit "Integration " ++ integrationId
                           ++ lit " not supported")),
                   [])
            end
      end in
    (match attempt.1 with
     | Ret response => response
     | Throw e => http_error 500 (message_or e (lit "Internal error"))
     end,
     attempt.2).

(** ** A reference host

    An instance of [Runtime] on which the model runs: numbers are integers,
    the reason codes are the ones Baileys declares, [path_join] puts a slash
    between the segments, and the JSON codec is an injective encoding of the
    value tree (not the JSON text syntax).  A file can be written where its
    parent directory exists; a directory cannot be made where a file is. *)
Module ReferenceRuntime.
Definition atom : Type := bool + Z + jsstring.

Fixpoint to_tree (v : json Z) : gen_tree atom :=
  match v with
  | JNull => GenNode 0 []
  | JBool b => GenLeaf (inl (inl b))
  | JNumber x => GenLeaf (inl (inr x))
  | JString s => GenLeaf (inr s)
  | JArray items => GenNode 1 (List.map to_tree items)
  | JObject props =>
      GenNode 2
        (List.map (λ kv : jsstring * json Z,
                     GenNode 3 [GenLeaf (inr kv.1); to_tree kv.2]) props)
  end.

Fixpoint from_tree (t : gen_tree atom) : json Z :=
  match t with
  | GenLeaf (inl (inl b)) => JBool b
  | GenLeaf (inl (inr x)) => JNumber x
  | GenLeaf (inr s) => JString s
  | GenNode 1 ts => JArray (List.map from_tree ts)
  | GenNode 2 ts =>
      JObject
        (List.map (λ t, match t with
                        | GenNode _ [GenLeaf (inr k); t'] => (k, from_tree t')
                        | _ => ([], JNull)
                        end) ts)
  | GenNode _ _ => JNull
  end.

Fixpoint bits (p : positive) : jsstring :=
  match p with
  | xH => []
  | xO p => 48%N :: bits p
  | xI p => 49%N :: bits p
  end.

Fixpoint unbits (s : jsstring) : option positive :=
  match s with
  | [] => Some xH
  | c :: s' =>
      if (c =? 48)%N then xO <$> unbits s'
      else if (c =? 49)%N then xI <$> unbits s'
      else None
  end.

Definition stringify (indent : nat) (v : json Z) : jsstring :=
  bits (encode (to_tree v)).

Definition parse (s : jsstring) : option (json Z) :=
  match unbits s with
  | Some p => from_tree <$> decode p
  | None => None
  end.

Definition join (segments : list jsstring) : jsstring :=
  match segments with
  | [] => lit "."
  | s :: rest => foldl (λ acc seg, acc ++ lit "/" ++ seg) s rest
  end.

(** The path without its last segment. *)
Fixpoint after_slash (s : jsstring) : jsstring :=
  match s with
  | [] => []
  | c :: s' => if (c =? 47)%N then s' else after_slash s'
  end.

Definition dirname (path : jsstring) : jsstring :=
  reverse (after_slash (reverse path)).

Definition mkdir_error (fs : FileSystem) (dir : jsstring) : option thrown :=
  if bool_decide (is_Some (FileSystem.files fs !! dir))
  then Some (JsError (lit "EEXIST: file already exists, mkdir '" ++ dir
                      ++ lit "'"))
  else None.

Definition write_error (fs : FileSystem) (file content : jsstring)
  : option thrown :=
  if bool_decide (file ∈ FileSystem.dirs fs)
  then Some (JsError (lit "EISDIR: illegal operation on a directory, open '"
                      ++ file ++ lit "'"))
  else if bool_decide (dirname file ∈ FileSystem.dirs fs) then None
  else Some (JsError (lit "ENOENT: no such file or directory, open '" ++ file
                      ++ lit "'")).

Definition runtime : Runtime := {|
  number := Z;
  number_truthy := λ x, negb (x =? 0)%Z;
  JSON_stringify := stringify;
  JSON_parse := parse;
  path_join := join;
  os_homedir := lit "/home/bot";
  mkdirSync_error := mkdir_error;
  writeFileSync_error := write_error;
  readFileSync_error := λ _ _, None;
  restartRequired := 515;
  connectionReplaced := 440;
  loggedOut := 401;
  isJidGroup := λ jid, endsWith jid (lit "@g.us");
|}.
End ReferenceRuntime.

(** ** Notions used in the statements *)

(** The two tests of the loop of [getUserIdByPhone], on one connection: the
    stored phone is not empty, and it ends with the normalized input or the
    normalized input ends with it. *)
Definition phone_matches (normalized : jsstring) (conn : UserConnection)
  : Prop :=
  ∃ p, UserConnection.phone conn = Some p ∧ p ≠ []
       ∧ (normalized `suffix_of` p ∨ p `suffix_of` normalized).

(** The reconnect counter of a connection is within its bounds. *)
Definition attempts_bounded (c : UserConnection) : Prop :=
  (0 ≤ UserConnection.reconnectAttempts c ≤ 3)%Z.

Section Written.
Context `{Runtime}.

(** What one entry of the credentials has for the file at [p]: the print of
    its value if it has one and [p] is its file. *)
Definition entry_content (authDir : jsstring) (entry : jsstring * json number)
    (p : jsstring) : option jsstring :=
  match entry.2 with
  | JNull => None
  | value =>
      if bool_decide (path_join [authDir; entry.1 ++ lit ".json"] = p)
      then Some (JSON_stringify 2 value)
      else None
  end.

(** What the file at [p] holds after the entries were written in order,
    when it held [before]: what the last entry for it has. *)
Definition after_entries (authDir : jsstring)
    (credentials : list (jsstring * json number)) (p : jsstring)
    (before : option jsstring) : option jsstring :=
  foldl (λ content entry,
           from_option Some content (entry_content authDir entry p))
    before credentials.
End Written.

(** ** Sample data *)

(** A process with one connected user, and a request for it. *)
Definition one_user_world : World :=
  World.mk [(lit "u1", 0)] true None true
    [UserConnection.mk (lit "u1") (Some 0) (lit "/auth/raccoon-u1") connected
       (Some (lit "15551234567")) None (Some 1700000000000%Z) 0]
    [0] [] (FileSystem.mk ∅ ∅).

Definition hi_payload : OutboundPayload :=
  OutboundPayload.mk (Some (lit "whatsapp")) (Some (lit "123@x"))
    (Some (lit "hi")) None None.

(** Runs of the process on the reference host. *)
Section Samples.
#[local] Existing Instance ReferenceRuntime.runtime.

Definition empty_disk : FileSystem := FileSystem.mk ∅ ∅.

Definition close_with (code : Z) : ConnectionUpdate :=
  mkUpdate (Some conn_close) (Some code).

(** A user connects; three times in a row the socket asks for a restart and
    the timer replaces it. *)
Definition three_restarts : list Action :=
  [DoConnectUser (lit "u1") [] None (Ret ());
   DoConnectionUpdate 0 (close_with 515) None 0%Z; DoTimer 0 (Ret ());
   DoConnectionUpdate 1 (close_with 515) None 0%Z; DoTimer 0 (Ret ());
   DoConnectionUpdate 2 (close_with 515) None 0%Z; DoTimer 0 (Ret ())].

(** A user connects and its socket reports one restart. *)
Definition one_restart : list Action :=
  [DoConnectUser (lit "u1") [] None (Ret ());
   DoConnectionUpdate 0 (close_with 515) None 0%Z].

Definition restarted_connection (sock : SocketId) (attempts : Z)
  : UserConnection :=
  UserConnection.mk (lit "u1") (Some sock)
    (lit "/home/bot/.clawdbot/credentials/whatsapp/raccoon-u1")
    connecting None None None attempts.

(** A process that knows the API but has not started, and an integrations
    request answered with 503. *)
Definition configured_world : World :=
  setApiUrl (initial empty_disk) (lit "http://api").

Definition unavailable : InitEnv :=
  mkInitEnv (Response 503 (Ret (lit "down")) (Throw JsOther)) (λ _, Ret ()).

(** Credentials with a primary record that lacks the marker. *)
Definition sample_credentials : list (jsstring * json Z) :=
  [(lit "creds", JObject [(lit "me", JObject [(lit "id", JString (lit "15551234567:2@s.whatsapp.net"))])]);
   (lit "app-state-sync-key-1", JObject [(lit "keyData", JString (lit "AAAA"))]);
   (lit "unused", JNull)].
End Samples.

Definition text_message (jid : jsstring) (fromMe : bool) (body : jsstring)
  : WAMessage :=
  WAMessage.mk (Some (WAMessage.mkKey (Some jid) (Some fromMe)
                        (Some (lit "MSG1")) None))
    (Some (WAMessage.mkContent (Some body) None None None))
    (Some 1700000000%Z) (Some (lit "Ann")).

Definition quiet : HandleEnv := mkHandleEnv (Ret None) 0%Z.

Definition enabled_config : RaccoonAIBridgeConfig :=
  RaccoonAIBridgeConfig.mk (Some (lit "http://hook")) None (Some true).

Definition sample_inbound : InboundPayload :=
  InboundPayload.mk (lit "u1") (lit "whatsapp") (lit "123@x") (lit "123")
    (lit "hello") None 1700000000000%Z None.

(** A process whose only connection stores a phone without country code. *)
Definition short_phone_world : World :=
  World.mk [(lit "u1", 0)] true None true
    [UserConnection.mk (lit "u1") (Some 0) (lit "/auth/raccoon-u1") disconnected
       (Some (lit "5551234567")) None None 0]
    [0] [] (FileSystem.mk ∅ ∅).

(** ** The plugin entry point

    [register] of the entry point: the bridge configuration it stores, the
    manager it sets up, and the callback it registers for inbound messages. *)

(** The configuration [register] passes to [setBridgeConfig]:
    [enabled: pluginConfig.enabled !== false]. *)
Definition bridge_config_of (pluginConfig : RaccoonAIBridgeConfig)
  : RaccoonAIBridgeConfig :=
  RaccoonAIBridgeConfig.mk (RaccoonAIBridgeConfig.webhookUrl pluginConfig)
    (RaccoonAIBridgeConfig.raccoonApiUrl pluginConfig)
    (Some (negb (bool_decide
                   (RaccoonAIBridgeConfig.enabled pluginConfig = Some false)))).

(** [register]: the stored configuration, the manager after the set-up, and
    whether [initialize] was put on a 2-second timer.  The route is
    registered in either case. *)
Definition register (pluginConfig : RaccoonAIBridgeConfig) (w : World)
  : RaccoonAIBridgeConfig * World * bool :=
  let config := bridge_config_of pluginConfig in
  if negb (bool_decide (RaccoonAIBridgeConfig.enabled pluginConfig = Some false))
     && truthy (RaccoonAIBridgeConfig.raccoonApiUrl pluginConfig)
  then
    (config,
     setOnMessage
       (setApiUrl w (default [] (RaccoonAIBridgeConfig.raccoonApiUrl pluginConfig))),
     true)
  else (config, w, false).

(** The payload the callback forwards for an inbound message. *)
Definition payload_of (message : InboundMessage) : InboundPayload :=
  InboundPayload.mk (InboundMessage.userId message)
    (InboundMessage.integrationId message) (InboundMessage.chatId message)
    (InboundMessage.from message) (InboundMessage.text message) None
    (InboundMessage.timestamp message)
    (Some (InboundPayload.mkMeta None
             (InboundMessage.metadata message ≫= Metadata.conversationId)
             (InboundMessage.metadata message ≫= Metadata.chatType)
             (InboundMessage.metadata message ≫= Metadata.senderName))).

Definition ack_text (sessionUrl : jsstring) : jsstring :=
  lit "Working on it! See live progress: " ++ sessionUrl.

(** The callback [register] passes to [setOnMessage]: forward the message,
    and on success with a session URL send the acknowledgement.  [hook] is
    what the webhook does and [net] what the socket does, if called. *)
Definition on_message (config : RaccoonAIBridgeConfig) (w : World)
    (message : InboundMessage) (hook : FetchOutcome WebhookReply.t)
    (net : outcome (option jsstring)) : outcome unit * list Effect :=
  let (forwarded, posted) := forwardToRaccoonAI config (payload_of message) hook in
  match forwarded with
  | Throw e => (Throw e, posted)
  | Ret result =>
      if ForwardResult.success result
         && truthy (ForwardResult.sessionUrl result)
      then
        let (sent, effs) :=
          sendMessage w (InboundMessage.userId message)
            (InboundMessage.chatId message)
            (ack_text (default [] (ForwardResult.sessionUrl result))) None net in
        (match sent with Ret _ => Ret () | Throw e => Throw e end,
         posted ++ effs)
      else (Ret (), posted)
  end.

(** ** Runs with their trace *)

Section Traces.
Context `{Runtime}.

(** The calls into the host that a run makes, in order. *)
Fixpoint trace (w : World) (actions : list Action) : list Effect :=
  match actions with
  | [] => []
  | a :: rest => (step w a).2 ++ trace (step w a).1 rest
  end.

(** A socket reports an open connection. *)
Definition is_open_event (a : Action) : bool :=
  match a with
  | DoConnectionUpdate _ update _ _ =>
      match connection update with Some conn_open => true | _ => false end
  | _ => false
  end.
End Traces.

Section StartUpLoop.
Context `{Runtime}.

(** The loop of [initialize] over the integrations it has kept, the first
    of which is number [start], from the state and the trace [acc]. *)
Definition connect_each (env : InitEnv) (start : nat)
    (acc : World * list Effect) (integrations : list (Integration.t number))
  : World * list Effect :=
  foldl (λ (acc : World * list Effect) (ii : nat * Integration.t number),
           let '(w', effs', _) :=
             connectUser acc.1 (Integration.userId ii.2)
               (default [] (Integration.credentials ii.2))
               (Integration.metadata ii.2) (socket_lib env ii.1) in
           (w', acc.2 ++ effs'))
    acc (zip (seq start (length integrations)) integrations).
End StartUpLoop.

(** The reconnect timers in a trace that are for the connection [r]. *)
Definition timers_set (r : Ref) (effs : list Effect) : nat :=
  length (List.filter
            (λ e, match e with
                  | SetTimeout target _ => bool_decide (target = r)
                  | _ => false
                  end) effs).

(** The reconnect counter of the connection at [r] (0 where there is none). *)
Definition attempts_at (w : World) (r : Ref) : Z :=
  from_option UserConnection.reconnectAttempts 0%Z (World.store w !! r).

(** The effect is an invocation of the registered callback. *)
Definition is_callback (e : Effect) : bool :=
  match e with OnMessage _ => true | _ => false end.

(** ** Consistency of a state

    What ties the map, the store, the sockets and the timers together in the
    states the process reaches. *)
Record consistent (w : World) : Prop := {
  (** a key of the map names an object of the store with that user id *)
  map_allocated :
    ∀ userId r, (userId, r) ∈ World.connections w →
      ∃ c, World.store w !! r = Some c ∧ UserConnection.userId c = userId;
  (** the map has one entry per key *)
  map_keys_unique : NoDup (World.connections w).*1;
  (** the handlers of a socket hold an object that has a socket *)
  socket_owner :
    ∀ sock r, World.sockets w !! sock = Some r →
      ∃ c, World.store w !! r = Some c ∧ is_Some (UserConnection.socket c);
  (** the socket an object holds was made for that object *)
  socket_bound :
    ∀ r c sock, World.store w !! r = Some c →
      UserConnection.socket c = Some sock → World.sockets w !! sock = Some r;
  (** a connected object has a socket *)
  connected_has_socket :
    ∀ r c, World.store w !! r = Some c →
      UserConnection.status c = connected → is_Some (UserConnection.socket c);
  (** a pending timer holds an object of the store *)
  timer_allocated :
    ∀ i r, World.timers w !! i = Some r → r < length (World.store w);
}.

(** ** Further sample data *)

(** A process whose only connection stores a phone as the API formats it. *)
Definition formatted_phone_world : World :=
  World.mk [(lit "u1", 0)] true None true
    [UserConnection.mk (lit "u1") (Some 0) (lit "/auth/raccoon-u1") connected
       (Some (lit "+1-555-123-4567")) None None 0]
    [0] [] (FileSystem.mk ∅ ∅).

(** A plugin configuration without the [enabled] member. *)
Definition sample_plugin_config : RaccoonAIBridgeConfig :=
  RaccoonAIBridgeConfig.mk (Some (lit "http://hook")) (Some (lit "http://api"))
    None.

Definition sample_message : InboundMessage :=
  InboundMessage.mk (lit "u1") (lit "whatsapp") (lit "123@x") (lit "123")
    (lit "hello") 1700000000000%Z None.

(** A webhook answer with a session. *)
Definition session_reply : WebhookReply.t :=
  WebhookReply.mk None (Some (lit "s1")) (Some (lit "http://app/s1")) None.

Section Scenarios.
#[local] Existing Instance ReferenceRuntime.runtime.

(** A user connects and the socket closes as logged out. *)
Definition logged_out_run : list Action :=
  [DoConnectUser (lit "u1") [] None (Ret ());
   DoConnectionUpdate 0 (close_with 401) None 0%Z].

(** A user connects and the handshake completes. *)
Definition connected_run : list Action :=
  [DoConnectUser (lit "u1") [] None (Ret ());
   DoConnectionUpdate 0 (mkUpdate (Some conn_open) None)
     (Some (lit "15551234567:2@s.whatsapp.net")) 1700000000000%Z].

(** A disk on which the primary record of user [u1] is there, without the
    marker. *)
Definition unmarked_disk : FileSystem :=
  FileSystem.mk
    {[ lit "/home/bot/.clawdbot/credentials/whatsapp/raccoon-u1/creds.json"
       := ReferenceRuntime.stringify 2
            (JObject [(lit "me", JObject [(lit "name", JString (lit "Ann"))])])
    ]}
    {[ lit "/home/bot/.clawdbot/credentials/whatsapp/raccoon-u1" ]}.

(** Credentials with a key that names a file in a directory that is not
    there. *)
Definition nested_credentials : list (jsstring * json Z) :=
  [(lit "keys/1", JObject [(lit "keyData", JString (lit "AAAA"))])].

(** The API lists two WhatsApp integrations and one for another channel;
    the credentials of the first cannot be written, and the library fails
    for the socket of the second. *)
Definition listed_integrations : list (Integration.t Z) :=
  [@Integration.mk Z (lit "u1") (lit "whatsapp") (Some nested_credentials) None;
   @Integration.mk Z (lit "u2") (lit "whatsapp") (Some [])
     (Some (Integration.mkMeta (Some (lit "+1-555-123-4567")) None));
   @Integration.mk Z (lit "u3") (lit "telegram") (Some []) None].

Definition listed : InitEnv :=
  mkInitEnv (Response 200 (Ret []) (Ret (Some listed_integrations)))
    (λ n, if decide (n = 1) then Throw JsOther else Ret ()).
End Scenarios.

(** * Properties *)

(** ** Strings and the connection map *)

Lemma endsWith_true (s t : jsstring) : endsWith s t = true ↔ t `suffix_of` s.
Proof. unfold endsWith. apply bool_decide_eq_true. Qed.

Lemma endsWith_nil (s : jsstring) : endsWith s [] = true.
Proof. apply endsWith_true, suffix_nil. Qed.

Lemma truthy_Some (o : option jsstring) :
  truthy o = true ↔ ∃ s, o = Some s ∧ s ≠ [].
Proof.
  destruct o as [[|c s]|]; simpl; split.
  - discriminate.
  - intros (s & [= <-] & Hs). by destruct Hs.
  - intros _. by exists (c :: s).
  - done.
  - discriminate.
  - intros (s & Hs & _). discriminate.
Qed.

Lemma trimStart_whitespace (s : jsstring) :
  Forall (λ c, is_whitespace c = true) s → trimStart s = [].
Proof. induction 1 as [|c s Hc _ IH]; simpl; [done|]. by rewrite Hc. Qed.

Lemma trim_whitespace (s : jsstring) :
  Forall (λ c, is_whitespace c = true) s → trim s = [].
Proof. intros Hs. unfold trim. by rewrite (trimStart_whitespace s Hs). Qed.

Lemma strip_non_digits_no_digit (s : jsstring) :
  Forall (λ c, is_digit c = false) s → strip_non_digits s = [].
Proof.
  unfold strip_non_digits.
  induction 1 as [|c s Hc _ IH]; simpl; [done|]. by rewrite Hc.
Qed.

Lemma map_get_None {V} (k : jsstring) (m : list (jsstring * V)) :
  map_get k m = None ↔ k ∉ m.*1.
Proof.
  unfold map_get. induction m as [|[k' v] m IH]; simpl.
  - split; [intros _; apply not_elem_of_nil | done].
  - rewrite not_elem_of_cons. case_bool_decide; simpl in *; subst.
    + split; [done | intros [? _]; done].
    + rewrite IH. split; [intros ?; split; [congruence | done] | by intros [_ ?]].
Qed.

Lemma map_get_delete_eq {V} (k : jsstring) (m : list (jsstring * V)) :
  map_get k (map_delete k m) = None.
Proof.
  unfold map_get, map_delete. induction m as [|[k' v] m IH]; simpl; [done|].
  case_bool_decide; simpl in *; [done|]. by rewrite bool_decide_eq_false_2.
Qed.

Lemma conn_get_None (w : World) (userId : jsstring) :
  userId ∉ (World.connections w).*1 → conn_get w userId = None.
Proof. intros Hk. unfold conn_get. by rewrite (proj2 (map_get_None _ _) Hk). Qed.

(** ** Sending *)

Lemma sendMessage_returns (w : World) (userId chatId text : jsstring)
    (mediaUrl : option jsstring) (net : outcome (option jsstring)) :
  ∃ result, (sendMessage w userId chatId text mediaUrl net).1 = Ret result.
Proof.
  unfold sendMessage. destruct (conn_get w userId) as [[r c]|]; [|by eexists].
  destruct (UserConnection.socket c); [|by eexists].
  destruct (negb _); [by eexists|]. destruct net; by eexists.
Qed.

(** C5.  [sendMessage] for a user that is not a key of the connection map
    returns (it does not throw) the result [{success: false, error: "User not
    connected"}], whatever the chat, the text and the media URL are, and
    makes no call on any socket. *)
Theorem sendMessage_unknown_user (w : World) (userId chatId text : jsstring)
    (mediaUrl : option jsstring) (net : outcome (option jsstring)) :
  userId ∉ (World.connections w).*1 →
  sendMessage w userId chatId text mediaUrl net
  = (Ret (SendResult.mk false None (Some (lit "User not connected"))), []).
Proof.
  intros Hk. unfold sendMessage. by rewrite (conn_get_None w userId Hk).
Qed.

(** ** The forwarder *)

Lemma forwardToRaccoonAI_returns (config : RaccoonAIBridgeConfig)
    (payload : InboundPayload) (net : FetchOutcome WebhookReply.t) :
  ∃ result, (forwardToRaccoonAI config payload net).1 = Ret result.
Proof.
  unfold forwardToRaccoonAI.
  destruct (negb (default false _)); [by eexists|].
  destruct (negb (truthy _)); [by eexists|]. simpl.
  destruct net as [e|status text body]; simpl; [by eexists|].
  destruct (negb (response_ok status)); simpl; [by eexists|].
  destruct body; by eexists.
Qed.

(** C6.  When the webhook is called (the bridge is enabled and has a URL)
    and answers with a status outside 200..299, [forwardToRaccoonAI] returns
    [{success: false, error: "HTTP <status>: <body>"}], with ["Unknown
    error"] for a body that cannot be read; a 500 with body ["oops"] gives
    the error ["HTTP 500: oops"]; and no input makes it throw. *)
Theorem forwardToRaccoonAI_non_2xx (config : RaccoonAIBridgeConfig)
    (payload : InboundPayload) (status : Z) (text : outcome jsstring)
    (body : outcome WebhookReply.t) :
  RaccoonAIBridgeConfig.enabled config = Some true →
  truthy (RaccoonAIBridgeConfig.webhookUrl config) = true →
  ¬ (200 ≤ status ≤ 299)%Z →
  (forwardToRaccoonAI config payload (Response status text body)).1
  = Ret (ForwardResult.mk false None None
           (Some (lit "HTTP " ++ String_of_number status ++ lit ": "
                  ++ match text with
                     | Ret errorText => errorText
                     | Throw _ => lit "Unknown error"
                     end)))
  ∧ (status = 500%Z → text = Ret (lit "oops") →
     (forwardToRaccoonAI config payload (Response status text body)).1
     = Ret (ForwardResult.mk false None None (Some (lit "HTTP 500: oops"))))
  ∧ (∀ config' payload' net',
       ∃ result, (forwardToRaccoonAI config' payload' net').1 = Ret result).
Proof.
  intros Hen Hurl Hst.
  assert (Hok : response_ok status = false).
  { unfold response_ok. apply andb_false_iff.
    destruct (Z.leb_spec 200 status), (Z.leb_spec status 299); auto. lia. }
  assert (Hres : (forwardToRaccoonAI config payload (Response status text body)).1
    = Ret (ForwardResult.mk false None None
             (Some (lit "HTTP " ++ String_of_number status ++ lit ": "
                    ++ catch_default text (lit "Unknown error"))))).
  { unfold forwardToRaccoonAI. rewrite Hen, Hurl. simpl. by rewrite Hok. }
  split; [|split].
  - rewrite Hres. by destruct text.
  - intros -> ->. by rewrite Hres.
  - intros. apply forwardToRaccoonAI_returns.
Qed.

(** ** The outbound route *)

Lemma resolve_user_named (w : World) (payload : OutboundPayload)
    (userId : jsstring) :
  OutboundPayload.userId payload = Some userId → userId ≠ [] →
  resolve_user w payload = inr userId.
Proof.
  intros Hu Hne. unfold resolve_user. rewrite Hu. simpl.
  by destruct userId.
Qed.

Lemma resolve_user_only (w : World) (payload : OutboundPayload)
    (userId : jsstring) :
  truthy (OutboundPayload.userId payload) = false →
  getConnectedUserIds w = [userId] →
  resolve_user w payload = inr userId.
Proof. intros Hu Hc. unfold resolve_user. by rewrite Hu, Hc. Qed.

(** C1, as the code has it.  For a POST whose payload has integration
    ["whatsapp"], a non-empty chat and text, and a user that resolves (named
    in the payload, or the only connected one), the handler answers with the
    result of [sendMessage] for that user as the body; the status is 200 when
    the result has [success: true] and 500 when it has [success: false]. *)
Theorem send_route_status_follows_result (w : World)
    (payload : OutboundPayload) (net : outcome (option jsstring))
    (userId chatId text : jsstring) :
  OutboundPayload.integrationId payload = Some (lit "whatsapp") →
  OutboundPayload.chatId payload = Some chatId → chatId ≠ [] →
  OutboundPayload.text payload = Some text → text ≠ [] →
  (OutboundPayload.userId payload = Some userId ∧ userId ≠ []
   ∨ truthy (OutboundPayload.userId payload) = false
     ∧ getConnectedUserIds w = [userId]) →
  ∃ result,
    (sendMessage w userId chatId text (first_media_url payload) net).1
    = Ret result
    ∧ handler w (Request.mk (lit "POST") (Ret payload)) net
      = (HttpResponse.mk (if SendResult.success result then 200%Z else 500%Z)
           result,
         (sendMessage w userId chatId text (first_media_url payload) net).2).
Proof.
  intros Hint Hchat Hchat_ne Htext Htext_ne Huser.
  assert (Hres : resolve_user w payload = inr userId).
  { destruct Huser as [[Hu Hne]|[Hu Hc]];
      [by apply resolve_user_named | by apply resolve_user_only]. }
  destruct (sendMessage_returns w userId chatId text (first_media_url payload) net)
    as [result Hsent].
  exists result. split; [done|].
  unfold handler. simpl. rewrite Hint, Hchat, Htext. simpl.
  destruct chatId as [|c0 chatId]; [done|].
  destruct text as [|t0 text]; [done|]. simpl.
  rewrite Hres. simpl. fold (first_media_url payload).
  destruct (sendMessage w userId (c0 :: chatId) (t0 :: text)
              (first_media_url payload) net) as [res effs].
  simpl in *. by rewrite Hsent.
Qed.

(** C1, as stated, fails: with one connected user whose socket rejects the
    send, the attempt completes with [success: false] and the status is 500,
    not 200. *)
Lemma send_route_failed_send_is_500 :
  ¬ (∀ (w : World) (payload : OutboundPayload)
       (net : outcome (option jsstring)) (userId chatId text : jsstring),
       OutboundPayload.integrationId payload = Some (lit "whatsapp") →
       OutboundPayload.chatId payload = Some chatId → chatId ≠ [] →
       OutboundPayload.text payload = Some text → text ≠ [] →
       (OutboundPayload.userId payload = Some userId ∧ userId ≠ []
        ∨ truthy (OutboundPayload.userId payload) = false
          ∧ getConnectedUserIds w = [userId]) →
       HttpResponse.status
         (handler w (Request.mk (lit "POST") (Ret payload)) net).1 = 200%Z).
Proof.
  intros Hclaim.
  specialize (Hclaim one_user_world hi_payload (Throw (JsError (lit "timeout")))
                (lit "u1") (lit "123@x") (lit "hi")).
  assert (Hstatus :
    (handler one_user_world (Request.mk (lit "POST") (Ret hi_payload))
       (Throw (JsError (lit "timeout")))).1
    = HttpResponse.mk 500
        (SendResult.mk false None (Some (lit "timeout")))) by (by vm_compute).
  rewrite Hstatus in Hclaim. simpl in Hclaim.
  assert (500%Z = 200%Z) as Habs; [|discriminate Habs].
  apply Hclaim; try done. right. split; by vm_compute.
Qed.

(** ** Inbound messages *)

(** C4.  A message whose conversation identifier ends in ["@status"] or
    ["@broadcast"], or that is marked [fromMe], or whose text is empty or
    made of whitespace only, is dropped by [handleIncomingMessage] before any
    call is made: in particular the registered callback is not invoked. *)
Theorem handleIncomingMessage_drops `{Runtime} (w : World)
    (userConn : UserConnection) (msg : WAMessage) (sock : SocketId)
    (env : HandleEnv) :
  (∃ jid, WAMessage.key msg ≫= WAMessage.remoteJid = Some jid
          ∧ (lit "@status" `suffix_of` jid ∨ lit "@broadcast" `suffix_of` jid))
  ∨ WAMessage.key msg ≫= WAMessage.fromMe = Some true
  ∨ (∀ m, WAMessage.message msg = Some m →
          Forall (λ c, is_whitespace c = true) (extract_text m)) →
  handleIncomingMessage w userConn msg sock env = []
  ∧ ∀ m, OnMessage m ∉ handleIncomingMessage w userConn msg sock env.
Proof.
  intros Hdrop.
  assert (Hnil : handleIncomingMessage w userConn msg sock env = []).
  { unfold handleIncomingMessage.
    destruct (negb (truthy _)) eqn:Hjid; [done|].
    destruct Hdrop as [(jid & Hkey & Hsuffix)|[Hme|Hws]].
    - rewrite Hkey. simpl.
      destruct Hsuffix as [Hs|Hs]; apply endsWith_true in Hs; rewrite Hs;
        [done | by rewrite orb_true_r].
    - destruct (_ || _); [done|]. by rewrite Hme.
    - destruct (_ || _); [done|]. destruct (default false _); [done|].
      destruct (WAMessage.message msg) as [m|]; [|done].
      by rewrite (trim_whitespace _ (Hws m eq_refl)). }
  split; [done|]. intros m. rewrite Hnil. apply not_elem_of_nil.
Qed.

(** ** Lookup by phone *)

Lemma find_by_phone_head (normalized userId : jsstring) (conn : UserConnection)
    (rest : list (jsstring * UserConnection)) :
  (phone_matches normalized conn
   ∧ find_by_phone normalized ((userId, conn) :: rest) = Some userId)
  ∨ (¬ phone_matches normalized conn
     ∧ find_by_phone normalized ((userId, conn) :: rest)
       = find_by_phone normalized rest).
Proof.
  simpl. unfold phone_matches.
  destruct (UserConnection.phone conn) as [p|] eqn:Hp; simpl.
  - destruct p as [|c p]; simpl.
    + right. split; [|done]. intros (q & [= <-] & Hq & _). done.
    + destruct (endsWith (c :: p) normalized) eqn:H1.
      { left. split; [|done]. exists (c :: p).
        apply endsWith_true in H1. auto. }
      destruct (endsWith normalized (c :: p)) eqn:H2.
      { left. split; [|done]. exists (c :: p).
        apply endsWith_true in H2. auto. }
      right. split; [|done]. intros (q & [= <-] & _ & [Hs|Hs]);
        apply endsWith_true in Hs; congruence.
  - right. split; [|done]. intros (q & Hq & _). discriminate.
Qed.

Lemma find_by_phone_Some (normalized userId : jsstring)
    (es : list (jsstring * UserConnection)) :
  find_by_phone normalized es = Some userId ↔
  ∃ pre conn post,
    es = pre ++ (userId, conn) :: post ∧ phone_matches normalized conn
    ∧ Forall (λ e, ¬ phone_matches normalized e.2) pre.
Proof.
  induction es as [|[u c] es IH].
  - simpl. split; [discriminate|]. intros (pre & ? & ? & Hes & _).
    by destruct pre.
  - destruct (find_by_phone_head normalized u c es) as [[Hm ->]|[Hm ->]].
    + split.
      * intros [= <-]. exists [], c, es. by repeat split.
      * intros (pre & conn & post & Hes & _ & Hpre).
        destruct pre as [|e pre]; simplify_eq/=; [done|].
        by apply (Forall_cons_1 _ _ _) in Hpre as [? _].
    + rewrite IH. split.
      * intros (pre & conn & post & -> & Hc & Hpre).
        exists ((u, c) :: pre), conn, post. repeat split; [done|].
        by constructor.
      * intros (pre & conn & post & Hes & Hc & Hpre).
        destruct pre as [|e pre]; simplify_eq/=; [done|].
        apply (Forall_cons_1 _ _ _) in Hpre as [_ Hpre].
        by exists pre, conn, post.
Qed.

Lemma find_by_phone_None (normalized : jsstring)
    (es : list (jsstring * UserConnection)) :
  find_by_phone normalized es = None ↔
  Forall (λ e, ¬ phone_matches normalized e.2) es.
Proof.
  induction es as [|[u c] es IH]; [by split|].
  destruct (find_by_phone_head normalized u c es) as [[Hm ->]|[Hm ->]].
  - split; [discriminate|]. by intros [? _]%(Forall_cons_1 _ _ _).
  - rewrite IH. split; [by constructor | by intros [_ ?]%(Forall_cons_1 _ _ _)].
Qed.

(** C8.  [getUserIdByPhone] keeps the digits of its input, in order, and
    returns the key of the first connection whose stored phone is not empty
    and is a suffix of the normalized input or has it as a suffix; it returns
    nothing exactly when no connection matches.  The input ["15551234567"]
    matches a stored ["5551234567"], and a stored phone equal to the digits
    of ["+1-555-123-4567"]. *)
Theorem getUserIdByPhone_suffix_match (w : World) (phone : jsstring) :
  let normalized := strip_non_digits phone in
  Forall (λ c, is_digit c = true) normalized
  ∧ normalized `sublist_of` phone
  ∧ (∀ c, c ∈ phone → is_digit c = true → c ∈ normalized)
  ∧ (∀ userId,
       getUserIdByPhone w phone = Some userId ↔
       ∃ pre conn post,
         entries w = pre ++ (userId, conn) :: post
         ∧ phone_matches normalized conn
         ∧ Forall (λ e, ¬ phone_matches normalized e.2) pre)
  ∧ (getUserIdByPhone w phone = None ↔
     Forall (λ e, ¬ phone_matches normalized e.2) (entries w))
  ∧ (∀ userId conn,
       (userId, conn) ∈ entries w →
       UserConnection.phone conn = Some (lit "5551234567")
       ∨ UserConnection.phone conn
         = Some (strip_non_digits (lit "+1-555-123-4567")) →
       is_Some (getUserIdByPhone w (lit "15551234567"))
       ∧ (∀ post, entries w = (userId, conn) :: post →
                  getUserIdByPhone w (lit "15551234567") = Some userId)).
Proof.
  cbv zeta. unfold getUserIdByPhone, strip_non_digits.
  split; [|split; [|split; [|split; [|split]]]].
  - apply List.Forall_forall. intros c Hc.
    by apply filter_In in Hc as [_ ?].
  - induction phone as [|c phone IH]; simpl; [constructor|].
    destruct (is_digit c); by constructor.
  - intros c Hc Hd. rewrite list_elem_of_In in Hc |- *.
    by apply filter_In.
  - intros userId. apply find_by_phone_Some.
  - apply find_by_phone_None.
  - intros userId conn Hin Hphone.
    assert (Hm : phone_matches (List.filter is_digit (lit "15551234567")) conn).
    { destruct Hphone as [Hp|Hp]; rewrite Hp || idtac.
      - exists (lit "5551234567"). split; [done|]. split; [done|].
        right. by exists [49%N].
      - exists (strip_non_digits (lit "+1-555-123-4567")).
        split; [done|]. split; [done|]. left. by exists []. }
    split.
    + destruct (find_by_phone _ (entries w)) as [u|] eqn:Hf; [by eexists|].
      apply find_by_phone_None in Hf.
      rewrite List.Forall_forall in Hf. rewrite list_elem_of_In in Hin.
      by destruct (Hf _ Hin).
    + intros post Hes. apply find_by_phone_Some.
      exists [], conn, post. by repeat split.
Qed.

(** C9.  For an input without any digit the normalized form is empty, and
    [getUserIdByPhone] returns the key of the first connection of the map
    whose stored phone is a non-empty string, whatever the status (or any
    other field) of that connection is. *)
Theorem getUserIdByPhone_no_digits (w : World) (phone : jsstring) :
  Forall (λ c, is_digit c = false) phone →
  strip_non_digits phone = []
  ∧ getUserIdByPhone w phone
    = fst <$> List.find (λ e : jsstring * UserConnection,
                           truthy (UserConnection.phone e.2)) (entries w)
  ∧ (∀ pre userId conn post status,
       entries w = pre ++ (userId, conn) :: post →
       Forall (λ e, truthy (UserConnection.phone e.2) = false) pre →
       truthy (UserConnection.phone conn) = true →
       UserConnection.status conn = status →
       getUserIdByPhone w phone = Some userId).
Proof.
  intros Hnd. pose proof (strip_non_digits_no_digit phone Hnd) as Hn.
  assert (Hfind : ∀ es,
    find_by_phone [] es
    = fst <$> List.find (λ e : jsstring * UserConnection,
                           truthy (UserConnection.phone e.2)) es).
  { induction es as [|[u c] es IH]; [done|].
    cbn [find_by_phone List.find snd]. rewrite endsWith_nil.
    by destruct (truthy (UserConnection.phone c)). }
  split; [done|]. unfold getUserIdByPhone. rewrite Hn. split; [apply Hfind|].
  intros pre userId conn post status -> Hpre Hconn _. rewrite Hfind.
  induction Hpre as [|e pre He _ IH]; simpl.
  - by rewrite Hconn.
  - by rewrite He.
Qed.

(** ** The credential store *)

Lemma map_get_set_eq {V} (k : jsstring) (v : V) (m : list (jsstring * V)) :
  map_get k (map_set k v m) = Some v.
Proof.
  unfold map_get. induction m as [|[k' v'] m IH]; simpl.
  - by rewrite bool_decide_eq_true_2.
  - case_bool_decide as Hk; simpl in *.
    + by rewrite bool_decide_eq_true_2.
    + by rewrite (bool_decide_eq_false_2 _ Hk).
Qed.

Lemma FileSystem_eq (fs1 fs2 : FileSystem) :
  (∀ p, FileSystem.files fs1 !! p = FileSystem.files fs2 !! p) →
  FileSystem.dirs fs1 = FileSystem.dirs fs2 →
  fs1 = fs2.
Proof.
  destruct fs1 as [f1 d1], fs2 as [f2 d2]. simpl. intros Hf ->.
  f_equal. by apply map_eq.
Qed.

Section CredentialStore.
Context `{Runtime}.
Implicit Types (fs : FileSystem) (p authDir credsPath : jsstring).

Lemma with_dir_elem fs (dir : jsstring) :
  dir ∈ FileSystem.dirs fs → with_dir fs dir = fs.
Proof.
  intros Hin. apply FileSystem_eq; [done|]. simpl.
  apply subseteq_union_1_L. by apply singleton_subseteq_l.
Qed.

Lemma mkdirSync_Ret fs (dir : jsstring) fs' :
  mkdirSync fs dir = Ret fs' → fs' = with_dir fs dir.
Proof. unfold mkdirSync. destruct (mkdirSync_error fs dir); congruence. Qed.

Lemma writeFileSync_Ret fs (file content : jsstring) fs' :
  writeFileSync fs file content = Ret fs' → fs' = with_file fs file content.
Proof.
  unfold writeFileSync. destruct (writeFileSync_error fs file content);
    congruence.
Qed.

Lemma readFileSync_Ret fs (file content : jsstring) :
  readFileSync fs file = Ret content → readFile fs file = Some content.
Proof.
  unfold readFileSync, readFile. destruct (readFileSync_error fs file); [done|].
  destruct (FileSystem.files fs !! file); [congruence|]. by case_bool_decide.
Qed.

(** A write that returns leaves the directories, and the file at [p] holds
    what the entry has for it, or what it held. *)
Lemma write_entry_Ret authDir fs entry fs' :
  write_entry authDir fs entry = Ret fs' →
  FileSystem.dirs fs' = FileSystem.dirs fs
  ∧ ∀ p, FileSystem.files fs' !! p
         = from_option Some (FileSystem.files fs !! p)
             (entry_content authDir entry p).
Proof.
  unfold write_entry, entry_content.
  destruct entry.2 eqn:Hv; [by intros [= <-]|..];
    intros ->%writeFileSync_Ret; (split; [done|]); intros p;
    cbn [with_file FileSystem.files]; case_bool_decide as Hp;
    cbn [from_option];
    solve [subst p; apply lookup_insert_eq | by apply lookup_insert_ne].
Qed.

(** A write that throws leaves the tree as it is, so the tree the loop
    leaves differs from the one it started with by writes that returned. *)
Lemma write_entries_dirs authDir credentials fs :
  FileSystem.dirs (write_entries authDir fs credentials).1 = FileSystem.dirs fs.
Proof.
  revert fs. induction credentials as [|e cs IH]; intros fs;
    cbn [write_entries]; [done|].
  destruct (write_entry authDir fs e) as [fs1|err] eqn:He; [|done].
  rewrite IH. by apply (write_entry_Ret _ _ _ _ He).
Qed.

Lemma write_entries_Ret authDir credentials fs fs' u :
  write_entries authDir fs credentials = (fs', Ret u) →
  FileSystem.dirs fs' = FileSystem.dirs fs
  ∧ ∀ p, FileSystem.files fs' !! p
         = after_entries authDir credentials p (FileSystem.files fs !! p).
Proof.
  revert fs. induction credentials as [|e cs IH]; intros fs;
    cbn [write_entries after_entries foldl].
  - by intros [= <- _].
  - destruct (write_entry authDir fs e) as [fs1|err] eqn:He; [|done].
    intros Hrest. destruct (write_entry_Ret _ _ _ _ He) as [Hd Hf].
    destruct (IH _ Hrest) as [Hd' Hf']. split; [congruence|].
    intros p. by rewrite Hf', Hf.
Qed.

(** The loop either leaves the file at [p] alone or gives it a content that
    does not depend on the tree it started from. *)
Lemma after_entries_cases authDir credentials p :
  (∀ before, after_entries authDir credentials p before = before)
  ∨ (∃ content, ∀ before,
       after_entries authDir credentials p before = Some content).
Proof.
  induction credentials as [|e cs IH]; cbn [after_entries foldl]; [by left|].
  destruct IH as [Hkeep|[content Hfixed]].
  - destruct (entry_content authDir e p) as [content|] eqn:He.
    + right. exists content. intros before. apply Hkeep.
    + left. intros before. apply Hkeep.
  - right. exists content. intros before. apply Hfixed.
Qed.

(** What the block that ensures [registered] does to the tree: nothing, or
    one write of [creds.json], with the print of an array that was parsed
    or of an object that was parsed and whose [registered] was set. *)
Lemma ensure_registered_cases fs credsPath :
  ensure_registered fs credsPath = fs
  ∨ ∃ content v,
      ensure_registered fs credsPath
      = with_file fs credsPath (JSON_stringify 2 v)
      ∧ ((∃ items, JSON_parse content = Some (JArray items)
                   ∧ v = JArray items)
         ∨ (∃ props, JSON_parse content = Some (JObject props)
                     ∧ v = JObject (map_set (lit "registered") (JBool true)
                                      props))).
Proof.
  unfold ensure_registered. destruct (existsSync fs credsPath); [|by left].
  cbn [negb]. cbv zeta.
  destruct (readFileSync fs credsPath) as [content|]; [|by left].
  destruct (JSON_parse content) as [[| | | |items|props]|] eqn:Hparse;
    try by left.
  - destruct (writeFileSync fs credsPath (JSON_stringify 2 (JArray items)))
      as [fs'|] eqn:Hw; [|by left].
    apply writeFileSync_Ret in Hw. subst fs'. right.
    exists content, (JArray items). split; [done|]. left. by exists items.
  - destruct (from_option json_truthy false _); [by left|].
    destruct (writeFileSync fs credsPath _) as [fs'|] eqn:Hw; [|by left].
    apply writeFileSync_Ret in Hw. subst fs'. right. exists content. eexists.
    split; [done|]. right. by exists props.
Qed.

Lemma ensure_registered_dirs fs credsPath :
  FileSystem.dirs (ensure_registered fs credsPath) = FileSystem.dirs fs.
Proof.
  by destruct (ensure_registered_cases fs credsPath)
    as [->|(content & v & -> & _)].
Qed.

Lemma ensure_registered_other fs credsPath p :
  p ≠ credsPath →
  FileSystem.files (ensure_registered fs credsPath) !! p
  = FileSystem.files fs !! p.
Proof.
  intros Hp.
  destruct (ensure_registered_cases fs credsPath)
    as [->|(content & v & -> & _)]; [done|].
  simpl. by rewrite lookup_insert_ne.
Qed.

Lemma writeCredentials_Ret fs (userId : jsstring)
    (credentials : list (jsstring * json number)) (dir : jsstring) :
  (writeCredentials fs userId credentials).2 = Ret dir →
  dir = getAuthDir userId.
Proof.
  unfold writeCredentials. destruct (mkdirSync _ _); [|done].
  destruct (write_entries _ _ _) as [? [|]]; [|done]. by intros [= <-].
Qed.

(** The laws of the host's JSON printer and parser that the rest of this
    section uses.  They are about a value that the parser has given, as the
    block that ensures [registered] prints no other, and they hold of
    [JSON.stringify] and [JSON.parse] (which do not give every value back:
    a negative zero parses back as zero, a number that is not finite as
    [null]).  The print of a parsed array parses to an array with the same
    print.  The print of a parsed object in which [registered] was set to
    [true] parses to an object in which [registered] is [true]. *)
Hypothesis JSON_reparse_array :
  ∀ content items v',
    JSON_parse content = Some (JArray items) →
    JSON_parse (JSON_stringify 2 (JArray items)) = Some v' →
    (∃ items', v' = JArray items')
    ∧ JSON_stringify 2 v' = JSON_stringify 2 (JArray items).
Hypothesis JSON_reparse_object :
  ∀ content props v',
    JSON_parse content = Some (JObject props) →
    JSON_parse
      (JSON_stringify 2
         (JObject (map_set (lit "registered") (JBool true) props)))
    = Some v' →
    ∃ props', v' = JObject props'
              ∧ map_get (lit "registered") props' = Some (JBool true).

Lemma ensure_registered_idempotent fs credsPath :
  ensure_registered (ensure_registered fs credsPath) credsPath
  = ensure_registered fs credsPath.
Proof.
  destruct (ensure_registered_cases fs credsPath)
    as [Hsame|(content0 & v & Hw & Hv)]; [by rewrite !Hsame|].
  rewrite Hw. set (c' := JSON_stringify 2 v) in *.
  unfold ensure_registered.
  destruct (existsSync (with_file fs credsPath c') credsPath); [|done].
  cbn [negb]. cbv zeta.
  destruct (readFileSync (with_file fs credsPath c') credsPath)
    as [content|] eqn:Hread; [|done].
  apply readFileSync_Ret in Hread. unfold readFile in Hread. simpl in Hread.
  rewrite lookup_insert_eq in Hread. injection Hread as <-.
  destruct (JSON_parse c') as [v'|] eqn:Hparse; [|done].
  destruct Hv as [(items & Hparsed & ->)|(props & Hparsed & ->)].
  - destruct (JSON_reparse_array _ _ _ Hparsed Hparse) as [[items' ->] Hprint].
    rewrite Hprint. fold c'.
    destruct (writeFileSync (with_file fs credsPath c') credsPath c')
      as [fs'|] eqn:Hw2; [|done].
    apply writeFileSync_Ret in Hw2. subst fs'. unfold with_file. simpl.
    by rewrite insert_insert_eq.
  - destruct (JSON_reparse_object _ _ _ Hparsed Hparse)
      as (props' & -> & Hreg).
    by rewrite Hreg.
Qed.

(** C7.  On a host whose JSON printer and parser obey the two laws above,
    writing the same credentials for the same user twice, neither write
    being stopped by an exception of the file system, leaves the tree (every
    file and every directory) exactly as writing them once does, and gives
    the same directory: the second pass rewrites the same contents, and the
    [registered] patch changes nothing that it has not changed the first
    time.  (A write that is stopped leaves the files it has written; what
    the two writes leave is then for the host's exceptions to decide.) *)
Theorem writeCredentials_idempotent fs (userId : jsstring)
    (credentials : list (jsstring * json number)) :
  let once := writeCredentials fs userId credentials in
  let twice := writeCredentials once.1 userId credentials in
  returned once.2 = true → returned twice.2 = true → twice = once.
Proof.
  cbv zeta. unfold writeCredentials.
  set (authDir := getAuthDir userId).
  set (credsPath := path_join [authDir; lit "creds.json"]).
  destruct (mkdirSync fs authDir) as [D|] eqn:Hmk; [|done].
  destruct (write_entries authDir D credentials) as [L [u|]] eqn:Hloop; [|done].
  cbn [fst snd]. intros _.
  apply mkdirSync_Ret in Hmk.
  destruct (write_entries_Ret _ _ _ _ _ Hloop) as [HdL HfL].
  assert (HdE : authDir ∈ FileSystem.dirs (ensure_registered L credsPath)).
  { rewrite ensure_registered_dirs, HdL, Hmk. simpl.
    apply elem_of_union_l, elem_of_singleton. done. }
  destruct (mkdirSync (ensure_registered L credsPath) authDir) as [D2|] eqn:Hmk2;
    [|done].
  apply mkdirSync_Ret in Hmk2. rewrite (with_dir_elem _ _ HdE) in Hmk2.
  subst D2.
  destruct (write_entries authDir (ensure_registered L credsPath) credentials)
    as [L2 [u2|]] eqn:Hloop2; [|done].
  cbn [fst snd]. intros _.
  destruct (write_entries_Ret _ _ _ _ _ Hloop2) as [HdL2 HfL2].
  f_equal.
  destruct (after_entries_cases authDir credentials credsPath)
    as [Hkeep|[content Hfixed]].
  - (* the loop does not write [creds.json] *)
    assert (L2 = ensure_registered L credsPath) as ->.
    { apply FileSystem_eq; [|done]. intros p. rewrite HfL2.
      destruct (after_entries_cases authDir credentials p) as [Hk|[c Hc]];
        [by rewrite Hk|].
      rewrite Hc. destruct (decide (p = credsPath)) as [->|Hp].
      { specialize (Hc None). by rewrite Hkeep in Hc. }
      rewrite ensure_registered_other by done. by rewrite HfL, Hc. }
    apply ensure_registered_idempotent.
  - (* the loop writes [creds.json] *)
    assert (L2 = L) as ->; [|done].
    apply FileSystem_eq.
    + intros p. rewrite HfL2, HfL.
      destruct (after_entries_cases authDir credentials p) as [Hk|[c Hc]];
        [|by rewrite !Hc].
      rewrite !Hk. destruct (decide (p = credsPath)) as [->|Hp].
      { specialize (Hfixed None). by rewrite Hk in Hfixed. }
      rewrite ensure_registered_other by done. by rewrite HfL, Hk.
    + by rewrite HdL2, ensure_registered_dirs.
Qed.
End CredentialStore.

(** ** The session life cycle *)

Lemma foldl_preserves {A B} (P : A → Prop) (f : A → B → A) (l : list B) (a : A) :
  (∀ a b, P a → P (f a b)) → P a → P (foldl f a l).
Proof. intros Hf. revert a. induction l; simpl; auto. Qed.

Section Lifecycle.
Context `{Runtime}.
Implicit Types (w : World) (c : UserConnection).

Lemma on_open_bounded c sockUser now :
  attempts_bounded (on_open c sockUser now).
Proof. unfold attempts_bounded. simpl. lia. Qed.

Lemma on_close_bounded c code :
  attempts_bounded c → attempts_bounded (on_close c code).1.
Proof.
  unfold attempts_bounded, on_close. intros Hc.
  destruct (shouldReconnect code); simpl.
  - destruct (Z.ltb_spec (UserConnection.reconnectAttempts c) 3); simpl.
    + destruct (negb _); simpl; [lia|]. by destruct (bool_decide _).
    + by destruct (bool_decide _).
  - by destruct (bool_decide _).
Qed.

(** At the cap, a close event sets no timer, whatever its code is. *)
Lemma on_close_at_cap c code :
  UserConnection.reconnectAttempts c = 3%Z →
  (on_close c code).2 = false
  ∧ UserConnection.reconnectAttempts (on_close c code).1 = 3%Z
  ∧ UserConnection.status (on_close c code).1
    = (if bool_decide (code = Some loggedOut) then error else disconnected).
Proof.
  intros Hc. unfold on_close. rewrite Hc. simpl. rewrite andb_false_r. simpl.
  by destruct (bool_decide _).
Qed.

Lemma createSocket_store w r lib :
  World.store (createSocket w r lib).1.1 = World.store w
  ∨ ∃ f, (∀ c, UserConnection.reconnectAttempts (f c)
               = UserConnection.reconnectAttempts c)
         ∧ World.store (createSocket w r lib).1.1 = alter f r (World.store w).
Proof.
  unfold createSocket. destruct lib; [|by left]. right.
  eexists. split; [|reflexivity]. done.
Qed.

Lemma createSocket_bounded w r lib :
  Forall attempts_bounded (World.store w) →
  Forall attempts_bounded (World.store (createSocket w r lib).1.1).
Proof.
  intros Hw. destruct (createSocket_store w r lib) as [->|(f & Hf & ->)]; [done|].
  apply Forall_alter; [done|]. unfold attempts_bounded. intros c _.
  by rewrite Hf.
Qed.

Lemma connectUser_bounded w userId credentials metadata lib :
  Forall attempts_bounded (World.store w) →
  Forall attempts_bounded
    (World.store (connectUser w userId credentials metadata lib).1.1).
Proof.
  intros Hw. unfold connectUser.
  match goal with
  | |- context [if ?b then _ else ?rest] =>
      assert (Hrest : Forall attempts_bounded (World.store rest.1.1));
      [|by destruct b]
  end.
  destruct (writeCredentials _ _ _) as [fs [authDir|]]; [|done].
  destruct (extractPhone _ _); [|done].
  apply createSocket_bounded. simpl. apply Forall_app. split; [done|].
  constructor; [|done]. unfold attempts_bounded. simpl. lia.
Qed.

Lemma connection_update_bounded w sock update sockUser now :
  Forall attempts_bounded (World.store w) →
  Forall attempts_bounded
    (World.store (connection_update w sock update sockUser now).1).
Proof.
  intros Hw. unfold connection_update.
  destruct (World.sockets w !! sock) as [r|]; [|done].
  destruct (connection update) as [[]|]; try done.
  - simpl. apply Forall_alter; [done|]. intros c _ _. apply on_open_bounded.
  - destruct (World.store w !! r) as [c|] eqn:Hc; [|done].
    pose proof (on_close_bounded c (statusCode update)) as Hb.
    destruct (on_close c (statusCode update)) as [c' timer]. simpl in Hb.
    assert (attempts_bounded c').
    { apply Hb. rewrite Forall_lookup in Hw. by apply (Hw r). }
    destruct timer; simpl; by apply Forall_insert.
Qed.

Lemma timer_fires_bounded w i lib :
  Forall attempts_bounded (World.store w) →
  Forall attempts_bounded (World.store (timer_fires w i lib).1.1).
Proof.
  intros Hw. unfold timer_fires. destruct (World.timers w !! i); [|done].
  by apply createSocket_bounded.
Qed.

Lemma shutdown_store w : World.store (shutdown w).1 = World.store w.
Proof.
  unfold shutdown.
  assert (Hfold : ∀ l (acc : World * list Effect),
    World.store
      (foldl (λ (acc : World * list Effect) (e : jsstring * Ref),
                let (w', effs') := disconnectUser acc.1 e.1 in
                (w', acc.2 ++ effs')) acc l).1
    = World.store acc.1).
  { induction l as [|e l IH]; intros acc; simpl; [done|]. by rewrite IH. }
  specialize (Hfold (World.connections w) (w, [])).
  by destruct (foldl _ _ _).
Qed.

Lemma initialize_bounded w env :
  Forall attempts_bounded (World.store w) →
  Forall attempts_bounded (World.store (initialize w env).1).
Proof.
  intros Hw. unfold initialize. destruct (World.isInitialized w); [done|].
  destruct (fetchIntegrations _ _) as [integrations fetched].
  match goal with
  | |- context [foldl ?f ?a ?l] =>
      assert (Hfold : Forall attempts_bounded (World.store (foldl f a l).1))
  end.
  { apply (foldl_preserves
             (λ acc : World * list Effect,
                Forall attempts_bounded (World.store acc.1))); [|done].
    intros [w' effs] [i integration] Hw'. simpl in *.
    pose proof (connectUser_bounded w' (Integration.userId integration)
                  (default [] (Integration.credentials integration))
                  (Integration.metadata integration) (socket_lib env i) Hw')
      as Hc.
    by destruct (connectUser _ _ _ _ _) as [[??]?]. }
  by destruct (foldl _ _ _).
Qed.

Lemma step_bounded w a :
  Forall attempts_bounded (World.store w) →
  Forall attempts_bounded (World.store (step w a).1).
Proof.
  intros Hw. destruct a; simpl; try done.
  - by apply initialize_bounded.
  - by apply connectUser_bounded.
  - by apply connection_update_bounded.
  - by apply timer_fires_bounded.
  - by rewrite shutdown_store.
Qed.

Lemma run_bounded w actions :
  Forall attempts_bounded (World.store w) →
  Forall attempts_bounded (World.store (run w actions)).
Proof.
  intros Hw. unfold run.
  apply (foldl_preserves (λ w, Forall attempts_bounded (World.store w)));
    [|done].
  intros w' a. apply step_bounded.
Qed.

(** C3.  In every state the process reaches, by any sequence of API calls,
    socket events and timers, the reconnect counter of every connection is
    between 0 and 3.  When it is 3 and a socket of the connection closes
    with a qualifying code (restart required, 515 or connection replaced),
    no timer is set, the counter stays 3 and the status becomes
    [disconnected], or [error] when the code is the logged-out one. *)
Theorem reconnectAttempts_bounded (fs : FileSystem) (actions : list Action)
    (sock : SocketId) (r : Ref) (c : UserConnection) (code : option Z)
    (sockUser : option jsstring) (now : Z) :
  let w := run (initial fs) actions in
  Forall (λ c, (0 ≤ UserConnection.reconnectAttempts c ≤ 3)%Z) (World.store w)
  ∧ (World.sockets w !! sock = Some r →
     World.store w !! r = Some c →
     UserConnection.reconnectAttempts c = 3%Z →
     code = Some restartRequired ∨ code = Some 515%Z
     ∨ code = Some connectionReplaced →
     ∃ c',
       connection_update w sock (mkUpdate (Some conn_close) code) sockUser now
       = (set_store w (<[r := c']> (World.store w)), [])
       ∧ World.timers (set_store w (<[r := c']> (World.store w)))
         = World.timers w
       ∧ UserConnection.reconnectAttempts c' = 3%Z
       ∧ UserConnection.status c'
         = (if bool_decide (code = Some loggedOut) then error
            else disconnected)).
Proof.
  intros w. split.
  - apply (run_bounded (initial fs) actions). constructor.
  - intros Hsock Hstore Hcap _.
    destruct (on_close_at_cap c code Hcap) as (Htimer & Hattempts & Hstatus).
    exists (on_close c code).1. unfold connection_update.
    rewrite Hsock. simpl. rewrite Hstore.
    destruct (on_close c code) as [c' timer]. simpl in *. by subst timer.
Qed.
End Lifecycle.

(** ** Start-up and shutdown *)

Section Initialization.
Context `{Runtime}.
Implicit Types (w : World).

Lemma createSocket_isInitialized w r lib :
  World.isInitialized (createSocket w r lib).1.1 = World.isInitialized w.
Proof. unfold createSocket. by destruct lib. Qed.

Lemma connectUser_isInitialized w userId credentials metadata lib :
  World.isInitialized (connectUser w userId credentials metadata lib).1.1
  = World.isInitialized w.
Proof.
  unfold connectUser.
  match goal with
  | |- context [if ?b then _ else ?rest] =>
      assert (Hrest : World.isInitialized rest.1.1 = World.isInitialized w);
      [|by destruct b]
  end.
  destruct (writeCredentials _ _ _) as [fs [authDir|]]; [|done].
  destruct (extractPhone _ _); [|done].
  by rewrite createSocket_isInitialized.
Qed.

Lemma connection_update_isInitialized w sock update sockUser now :
  World.isInitialized (connection_update w sock update sockUser now).1
  = World.isInitialized w.
Proof.
  unfold connection_update. destruct (World.sockets w !! sock); [|done].
  destruct (connection update) as [[]|]; try done.
  destruct (World.store w !! _); [|done].
  destruct (on_close _ _) as [c' []]; done.
Qed.

Lemma timer_fires_isInitialized w i lib :
  World.isInitialized (timer_fires w i lib).1.1 = World.isInitialized w.
Proof.
  unfold timer_fires. destruct (World.timers w !! i); [|done].
  by rewrite createSocket_isInitialized.
Qed.

Lemma initialize_again w env :
  World.isInitialized w = true → initialize w env = (w, []).
Proof. intros Hw. unfold initialize. by rewrite Hw. Qed.

Lemma initialize_isInitialized w env :
  World.isInitialized (initialize w env).1 = true.
Proof.
  unfold initialize. destruct (World.isInitialized w) eqn:Hw; [done|].
  destruct (fetchIntegrations _ _). by destruct (foldl _ _ _).
Qed.

Lemma shutdown_frame w :
  World.isInitialized (shutdown w).1 = false
  ∧ World.apiUrl (shutdown w).1 = World.apiUrl w.
Proof.
  unfold shutdown.
  assert (Hfold : ∀ l (acc : World * list Effect),
    World.apiUrl
      (foldl (λ (acc : World * list Effect) (e : jsstring * Ref),
                let (w', effs') := disconnectUser acc.1 e.1 in
                (w', acc.2 ++ effs')) acc l).1
    = World.apiUrl acc.1).
  { induction l as [|e l IH]; intros acc; simpl; [done|]. by rewrite IH. }
  specialize (Hfold (World.connections w) (w, [])).
  by destruct (foldl _ _ _).
Qed.

Lemma step_keeps_initialized w a :
  a ≠ DoShutdown → World.isInitialized w = true →
  World.isInitialized (step w a).1 = true.
Proof.
  intros Ha Hw. destruct a; simpl; try done.
  - apply initialize_isInitialized.
  - by rewrite connectUser_isInitialized.
  - by rewrite connection_update_isInitialized.
  - by rewrite timer_fires_isInitialized.
Qed.

Lemma run_keeps_initialized w actions :
  Forall (λ a, a ≠ DoShutdown) actions → World.isInitialized w = true →
  World.isInitialized (run w actions) = true.
Proof.
  unfold run. intros Ha. revert w.
  induction Ha as [|a actions Ha _ IH]; intros w Hw; simpl; [done|].
  apply IH. by apply step_keeps_initialized.
Qed.

Lemma fetchIntegrations_failed w net :
  fetch_failed net →
  fetchIntegrations w net
  = ([], if truthy (World.apiUrl w)
         then [FetchIntegrations (default [] (World.apiUrl w)
                                  ++ lit "/i/moltbot/integrations")]
         else []).
Proof.
  intros Hnet. unfold fetchIntegrations.
  destruct (truthy (World.apiUrl w)); [|done]. simpl.
  destruct net as [e|status text body]; [done|]. simpl in Hnet.
  unfold response_ok.
  destruct (Z.leb_spec 200 status), (Z.leb_spec status 299); simpl; try done.
  lia.
Qed.

Lemma initialize_fetches w env :
  World.isInitialized w = false → truthy (World.apiUrl w) = true →
  [FetchIntegrations (default [] (World.apiUrl w)
                      ++ lit "/i/moltbot/integrations")]
  `prefix_of` (initialize w env).2.
Proof.
  intros Hw Hurl. unfold initialize, fetchIntegrations. rewrite Hw, Hurl. simpl.
  match goal with
  | |- context [foldl ?f (w, ?fetched) ?l] =>
      assert (Hfold : fetched `prefix_of` (foldl f (w, fetched) l).2)
  end.
  { apply (foldl_preserves (λ acc : World * list Effect, _ `prefix_of` acc.2));
      [|done].
    intros [w' effs] [i integration] Hp. simpl in *.
    destruct (connectUser _ _ _ _ _) as [[??]?]. simpl.
    by apply prefix_app_r. }
  by destruct (foldl _ _ _).
Qed.

(** C10.  When the process is not initialized and the integrations request
    fails (it is rejected, or the response is not 2xx), [initialize] makes
    at most that request, connects nobody, and still sets the flag.  From
    then on, and through any actions other than [shutdown], every call of
    [initialize] returns at once, with no request and no connection.
    [shutdown] clears the flag, after which [initialize] makes the request
    again. *)
Theorem initialize_latches_on_failure (w : World) (env : InitEnv) :
  World.isInitialized w = false →
  fetch_failed (integrations_response env) →
  initialize w env
  = (set_isInitialized w true,
     if truthy (World.apiUrl w)
     then [FetchIntegrations (default [] (World.apiUrl w)
                              ++ lit "/i/moltbot/integrations")]
     else [])
  ∧ (∀ actions env',
       Forall (λ a, a ≠ DoShutdown) actions →
       initialize (run (initialize w env).1 actions) env'
       = (run (initialize w env).1 actions, []))
  ∧ (∀ actions,
       World.isInitialized (shutdown (run (initialize w env).1 actions)).1
       = false)
  ∧ (∀ env',
       truthy (World.apiUrl w) = true →
       [FetchIntegrations (default [] (World.apiUrl w)
                           ++ lit "/i/moltbot/integrations")]
       `prefix_of` (initialize (shutdown (initialize w env).1).1 env').2).
Proof.
  intros Hw Hnet.
  assert (Hinit : initialize w env
    = (set_isInitialized w true,
       if truthy (World.apiUrl w)
       then [FetchIntegrations (default [] (World.apiUrl w)
                                ++ lit "/i/moltbot/integrations")]
       else [])).
  { unfold initialize. rewrite Hw.
    by rewrite (fetchIntegrations_failed w _ Hnet). }
  split; [done|]. rewrite Hinit. simpl. split; [|split].
  - intros actions env' Ha. apply initialize_again.
    by apply run_keeps_initialized.
  - intros actions. apply shutdown_frame.
  - intros env' Hurl.
    destruct (shutdown_frame (set_isInitialized w true)) as [Hflag Hsame].
    simpl in Hsame. rewrite <- Hsame. apply initialize_fetches; [done|].
    by rewrite Hsame.
Qed.
End Initialization.

(** ** A reconnect timer that outlives its session *)

(** C2, as the code has it.  [disconnectUser] removes the user from the map
    but leaves a pending reconnect timer in place, and the timer's callback
    is not guarded.  When it fires after the disconnect it calls
    [createSocket] on the removed connection: if the library calls succeed, a
    new socket is made for it and the connection gets that socket and the
    status [connecting]; no other connection changes and the user stays
    absent from the map.  If the library calls fail, nothing changes. *)
Theorem reconnect_timer_after_disconnect (w0 : World) (userId : jsstring)
    (r : Ref) (c : UserConnection) (i : nat) :
  conn_get w0 userId = Some (r, c) →
  World.timers w0 !! i = Some r →
  let w := (disconnectUser w0 userId).1 in
  let fired := timer_fires w i (Ret ()) in
  conn_get w userId = None
  ∧ World.store w !! r = Some c
  ∧ fired.1.2 = [MakeSocket (length (World.sockets w)) (UserConnection.authDir c)]
  ∧ fired.2 = Ret ()
  ∧ World.store fired.1.1 !! r = Some (rebound c (length (World.sockets w)))
  ∧ (∀ r', r' ≠ r → World.store fired.1.1 !! r' = World.store w !! r')
  ∧ World.sockets fired.1.1 = World.sockets w ++ [r]
  ∧ conn_get fired.1.1 userId = None
  ∧ (∀ e, timer_fires w i (Throw e)
          = (set_timers w (delete i (World.timers w)), [], Throw e)).
Proof.
  intros Hget Htimer w fired.
  assert (Hstore : World.store w0 !! r = Some c).
  { unfold conn_get in Hget. destruct (map_get _ _) as [r0|]; [|done].
    destruct (World.store w0 !! r0) eqn:Hr0; by simplify_eq. }
  assert (Hgone : conn_get w userId = None).
  { subst w. unfold conn_get, disconnectUser. simpl.
    by rewrite map_get_delete_eq. }
  subst fired w. unfold timer_fires, disconnectUser in *. simpl in *.
  rewrite Htimer. simpl. rewrite Hstore. simpl.
  repeat split; try done.
  - rewrite list_lookup_alter_eq, Hstore. done.
  - intros r' Hr'. by rewrite list_lookup_alter_ne.
  - unfold conn_get. simpl. by rewrite map_get_delete_eq.
Qed.

(** C2, as stated, fails.  A user connects, the socket closes with code 515
    (a timer is set), the user is disconnected, and the timer fires: the
    callback makes socket 1 and rebinds the removed connection to it. *)
Lemma reconnect_timer_not_guarded :
  ¬ (∀ (fs : FileSystem) (actions : list (@Action ReferenceRuntime.runtime))
       (userId : jsstring) (r : Ref) (c : UserConnection) (i : nat)
       (lib : outcome unit),
       let w0 := @run ReferenceRuntime.runtime (initial fs) actions in
       conn_get w0 userId = Some (r, c) →
       World.timers w0 !! i = Some r →
       let w := (disconnectUser w0 userId).1 in
       (timer_fires w i lib).1.2 = []
       ∧ World.store (timer_fires w i lib).1.1 = World.store w).
Proof.
  intros Hclaim.
  destruct (Hclaim empty_disk one_restart (lit "u1") 0
              (restarted_connection 0 1) 0 (Ret ()))
    as [Heffs _]; [by vm_compute | by vm_compute |].
  vm_compute in Heffs. discriminate Heffs.
Qed.

(** ** The reference host satisfies the laws used for the credential store *)

Module ReferenceRuntimeFacts.
Import ReferenceRuntime.

Fixpoint from_to_tree (v : json Z) : from_tree (to_tree v) = v.
Proof.
  destruct v as [| | | |items|props]; simpl; try reflexivity.
  - f_equal. induction items as [|v items IH]; simpl; [reflexivity|].
    f_equal; [apply from_to_tree | apply IH].
  - f_equal. induction props as [|[k v] props IH]; simpl; [reflexivity|].
    f_equal; [f_equal; apply from_to_tree | apply IH].
Qed.

Lemma unbits_bits (p : positive) : unbits (bits p) = Some p.
Proof. induction p as [p IH|p IH|]; simpl; by rewrite ?IH. Qed.

Lemma parse_stringify (indent : nat) (v : json Z) :
  parse (stringify indent v) = Some v.
Proof.
  unfold parse, stringify. rewrite unbits_bits, decode_encode. simpl.
  by rewrite from_to_tree.
Qed.

Lemma reparse_array (content : jsstring) (items : list (json Z))
    (v' : json Z) :
  parse content = Some (JArray items) →
  parse (stringify 2 (JArray items)) = Some v' →
  (∃ items', v' = JArray items') ∧ stringify 2 v' = stringify 2 (JArray items).
Proof. intros _. rewrite parse_stringify. intros [= <-]. by eauto. Qed.

Lemma reparse_object (content : jsstring) (props : list (jsstring * json Z))
    (v' : json Z) :
  parse content = Some (JObject props) →
  parse (stringify 2 (JObject (map_set (lit "registered") (JBool true) props)))
  = Some v' →
  ∃ props', v' = JObject props'
            ∧ map_get (lit "registered") props' = Some (JBool true).
Proof.
  intros _. rewrite parse_stringify. intros [= <-]. eexists.
  split; [done|]. apply map_get_set_eq.
Qed.
End ReferenceRuntimeFacts.

(** * Further properties of the bridge *)

(** ** Phone identities *)

Lemma before_prefix (sep : N) (s : jsstring) : before sep s `prefix_of` s.
Proof.
  induction s as [|c s IH]; simpl; [done|].
  destruct (c =? sep)%N; [apply prefix_nil | by apply prefix_cons].
Qed.

Lemma before_free (sep : N) (s : jsstring) : sep ∉ before sep s.
Proof.
  induction s as [|c s IH]; simpl; [apply not_elem_of_nil|].
  destruct (N.eqb_spec c sep) as [->|Hc]; [apply not_elem_of_nil|].
  apply not_elem_of_cons. split; [congruence | done].
Qed.

Lemma before_longest (sep : N) (s p : jsstring) :
  p `prefix_of` s → sep ∉ p → p `prefix_of` before sep s.
Proof.
  revert p. induction s as [|c s IH]; intros p Hp Hfree; simpl.
  - by apply prefix_nil_inv in Hp as ->.
  - destruct p as [|c' p]; [apply prefix_nil|].
    apply prefix_cons_inv_1 in Hp as Hc. subst c'.
    apply prefix_cons_inv_2 in Hp.
    apply not_elem_of_cons in Hfree as [Hne Hfree].
    destruct (N.eqb_spec c sep) as [->|_]; [done|].
    apply prefix_cons. by apply IH.
Qed.

Lemma before_stops (sep : N) (s : jsstring) :
  ∃ rest, s = before sep s ++ rest ∧ (rest = [] ∨ head rest = Some sep).
Proof.
  induction s as [|c s (rest & Hs & Hrest)]; simpl; [by exists []; auto|].
  destruct (N.eqb_spec c sep) as [->|_].
  - exists (sep :: s). auto.
  - exists rest. split; [by rewrite Hs at 1|done].
Qed.

(** X1.  [jid.split("@")[0].split(":")[0]], which [extractPhone], the open
    handler and [handleIncomingMessage] use to get a phone from a JID, gives
    the longest prefix of the JID that contains neither [@] nor [:]: it is a
    prefix, it is free of both, and every prefix free of both is a prefix of
    it.  Applying it twice changes nothing. *)
Theorem phone_of_jid_longest_prefix (jid : jsstring) :
  phone_of_jid jid `prefix_of` jid
  ∧ (64%N ∉ phone_of_jid jid)
  ∧ (58%N ∉ phone_of_jid jid)
  ∧ (∀ p, p `prefix_of` jid → 64%N ∉ p → 58%N ∉ p →
          p `prefix_of` phone_of_jid jid)
  ∧ phone_of_jid (phone_of_jid jid) = phone_of_jid jid.
Proof.
  unfold phone_of_jid.
  assert (Hat : 64%N ∉ before 58 (before 64 jid)).
  { intros Hin. apply (before_free 64 jid).
    destruct (before_prefix 58 (before 64 jid)) as [k Hk]. rewrite Hk.
    apply elem_of_app. by left. }
  assert (Hlong : ∀ p, p `prefix_of` jid → 64%N ∉ p → 58%N ∉ p →
                       p `prefix_of` before 58 (before 64 jid)).
  { intros p Hp H64 H58. apply before_longest; [|done].
    by apply before_longest. }
  split; [|split; [|split; [|split]]].
  - etrans; [apply before_prefix | apply before_prefix].
  - done.
  - apply before_free.
  - done.
  - apply (anti_symm prefix).
    + etrans; [apply before_prefix | apply before_prefix].
    + apply before_longest; [|apply before_free].
      apply before_longest; [done | done].
Qed.

Lemma suffix_all_digits (p n : jsstring) :
  p `suffix_of` n → Forall (λ c, is_digit c = true) n →
  Forall (λ c, is_digit c = true) p.
Proof. intros [k ->] Hn. by apply Forall_app in Hn as [_ ?]. Qed.

Lemma strip_non_digits_digits (s : jsstring) :
  Forall (λ c, is_digit c = true) (strip_non_digits s).
Proof.
  unfold strip_non_digits. apply List.Forall_forall. intros c Hc.
  by apply filter_In in Hc as [_ ?].
Qed.

(** X2.  [getUserIdByPhone] normalizes its input but not the stored phone.
    A stored phone that contains a character other than a digit (a phone
    taken from the integration's metadata, such as ["+1-555-123-4567"]) is
    therefore never a suffix of the normalized input: it matches exactly
    when the normalized input is a suffix of it.  When every stored phone
    contains such a character and none ends with the normalized input, the
    lookup finds nobody. *)
Theorem getUserIdByPhone_unnormalized_store (w : World) (phone : jsstring) :
  (∀ conn p ch,
     UserConnection.phone conn = Some p → ch ∈ p → is_digit ch = false →
     (phone_matches (strip_non_digits phone) conn
      ↔ strip_non_digits phone `suffix_of` p))
  ∧ ((∀ userId conn, (userId, conn) ∈ entries w →
        ∃ p ch, UserConnection.phone conn = Some p ∧ ch ∈ p
                ∧ is_digit ch = false
                ∧ ¬ strip_non_digits phone `suffix_of` p) →
     getUserIdByPhone w phone = None).
Proof.
  assert (Hone : ∀ conn p ch,
    UserConnection.phone conn = Some p → ch ∈ p → is_digit ch = false →
    (phone_matches (strip_non_digits phone) conn
     ↔ strip_non_digits phone `suffix_of` p)).
  { intros conn p ch Hp Hch Hnd. unfold phone_matches. split.
    - intros (q & Hq & _ & [Hs|Hs]); simplify_eq; [done|].
      pose proof (suffix_all_digits _ _ Hs (strip_non_digits_digits phone)) as Hd.
      rewrite List.Forall_forall in Hd. apply list_elem_of_In in Hch.
      specialize (Hd ch Hch). congruence.
    - intros Hs. exists p. split; [done|]. split; [|by left].
      intros ->. by apply elem_of_nil in Hch. }
  split; [done|].
  intros Hall. unfold getUserIdByPhone. apply find_by_phone_None.
  apply List.Forall_forall. intros [u c] Hin. simpl.
  apply list_elem_of_In in Hin.
  destruct (Hall u c Hin) as (p & ch & Hp & Hch & Hnd & Hns).
  by rewrite (Hone c p ch Hp Hch Hnd).
Qed.

(** ** Forwarding and sending *)

Lemma forwardToRaccoonAI_success_inv (config : RaccoonAIBridgeConfig)
    (payload : InboundPayload) (hook : FetchOutcome WebhookReply.t)
    (result : ForwardResult) :
  (forwardToRaccoonAI config payload hook).1 = Ret result →
  ForwardResult.success result = true →
  default false (RaccoonAIBridgeConfig.enabled config)
  && truthy (RaccoonAIBridgeConfig.webhookUrl config) = true
  ∧ ∃ status text reply,
      hook = Response status text (Ret reply)
      ∧ response_ok status = true
      ∧ WebhookReply.success reply ≠ Some false
      ∧ ForwardResult.sessionId result = WebhookReply.sessionId reply
      ∧ ForwardResult.sessionUrl result = WebhookReply.sessionUrl reply.
Proof.
  unfold forwardToRaccoonAI.
  destruct (default false (RaccoonAIBridgeConfig.enabled config)); simpl;
    [|by intros [= <-]].
  destruct (truthy (RaccoonAIBridgeConfig.webhookUrl config)); simpl;
    [|by intros [= <-]].
  intros Hres Hok. split; [done|].
  destruct hook as [e|status text body]; simpl in Hres.
  { injection Hres as <-. done. }
  destruct (response_ok status) eqn:Hstatus; simpl in Hres.
  2: { injection Hres as <-. done. }
  destruct body as [reply|e]; simpl in Hres.
  2: { injection Hres as <-. done. }
  injection Hres as <-. simpl in Hok.
  exists status, text, reply. repeat split; try done.
  intros Hfalse. by rewrite Hfalse in Hok.
Qed.

Lemma forwardToRaccoonAI_effects (config : RaccoonAIBridgeConfig)
    (payload : InboundPayload) (hook : FetchOutcome WebhookReply.t) :
  (forwardToRaccoonAI config payload hook).2
  = (if default false (RaccoonAIBridgeConfig.enabled config)
        && truthy (RaccoonAIBridgeConfig.webhookUrl config)
     then [PostWebhook (default [] (RaccoonAIBridgeConfig.webhookUrl config))
             payload]
     else []).
Proof.
  unfold forwardToRaccoonAI.
  destruct (default false (RaccoonAIBridgeConfig.enabled config)); simpl;
    [|done].
  by destruct (truthy (RaccoonAIBridgeConfig.webhookUrl config)).
Qed.

(** The socket call of [sendMessage], when there is one. *)
Lemma sendMessage_effects_inv (w : World) (userId chatId text : jsstring)
    (mediaUrl : option jsstring) (net : outcome (option jsstring)) :
  (sendMessage w userId chatId text mediaUrl net).2 = []
  ∨ ∃ r c sock,
      conn_get w userId = Some (r, c)
      ∧ UserConnection.socket c = Some sock
      ∧ UserConnection.status c = connected
      ∧ (sendMessage w userId chatId text mediaUrl net).2
        = [SocketSendMessage sock chatId (build_content text mediaUrl)].
Proof.
  unfold sendMessage.
  destruct (conn_get w userId) as [[r c]|] eqn:Hget; [|by left].
  destruct (UserConnection.socket c) as [sock|] eqn:Hsock; [|by left].
  destruct (decide (UserConnection.status c = connected)) as [Hst|Hst].
  - rewrite (bool_decide_eq_true_2 _ Hst). simpl. right. by exists r, c, sock.
  - rewrite (bool_decide_eq_false_2 _ Hst). simpl. by left.
Qed.

(** X3.  [forwardToRaccoonAI] makes exactly one webhook request when the
    bridge is enabled and a webhook URL is set, and none otherwise, whatever
    the webhook answers (there is no retry).  It reports [success: true]
    only when that request was answered with a 2xx status and a JSON body
    whose [success] is not [false]; the session id and URL are then the ones
    of the body.  Conversely such an answer always gives that result. *)
Theorem forwardToRaccoonAI_request_and_success
    (config : RaccoonAIBridgeConfig) (payload : InboundPayload)
    (hook : FetchOutcome WebhookReply.t) :
  let called :=
    default false (RaccoonAIBridgeConfig.enabled config)
    && truthy (RaccoonAIBridgeConfig.webhookUrl config) in
  (forwardToRaccoonAI config payload hook).2
  = (if called
     then [PostWebhook (default [] (RaccoonAIBridgeConfig.webhookUrl config))
             payload]
     else [])
  ∧ (∀ result,
       (forwardToRaccoonAI config payload hook).1 = Ret result →
       ForwardResult.success result = true →
       called = true
       ∧ ∃ status text reply,
           hook = Response status text (Ret reply)
           ∧ response_ok status = true
           ∧ WebhookReply.success reply ≠ Some false
           ∧ ForwardResult.sessionId result = WebhookReply.sessionId reply
           ∧ ForwardResult.sessionUrl result = WebhookReply.sessionUrl reply)
  ∧ (∀ status text reply,
       called = true → hook = Response status text (Ret reply) →
       response_ok status = true →
       (forwardToRaccoonAI config payload hook).1
       = Ret (ForwardResult.mk (default true (WebhookReply.success reply))
                (WebhookReply.sessionId reply) (WebhookReply.sessionUrl reply)
                (WebhookReply.error reply))).
Proof.
  cbv zeta. split; [apply forwardToRaccoonAI_effects|]. split.
  - intros result Hres Hok.
    by apply (forwardToRaccoonAI_success_inv config payload hook result).
  - intros status text reply Hcalled -> Hstatus. unfold forwardToRaccoonAI.
    apply andb_true_iff in Hcalled as [-> ->]. simpl. by rewrite Hstatus.
Qed.

(** X4.  [sendMessage] calls the socket exactly when the user is a key of
    the map, its connection has a socket and its status is [connected]: in
    that case it makes one call, on that connection's socket, for the given
    chat and the content built from the text and the media URL, and in
    every other case it makes no call at all.  It always returns a result
    (it does not throw); the result has [success: true] exactly when the
    call was made and resolved, with the id of the sent message, and every
    failure carries an error message. *)
Theorem sendMessage_reaches_socket (w : World) (userId chatId text : jsstring)
    (mediaUrl : option jsstring) (net : outcome (option jsstring)) :
  let live :=
    ∃ r c sock, conn_get w userId = Some (r, c)
                ∧ UserConnection.socket c = Some sock
                ∧ UserConnection.status c = connected in
  let effs := (sendMessage w userId chatId text mediaUrl net).2 in
  (∀ r c sock,
     conn_get w userId = Some (r, c) →
     UserConnection.socket c = Some sock →
     UserConnection.status c = connected →
     effs = [SocketSendMessage sock chatId (build_content text mediaUrl)])
  ∧ (¬ live → effs = [])
  ∧ ∃ result,
      (sendMessage w userId chatId text mediaUrl net).1 = Ret result
      ∧ (SendResult.success result = true ↔
         live ∧ net = Ret (SendResult.messageId result))
      ∧ (SendResult.success result = false →
         is_Some (SendResult.error result)).
Proof.
  cbv zeta. unfold sendMessage.
  destruct (conn_get w userId) as [[r c]|] eqn:Hget.
  2: { simpl. split; [done|]. split; [done|]. eexists. split; [done|].
       simpl. split; [|by eexists].
       split; [done|]. by intros [(? & ? & ? & ? & _) _]. }
  destruct (UserConnection.socket c) as [sock|] eqn:Hsock.
  2: { simpl. split; [intros ? ? ? [= <- <-]; congruence|].
       split; [done|]. eexists. split; [done|]. simpl. split; [|by eexists].
       split; [done|]. intros [(? & ? & ? & [= <- <-] & ? & _) _].
       congruence. }
  destruct (decide (UserConnection.status c = connected)) as [Hst|Hst].
  - rewrite (bool_decide_eq_true_2 _ Hst). simpl.
    split; [intros r0 c0 sock0 [= <- <-] Hs _; rewrite Hsock in Hs;
            by injection Hs as <-|].
    split; [intros Hn; destruct Hn; by exists r, c, sock|].
    destruct net as [id|e]; simpl; eexists; (split; [done|]); simpl.
    + split; [|done]. split; [|done]. intros _. split; [|done].
      by exists r, c, sock.
    + split; [|by eexists]. split; [done|]. by intros [_ ?].
  - rewrite (bool_decide_eq_false_2 _ Hst). simpl.
    split; [intros ? ? ? [= <- <-] _ ?; done|].
    split; [done|]. eexists. split; [done|]. simpl. split; [|by eexists].
    split; [done|]. intros [(? & ? & ? & [= <- <-] & ? & ?) _]. done.
Qed.

(** ** The outbound route, for every request *)

Ltac in_list := apply list_elem_of_In; simpl; tauto.

(** Closes the goal about the route on a path that answers with an
    error and calls nothing. *)
Ltac route_error :=
  simpl; split; [split; discriminate|];
  split; [right; split; [in_list | by eexists]|];
  split; [lia | done].

Lemma sendMessage_status_check (w : World) (userId chatId text : jsstring)
    (mediaUrl : option jsstring) (net : outcome (option jsstring)) :
  ∃ result effs,
    sendMessage w userId chatId text mediaUrl net = (Ret result, effs)
    ∧ length effs ≤ 1
    ∧ (SendResult.success result = false → is_Some (SendResult.error result)).
Proof.
  unfold sendMessage.
  destruct (conn_get w userId) as [[r c]|];
    [|by eexists _, _; repeat split; [simpl; lia | eexists]].
  destruct (UserConnection.socket c);
    [|by eexists _, _; repeat split; [simpl; lia | eexists]].
  destruct (negb _); [by eexists _, _; repeat split; [simpl; lia | eexists]|].
  destruct net; simpl; eexists _, _; repeat split; try done; simpl; by eexists.
Qed.

(** X5.  Whatever the request is, the route answers 200 exactly when the
    body it sends has [success: true], and otherwise 400, 405 or 500 with
    an error message in the body.  It calls a socket at most once, and only
    for a POST whose body parsed to a payload with integration ["whatsapp"]
    and a non-empty chat and text. *)
Theorem send_route_total (w : World) (req : Request.t)
    (net : outcome (option jsstring)) :
  let response := (handler w req net).1 in
  let effs := (handler w req net).2 in
  (HttpResponse.status response = 200%Z
   ↔ SendResult.success (HttpResponse.body response) = true)
  ∧ (HttpResponse.status response = 200%Z
     ∨ (HttpResponse.status response ∈ [400%Z; 405%Z; 500%Z]
        ∧ is_Some (SendResult.error (HttpResponse.body response))))
  ∧ length effs ≤ 1
  ∧ (effs ≠ [] →
     Request.method req = lit "POST"
     ∧ ∃ payload,
         Request.body req = Ret payload
         ∧ OutboundPayload.integrationId payload = Some (lit "whatsapp")
         ∧ truthy (OutboundPayload.chatId payload) = true
         ∧ truthy (OutboundPayload.text payload) = true).
Proof.
  unfold handler.
  destruct (bool_decide (Request.method req = lit "POST")) eqn:Hm; simpl.
  2: { route_error. }
  apply bool_decide_eq_true in Hm.
  destruct (Request.body req) as [payload|e] eqn:Hbody; simpl.
  2: { route_error. }
  destruct (truthy (OutboundPayload.integrationId payload)) eqn:Hi; simpl.
  2: { route_error. }
  destruct (truthy (OutboundPayload.chatId payload)) eqn:Hc; simpl.
  2: { route_error. }
  destruct (truthy (OutboundPayload.text payload)) eqn:Ht; simpl.
  2: { route_error. }
  destruct (resolve_user w payload) as [response|userId] eqn:Hres; simpl.
  { unfold resolve_user in Hres.
    destruct (truthy (OutboundPayload.userId payload)); [done|].
    destruct (getConnectedUserIds w) as [|u [|u' us]]; simplify_eq;
      route_error. }
  case_bool_decide as Hwa; simpl.
  2: { route_error. }
  destruct (sendMessage_status_check w userId
              (default [] (OutboundPayload.chatId payload))
              (default [] (OutboundPayload.text payload))
              (first_media_url payload) net)
    as (result & effs & Hsend & Hlen & Hfail).
  rewrite Hsend. simpl.
  assert (Hpayload : effs ≠ [] →
    Request.method req = lit "POST"
    ∧ ∃ payload0,
        Ret payload = Ret payload0
        ∧ OutboundPayload.integrationId payload0 = Some (lit "whatsapp")
        ∧ truthy (OutboundPayload.chatId payload0) = true
        ∧ truthy (OutboundPayload.text payload0) = true).
  { intros _. split; [done|]. exists payload. repeat split; try done.
    destruct (OutboundPayload.integrationId payload) as [i|]; simpl in *;
      [congruence | discriminate]. }
  destruct (SendResult.success result) eqn:Hsucc; simpl.
  - split; [done|]. split; [by left|]. split; done.
  - split; [split; discriminate|].
    split; [right; split; [in_list | by apply Hfail]|]. split; done.
Qed.

(** X6.  A valid request that names no user is routed by the number of
    connected users before the integration is looked at: with none the
    answer is 500, with two or more it is 400, in both cases whatever the
    integration is and without any socket call.  With exactly one connected
    user and an integration other than ["whatsapp"] the answer is 400 "not
    supported", again without a socket call. *)
Theorem send_route_without_user (w : World) (payload : OutboundPayload)
    (net : outcome (option jsstring)) :
  truthy (OutboundPayload.integrationId payload) = true →
  truthy (OutboundPayload.chatId payload) = true →
  truthy (OutboundPayload.text payload) = true →
  truthy (OutboundPayload.userId payload) = false →
  let answer := handler w (Request.mk (lit "POST") (Ret payload)) net in
  (getConnectedUserIds w = [] →
   answer = (http_error 500 (lit "No WhatsApp connections available"), []))
  ∧ (2 ≤ length (getConnectedUserIds w) →
     answer
     = (http_error 400 (lit "Multiple users connected, userId required"), []))
  ∧ (length (getConnectedUserIds w) = 1 →
     OutboundPayload.integrationId payload ≠ Some (lit "whatsapp") →
     answer
     = (http_error 400
          (lit "Integration "
           ++ default [] (OutboundPayload.integrationId payload)
           ++ lit " not supported"), [])).
Proof.
  intros Hi Hc Ht Hu. cbv zeta. unfold handler, resolve_user. simpl.
  rewrite Hi, Hc, Ht, Hu. simpl.
  split; [|split].
  - by intros ->.
  - intros Hlen. destruct (getConnectedUserIds w) as [|u [|u' us]];
      simpl in Hlen; [lia | lia | done].
  - intros Hlen Hint. destruct (getConnectedUserIds w) as [|u [|u' us]];
      simpl in Hlen; [lia | | lia]. simpl.
    rewrite bool_decide_eq_false_2; [done|].
    intros Heq. apply Hint.
    destruct (OutboundPayload.integrationId payload); simpl in *; congruence.
Qed.

(** ** The plugin entry point *)

(** X7.  [register] sets the manager up (API URL, callback, start-up timer)
    exactly when the plugin configuration does not say [enabled: false] and
    has an API URL, and otherwise leaves it alone.  The bridge configuration
    it stores is disabled only when the plugin configuration says
    [enabled: false]; so whenever the callback is installed, forwarding with
    the stored configuration is never refused as disabled: it makes the
    webhook request exactly when a webhook URL is set. *)
Theorem register_enables_forwarding (pluginConfig : RaccoonAIBridgeConfig)
    (w : World) (payload : InboundPayload)
    (hook : FetchOutcome WebhookReply.t) :
  let config := (register pluginConfig w).1.1 in
  let w' := (register pluginConfig w).1.2 in
  let scheduled := (register pluginConfig w).2 in
  (scheduled = true
   ↔ RaccoonAIBridgeConfig.enabled pluginConfig ≠ Some false
     ∧ truthy (RaccoonAIBridgeConfig.raccoonApiUrl pluginConfig) = true)
  ∧ (scheduled = false → w' = w)
  ∧ (RaccoonAIBridgeConfig.enabled config = Some false
     ↔ RaccoonAIBridgeConfig.enabled pluginConfig = Some false)
  ∧ (scheduled = true →
     World.onMessageCallback w' = true
     ∧ World.apiUrl w' = RaccoonAIBridgeConfig.raccoonApiUrl pluginConfig
     ∧ World.connections w' = World.connections w
     ∧ (forwardToRaccoonAI config payload hook).2
       = if truthy (RaccoonAIBridgeConfig.webhookUrl pluginConfig)
         then [PostWebhook
                 (default [] (RaccoonAIBridgeConfig.webhookUrl pluginConfig))
                 payload]
         else []).
Proof.
  cbv zeta. unfold register, bridge_config_of.
  destruct (decide (RaccoonAIBridgeConfig.enabled pluginConfig = Some false))
    as [Hen|Hen].
  - rewrite (bool_decide_eq_true_2 _ Hen). simpl.
    repeat split; try done. by intros [? _].
  - rewrite (bool_decide_eq_false_2 _ Hen). simpl.
    destruct (truthy (RaccoonAIBridgeConfig.raccoonApiUrl pluginConfig))
      eqn:Hurl; simpl.
    + repeat split; try done.
      * destruct (RaccoonAIBridgeConfig.raccoonApiUrl pluginConfig); done.
      * rewrite forwardToRaccoonAI_effects. done.
    + repeat split; try done. by intros [_ ?].
Qed.

(** X8.  The callback that [register] installs never throws.  It makes at
    most one webhook request, and it sends an acknowledgement only when that
    request was answered 2xx with a body that is not [success: false] and
    has a non-empty session URL; the acknowledgement is the text ["Working
    on it! See live progress: <url>"], sent to the chat the message came
    from, on the socket that the map holds for the message's user, which
    must be connected. *)
Theorem on_message_acknowledges (config : RaccoonAIBridgeConfig) (w : World)
    (message : InboundMessage) (hook : FetchOutcome WebhookReply.t)
    (net : outcome (option jsstring)) :
  (on_message config w message hook net).1 = Ret ()
  ∧ ∃ acks,
      (on_message config w message hook net).2
      = (forwardToRaccoonAI config (payload_of message) hook).2 ++ acks
      ∧ length (forwardToRaccoonAI config (payload_of message) hook).2 ≤ 1
      ∧ (acks = []
         ∨ ∃ status text reply url r c sock,
             hook = Response status text (Ret reply)
             ∧ response_ok status = true
             ∧ WebhookReply.success reply ≠ Some false
             ∧ WebhookReply.sessionUrl reply = Some url ∧ url ≠ []
             ∧ conn_get w (InboundMessage.userId message) = Some (r, c)
             ∧ UserConnection.socket c = Some sock
             ∧ UserConnection.status c = connected
             ∧ acks = [SocketSendMessage sock (InboundMessage.chatId message)
                         (TextContent (ack_text url))]).
Proof.
  assert (Hlen : length (forwardToRaccoonAI config (payload_of message) hook).2 ≤ 1).
  { rewrite forwardToRaccoonAI_effects. destruct (_ && _); simpl; lia. }
  unfold on_message.
  destruct (forwardToRaccoonAI_returns config (payload_of message) hook)
    as [result Hres].
  pose proof (forwardToRaccoonAI_success_inv config (payload_of message) hook
                result Hres) as Hinv.
  destruct (forwardToRaccoonAI config (payload_of message) hook)
    as [forwarded posted].
  simpl in *. subst forwarded.
  destruct (ForwardResult.success result) eqn:Hok; simpl;
    [|split; [done|]; exists []; rewrite app_nil_r; auto].
  destruct (truthy (ForwardResult.sessionUrl result)) eqn:Hurl; simpl;
    [|split; [done|]; exists []; rewrite app_nil_r; auto].
  destruct (Hinv eq_refl) as (_ & status & text & reply & Hhook & Hstatus
                               & Hnf & _ & Hsess).
  apply truthy_Some in Hurl as (url & Hu & Hne). rewrite Hu. simpl.
  destruct (sendMessage_returns w (InboundMessage.userId message)
              (InboundMessage.chatId message) (ack_text url) None net)
    as [sent Hsent].
  pose proof (sendMessage_effects_inv w (InboundMessage.userId message)
                (InboundMessage.chatId message) (ack_text url) None net)
    as Heffs.
  destruct (sendMessage w (InboundMessage.userId message)
              (InboundMessage.chatId message) (ack_text url) None net)
    as [sent' effs].
  simpl in *. subst sent'. split; [done|]. exists effs. split; [done|].
  split; [done|].
  destruct Heffs as [->|(r & c & sock & Hget & Hsock & Hst & ->)]; [by left|].
  right. exists status, text, reply, url, r, c, sock.
  repeat split; try done. congruence.
Qed.

(** ** Removing connections *)

Lemma map_get_delete_ne {V} (k k' : jsstring) (m : list (jsstring * V)) :
  k' ≠ k → map_get k' (map_delete k m) = map_get k' m.
Proof.
  intros Hk. unfold map_get, map_delete.
  induction m as [|[k0 v] m IH]; simpl; [done|].
  case_bool_decide as H0; simpl in *.
  - rewrite (bool_decide_eq_false_2 (k0 = k')) by congruence. done.
  - case_bool_decide; [done | apply IH].
Qed.

Lemma map_delete_absent {V} (k : jsstring) (m : list (jsstring * V)) :
  k ∉ m.*1 → map_delete k m = m.
Proof.
  unfold map_delete. induction m as [|[k0 v] m IH]; simpl; [done|].
  intros [Hne Hm]%not_elem_of_cons.
  rewrite (bool_decide_eq_false_2 (k0 = k)) by congruence. simpl.
  by rewrite IH.
Qed.

Lemma map_delete_elem_of {V} (k : jsstring) (m : list (jsstring * V))
    (e : jsstring * V) :
  e ∈ map_delete k m ↔ e ∈ m ∧ e.1 ≠ k.
Proof.
  unfold map_delete. rewrite !list_elem_of_In, filter_In.
  rewrite negb_true_iff, bool_decide_eq_false. done.
Qed.

Lemma set_connections_id (w : World) : set_connections w (World.connections w) = w.
Proof. by destruct w. Qed.

(** X9.  [disconnectUser] removes the entry of that user and of no other
    user; it changes no connection object, so the removed object keeps the
    status it had, and it leaves the pending timers in place.  It ends the
    socket of the removed connection if it has one.  For a user that is not
    in the map it does nothing at all. *)
Theorem disconnectUser_removes_one (w : World) (userId : jsstring) :
  let w' := (disconnectUser w userId).1 in
  conn_get w' userId = None
  ∧ (∀ other, other ≠ userId → conn_get w' other = conn_get w other)
  ∧ World.store w' = World.store w
  ∧ World.timers w' = World.timers w
  ∧ World.sockets w' = World.sockets w
  ∧ (∀ r c sock, conn_get w userId = Some (r, c) →
       UserConnection.socket c = Some sock →
       (disconnectUser w userId).2 = [SocketEnd sock])
  ∧ (userId ∉ (World.connections w).*1 → disconnectUser w userId = (w, [])).
Proof.
  cbv zeta. unfold disconnectUser. simpl. repeat split.
  - unfold conn_get. simpl. by rewrite map_get_delete_eq.
  - intros other Hne. unfold conn_get. simpl. by rewrite map_get_delete_ne.
  - intros r c sock -> ->. done.
  - intros Habsent. rewrite (conn_get_None w userId Habsent).
    by rewrite map_delete_absent, set_connections_id.
Qed.

(** The loop of [shutdown]. *)
Lemma shutdown_loop (l : list (jsstring * Ref)) (w : World) (effs : list Effect) :
  NoDup l.*1 →
  let done :=
    foldl (λ (acc : World * list Effect) (e : jsstring * Ref),
             let (w', effs') := disconnectUser acc.1 e.1 in
             (w', acc.2 ++ effs'))
      (w, effs) l in
  (∀ e, e ∈ World.connections done.1 ↔ e ∈ World.connections w ∧ e.1 ∉ l.*1)
  ∧ World.store done.1 = World.store w
  ∧ World.timers done.1 = World.timers w
  ∧ World.sockets done.1 = World.sockets w
  ∧ World.apiUrl done.1 = World.apiUrl w
  ∧ World.onMessageCallback done.1 = World.onMessageCallback w
  ∧ World.disk done.1 = World.disk w
  ∧ done.2 = effs ++ concat ((λ e, (disconnectUser w e.1).2) <$> l).
Proof.
  revert w effs. induction l as [|[k r] l IH]; intros w effs Hnd.
  - simpl. split; [|by rewrite app_nil_r].
    intros e. split; [|by intros [? _]].
    intros ?. split; [done | apply not_elem_of_nil].
  - rewrite fmap_cons in Hnd.
    pose proof (NoDup_cons_1_1 _ _ Hnd) as Hk.
    apply NoDup_cons_1_2 in Hnd.
    cbn [foldl fst snd]. rewrite !fmap_cons, concat_cons. cbn [fst].
    destruct (IH (disconnectUser w k).1 (effs ++ (disconnectUser w k).2) Hnd)
      as (Hconn & Hstore & Htimers & Hsock & Hurl & Hcb & Hdisk & Heffs).
    assert (Hw1 : (disconnectUser w k).1
                  = set_connections w (map_delete k (World.connections w)))
      by done.
    destruct (disconnectUser w k) as [w1 effs1]. cbn [fst snd] in *. subst w1.
    split; [|rewrite Hstore, Htimers, Hsock, Hurl, Hcb, Hdisk;
             repeat split; try done].
    + intros e. rewrite Hconn. simpl.
      rewrite map_delete_elem_of, not_elem_of_cons. tauto.
    + rewrite Heffs, <- (assoc_L (++)). f_equal. f_equal. f_equal.
      apply Forall_fmap_ext_1, List.Forall_forall. intros e He.
      apply list_elem_of_In in He.
      assert (Hne : e.1 ≠ k).
      { intros <-. apply Hk. apply list_elem_of_fmap. by exists e. }
      unfold disconnectUser. simpl. f_equal.
      unfold conn_get. simpl. by rewrite map_get_delete_ne.
Qed.

(** X10.  [shutdown] removes every entry of the map and clears the
    initialized flag; it changes no connection object and leaves the
    sockets' handlers and the pending reconnect timers in place.  When the
    map has one entry per key, it ends the socket of each entry that has
    one, once, in the order of the map. *)
Theorem shutdown_clears_map (w : World) :
  let w' := (shutdown w).1 in
  (NoDup (World.connections w).*1 →
   World.connections w' = []
   ∧ (shutdown w).2
     = concat ((λ e, (disconnectUser w e.1).2) <$> World.connections w))
  ∧ World.isInitialized w' = false
  ∧ World.store w' = World.store w
  ∧ World.timers w' = World.timers w
  ∧ World.sockets w' = World.sockets w.
Proof.
  cbv zeta. unfold shutdown.
  split.
  - intros Hnd.
    destruct (shutdown_loop (World.connections w) w [] Hnd)
      as (Hconn & _ & _ & _ & _ & _ & _ & Heffs).
    destruct (foldl _ _ _) as [w' effs]. simpl in *. split; [|done].
    destruct (World.connections w') as [|e m]; [done|].
    assert (He : e ∈ e :: m) by left.
    apply Hconn in He as [He Hne]. destruct Hne.
    apply list_elem_of_fmap. by exists e.
  - pose proof (shutdown_store w) as Hstore. unfold shutdown in Hstore.
    assert (Hfold :
      let done :=
        foldl (λ (acc : World * list Effect) (e : jsstring * Ref),
                 let (w', effs') := disconnectUser acc.1 e.1 in
                 (w', acc.2 ++ effs')) (w, []) (World.connections w) in
      World.timers done.1 = World.timers w
      ∧ World.sockets done.1 = World.sockets w).
    { apply (foldl_preserves
               (λ acc : World * list Effect,
                  World.timers acc.1 = World.timers w
                  ∧ World.sockets acc.1 = World.sockets w)); [|done].
      by intros [w0 effs0] e [Ht Hs]. }
    destruct Hfold as [Ht Hs].
    destruct (foldl _ _ _) as [w' effs]. simpl in *. done.
Qed.


(** ** Connection events *)

Section Events.
Context `{Runtime}.
Implicit Types (w : World) (c : UserConnection).

(** X11.  A close event that is not eligible for a reconnect (the code is
    not a qualifying one, or the counter is at 3 or more, or the status is
    [error]) sets no timer and keeps the counter.  The status becomes
    [error] with reason ["logged_out"] when the code is the logged-out one,
    and otherwise [disconnected] with reason ["disconnect_<code>"]
    (["disconnect_undefined"] without a code) - also when the status was
    [error] before, so a logged-out connection that closes again with
    another code ends up [disconnected]. *)
Theorem close_without_reconnect w (sock : SocketId) (r : Ref) c
    (code : option Z) (sockUser : option jsstring) (now : Z) :
  World.sockets w !! sock = Some r →
  World.store w !! r = Some c →
  shouldReconnect code = false
  ∨ (3 ≤ UserConnection.reconnectAttempts c)%Z
  ∨ UserConnection.status c = error →
  let after :=
    connection_update w sock (mkUpdate (Some conn_close) code) sockUser now in
  after.2 = []
  ∧ World.timers after.1 = World.timers w
  ∧ World.connections after.1 = World.connections w
  ∧ (∀ r', r' ≠ r → World.store after.1 !! r' = World.store w !! r')
  ∧ ∃ c', World.store after.1 !! r = Some c'
          ∧ UserConnection.reconnectAttempts c'
            = UserConnection.reconnectAttempts c
          ∧ UserConnection.socket c' = UserConnection.socket c
          ∧ (code = Some loggedOut →
             UserConnection.status c' = error
             ∧ UserConnection.error c' = Some (lit "logged_out"))
          ∧ (code ≠ Some loggedOut →
             UserConnection.status c' = disconnected
             ∧ UserConnection.error c'
               = Some (lit "disconnect_"
                       ++ match code with
                          | Some n => String_of_number n
                          | None => lit "undefined"
                          end)).
Proof.
  intros Hsock Hstore Hno. cbv zeta. unfold connection_update.
  rewrite Hsock. simpl. rewrite Hstore.
  assert (Hlen : r < length (World.store w)) by by eapply lookup_lt_Some.
  assert (Hcond : shouldReconnect code
                  && (UserConnection.reconnectAttempts c <? 3)%Z
                  && negb (bool_decide (UserConnection.status c = error))
                  = false).
  { destruct Hno as [->|[Hcap|Herr]]; [done| |].
    - destruct (Z.ltb_spec (UserConnection.reconnectAttempts c) 3); [lia|].
      by rewrite andb_false_r.
    - rewrite (bool_decide_eq_true_2 _ Herr). simpl. by rewrite andb_false_r. }
  unfold on_close. rewrite Hcond.
  destruct (decide (code = Some loggedOut)) as [Hlo|Hlo].
  - rewrite (bool_decide_eq_true_2 _ Hlo). cbn -[lit app].
    repeat split; try done.
    + intros r' Hr'. by rewrite list_lookup_insert_ne.
    + eexists. rewrite list_lookup_insert_eq by done.
      repeat split; done.
  - rewrite (bool_decide_eq_false_2 _ Hlo). cbn -[lit app].
    repeat split; try done.
    + intros r' Hr'. by rewrite list_lookup_insert_ne.
    + eexists. rewrite list_lookup_insert_eq by done.
      repeat split; done.
Qed.

(** X12.  A handshake restores the reconnect budget and clears the failure,
    whatever the connection's state was (at the cap, or logged out): after
    an open event on one of its sockets the connection is [connected] with
    counter 0 and no error, and a following close with a qualifying code, on
    any of its sockets, always sets a 2-second timer, with counter 1 and
    status [connecting]. *)
Theorem handshake_restores_budget w (sock sock' : SocketId) (r : Ref) c
    (code code' : option Z) (sockUser sockUser' : option jsstring)
    (now now' : Z) :
  World.sockets w !! sock = Some r →
  World.sockets w !! sock' = Some r →
  World.store w !! r = Some c →
  shouldReconnect code' = true →
  let opened :=
    connection_update w sock (mkUpdate (Some conn_open) code) sockUser now in
  let closed :=
    connection_update opened.1 sock' (mkUpdate (Some conn_close) code')
      sockUser' now' in
  opened.2 = [SendPresenceUpdate sock]
  ∧ World.store opened.1 !! r = Some (on_open c sockUser now)
  ∧ UserConnection.status (on_open c sockUser now) = connected
  ∧ UserConnection.reconnectAttempts (on_open c sockUser now) = 0%Z
  ∧ UserConnection.error (on_open c sockUser now) = None
  ∧ UserConnection.lastConnectedAt (on_open c sockUser now) = Some now
  ∧ closed.2 = [SetTimeout r 2000%Z]
  ∧ World.timers closed.1 = World.timers w ++ [r]
  ∧ ∃ c', World.store closed.1 !! r = Some c'
          ∧ UserConnection.reconnectAttempts c' = 1%Z
          ∧ UserConnection.status c' = connecting.
Proof.
  intros Hsock Hsock' Hstore Hcode. cbv zeta. unfold connection_update.
  rewrite Hsock. simpl. rewrite Hsock'.
  rewrite list_lookup_alter_eq, Hstore. simpl.
  unfold on_close. rewrite Hcode. simpl.
  assert (Hlen : r < length (alter (λ c, on_open c sockUser now) r (World.store w))).
  { rewrite length_alter. by eapply lookup_lt_Some. }
  repeat split; try done.
  eexists. rewrite list_lookup_insert_eq by done. done.
Qed.
End Events.

(** ** Delivery of inbound messages *)

Section Delivery.
Context `{Runtime}.

(** The message that [handleIncomingMessage] builds for the callback. *)
Lemma handleIncomingMessage_passes (w : World) (userConn : UserConnection)
    (msg : WAMessage) (sock : SocketId) (env : HandleEnv)
    (jid : jsstring) (message : WAMessage.Content) :
  WAMessage.key msg ≫= WAMessage.remoteJid = Some jid → jid ≠ [] →
  endsWith jid (lit "@status") = false →
  endsWith jid (lit "@broadcast") = false →
  WAMessage.key msg ≫= WAMessage.fromMe ≠ Some true →
  WAMessage.message msg = Some message →
  trim (extract_text message) ≠ [] →
  ∃ m,
    handleIncomingMessage w userConn msg sock env
    = (if isJidGroup jid then [GroupMetadata sock jid] else [])
      ++ (if truthy (WAMessage.key msg ≫= WAMessage.id)
          then [ReadMessages sock jid
                  (default [] (WAMessage.key msg ≫= WAMessage.id))
                  (WAMessage.key msg ≫= WAMessage.participant)]
          else [])
      ++ (if World.onMessageCallback w then [OnMessage m] else [])
    ∧ InboundMessage.userId m = UserConnection.userId userConn
    ∧ InboundMessage.integrationId m = lit "whatsapp"
    ∧ InboundMessage.chatId m = jid
    ∧ InboundMessage.text m = extract_text message
    ∧ (InboundMessage.metadata m ≫= Metadata.chatType)
      = Some (if isJidGroup jid then group else direct)
    ∧ (InboundMessage.metadata m ≫= Metadata.groupSubject)
      = (if isJidGroup jid
         then match groupMeta env with Ret subject => subject | Throw _ => None end
         else None)
    ∧ (isJidGroup jid = false →
       InboundMessage.from m
       = if truthy_string (phone_of_jid jid) then phone_of_jid jid else jid).
Proof.
  intros Hjid Hne Hst Hbc Hme Hmsg Htext.
  assert (Hfm : default false (WAMessage.key msg ≫= WAMessage.fromMe) = false).
  { destruct (WAMessage.key msg ≫= WAMessage.fromMe) as [[|]|]; done. }
  unfold handleIncomingMessage. rewrite Hjid. cbn [truthy default from_option id].
  destruct jid as [|j0 jid]; [done|]. cbn [truthy_string negb].
  rewrite Hst, Hbc. cbn [orb]. rewrite Hfm, Hmsg.
  destruct (trim (extract_text message)) as [|t0 t]; [done|].
  cbn [truthy_string negb].
  eexists. split; [reflexivity|].
  cbn [InboundMessage.userId InboundMessage.integrationId
       InboundMessage.chatId InboundMessage.text InboundMessage.metadata
       InboundMessage.from mbind option_bind Metadata.chatType
       Metadata.groupSubject].
  split; [done|]. split; [done|]. split; [done|]. split; [done|].
  split; [done|]. split.
  - by destruct (isJidGroup (j0 :: jid)), (groupMeta env).
  - intros ->. done.
Qed.

Lemma handleIncomingMessage_cases (w : World) (userConn : UserConnection)
    (msg : WAMessage) (sock : SocketId) (env : HandleEnv) :
  handleIncomingMessage w userConn msg sock env = []
  ∨ ∃ jid message,
      WAMessage.key msg ≫= WAMessage.remoteJid = Some jid ∧ jid ≠ []
      ∧ endsWith jid (lit "@status") = false
      ∧ endsWith jid (lit "@broadcast") = false
      ∧ WAMessage.key msg ≫= WAMessage.fromMe ≠ Some true
      ∧ WAMessage.message msg = Some message
      ∧ trim (extract_text message) ≠ [].
Proof.
  unfold handleIncomingMessage.
  destruct (WAMessage.key msg ≫= WAMessage.remoteJid) as [jid|] eqn:Hjid;
    cbn [truthy truthy_string negb default from_option id]; [|by left].
  destruct jid as [|j0 jid]; cbn [truthy_string negb]; [by left|].
  destruct (endsWith (j0 :: jid) (lit "@status")) eqn:Hst;
    cbn [orb]; [by left|].
  destruct (endsWith (j0 :: jid) (lit "@broadcast")) eqn:Hbc; [by left|].
  destruct (default false (WAMessage.key msg ≫= WAMessage.fromMe)) eqn:Hfm;
    [by left|].
  destruct (WAMessage.message msg) as [message|] eqn:Hmsg; [|by left].
  destruct (trim (extract_text message)) as [|t0 t] eqn:Htext;
    cbn [truthy_string negb]; [by left|].
  right. exists (j0 :: jid), message. rewrite Htext.
  repeat split; try done. intros Hme. by rewrite Hme in Hfm.
Qed.

(** X13.  [handleIncomingMessage] invokes the callback exactly when one is
    registered and the message has a non-empty conversation identifier that
    ends neither in ["@status"] nor in ["@broadcast"], is not marked
    [fromMe], and has a text that is not blank.  It then invokes it once, as
    its last call, with the text as received (not trimmed), the
    conversation identifier as chat and the user of the connection; the
    group subject is looked up exactly for group conversations, and when
    that lookup fails the message is still delivered, without a subject. *)
Theorem handleIncomingMessage_delivers (w : World) (userConn : UserConnection)
    (msg : WAMessage) (sock : SocketId) (env : HandleEnv) :
  let effs := handleIncomingMessage w userConn msg sock env in
  let passes jid message :=
    WAMessage.key msg ≫= WAMessage.remoteJid = Some jid ∧ jid ≠ []
    ∧ endsWith jid (lit "@status") = false
    ∧ endsWith jid (lit "@broadcast") = false
    ∧ WAMessage.key msg ≫= WAMessage.fromMe ≠ Some true
    ∧ WAMessage.message msg = Some message
    ∧ trim (extract_text message) ≠ [] in
  ((∃ m, OnMessage m ∈ effs)
   ↔ World.onMessageCallback w = true ∧ ∃ jid message, passes jid message)
  ∧ (∀ jid message,
       World.onMessageCallback w = true → passes jid message →
       ∃ m pre,
         effs = pre ++ [OnMessage m]
         ∧ Forall (λ e, is_callback e = false) pre
         ∧ (GroupMetadata sock jid ∈ pre ↔ isJidGroup jid = true)
         ∧ InboundMessage.userId m = UserConnection.userId userConn
         ∧ InboundMessage.chatId m = jid
         ∧ InboundMessage.text m = extract_text message
         ∧ (InboundMessage.metadata m ≫= Metadata.chatType)
           = Some (if isJidGroup jid then group else direct)
         ∧ (InboundMessage.metadata m ≫= Metadata.groupSubject)
           = (if isJidGroup jid
              then match groupMeta env with
                   | Ret subject => subject
                   | Throw _ => None
                   end
              else None)).
Proof.
  cbv zeta.
  assert (Hshape : ∀ jid message,
    World.onMessageCallback w = true →
    WAMessage.key msg ≫= WAMessage.remoteJid = Some jid ∧ jid ≠ []
    ∧ endsWith jid (lit "@status") = false
    ∧ endsWith jid (lit "@broadcast") = false
    ∧ WAMessage.key msg ≫= WAMessage.fromMe ≠ Some true
    ∧ WAMessage.message msg = Some message
    ∧ trim (extract_text message) ≠ [] →
    ∃ m pre,
      handleIncomingMessage w userConn msg sock env = pre ++ [OnMessage m]
      ∧ Forall (λ e, is_callback e = false) pre
      ∧ (GroupMetadata sock jid ∈ pre ↔ isJidGroup jid = true)
      ∧ InboundMessage.userId m = UserConnection.userId userConn
      ∧ InboundMessage.chatId m = jid
      ∧ InboundMessage.text m = extract_text message
      ∧ (InboundMessage.metadata m ≫= Metadata.chatType)
        = Some (if isJidGroup jid then group else direct)
      ∧ (InboundMessage.metadata m ≫= Metadata.groupSubject)
        = (if isJidGroup jid
           then match groupMeta env with
                | Ret subject => subject
                | Throw _ => None
                end
           else None)).
  { intros jid message Hcb (Hjid & Hne & Hst & Hbc & Hme & Hmsg & Htext).
    destruct (handleIncomingMessage_passes w userConn msg sock env jid message
                Hjid Hne Hst Hbc Hme Hmsg Htext)
      as (m & Heffs & Hu & _ & Hchat & Htxt & Htype & Hsubj & _).
    rewrite Hcb in Heffs. rewrite Heffs, (assoc_L (++)).
    eexists m, _. split; [reflexivity|]. repeat split; try done.
    - destruct (isJidGroup jid), (truthy _); simpl; repeat constructor.
    - destruct (isJidGroup jid) eqn:Hg; [done|]. simpl.
      destruct (truthy _); simpl; [|by intros ?%elem_of_nil].
      intros Hin%list_elem_of_singleton. discriminate.
    - intros ->. simpl. left. }
  split; [|done]. split.
  - intros [m Hin].
    destruct (handleIncomingMessage_cases w userConn msg sock env)
      as [Hnil|(jid & message & Hpass)].
    { rewrite Hnil in Hin. by apply elem_of_nil in Hin. }
    split; [|by exists jid, message].
    destruct Hpass as (Hjid & Hne & Hst & Hbc & Hme & Hmsg & Htext).
    destruct (handleIncomingMessage_passes w userConn msg sock env jid message
                Hjid Hne Hst Hbc Hme Hmsg Htext) as (m' & Heffs & _).
    destruct (World.onMessageCallback w); [done|].
    rewrite Heffs, !elem_of_app in Hin. destruct Hin as [Hin|[Hin|Hin]].
    + destruct (isJidGroup jid); [|by apply elem_of_nil in Hin].
      apply list_elem_of_singleton in Hin. discriminate.
    + destruct (truthy _); [|by apply elem_of_nil in Hin].
      apply list_elem_of_singleton in Hin. discriminate.
    + by apply elem_of_nil in Hin.
  - intros (Hcb & jid & message & Hpass).
    destruct (Hshape jid message Hcb Hpass) as (m & pre & -> & _).
    exists m. apply elem_of_app. right. left.
Qed.
End Delivery.

(** ** Connecting a user *)

Lemma map_get_set_ne {V} (k k' : jsstring) (v : V) (m : list (jsstring * V)) :
  k' ≠ k → map_get k' (map_set k v m) = map_get k' m.
Proof.
  intros Hk. unfold map_get. induction m as [|[k0 v0] m IH]; simpl.
  - by rewrite (bool_decide_eq_false_2 (k = k')) by congruence.
  - case_bool_decide as H0; simpl in *.
    + subst k0. by rewrite !(bool_decide_eq_false_2 (k = k')) by congruence.
    + case_bool_decide; [done | apply IH].
Qed.

Lemma map_set_elem_of {V} (k : jsstring) (v : V) (m : list (jsstring * V))
    (e : jsstring * V) :
  e ∈ map_set k v m → e = (k, v) ∨ e ∈ m.
Proof.
  induction m as [|[k0 v0] m IH]; simpl.
  - intros ->%list_elem_of_singleton. by left.
  - case_bool_decide as H0; simpl in *.
    + intros [->|He]%elem_of_cons; [by left|]. right. by right.
    + intros [->|He]%elem_of_cons; [right; by left|].
      destruct (IH He) as [->|He']; [by left|]. right. by right.
Qed.

Lemma map_set_keys_unique {V} (k : jsstring) (v : V) (m : list (jsstring * V)) :
  NoDup m.*1 → NoDup (map_set k v m).*1.
Proof.
  induction m as [|[k0 v0] m IH]; simpl.
  - intros _. apply NoDup_singleton.
  - intros Hnd. pose proof (NoDup_cons_1_1 _ _ Hnd) as Hk0.
    apply NoDup_cons_1_2 in Hnd.
    case_bool_decide as H0; simpl in *.
    + subst k0. by apply NoDup_cons_2.
    + apply NoDup_cons_2; [|by apply IH].
      intros (e & He1 & He)%list_elem_of_fmap.
      destruct (map_set_elem_of k v m e He) as [->|He']; [by simpl in He1|].
      apply Hk0. apply list_elem_of_fmap. by exists e.
Qed.

Lemma map_delete_keys_unique {V} (k : jsstring) (m : list (jsstring * V)) :
  NoDup m.*1 → NoDup (map_delete k m).*1.
Proof.
  unfold map_delete. induction m as [|[k0 v0] m IH]; simpl; [done|].
  intros Hnd. pose proof (NoDup_cons_1_1 _ _ Hnd) as Hk0.
  apply NoDup_cons_1_2 in Hnd.
  destruct (negb _); simpl; [|by apply IH].
  apply NoDup_cons_2; [|by apply IH].
  intros (e & He1 & He)%list_elem_of_fmap. apply Hk0.
  apply list_elem_of_fmap. exists e. split; [done|].
  apply list_elem_of_In in He. apply filter_In in He as [He _].
  by apply list_elem_of_In.
Qed.

Lemma map_get_elem_of {V} (k : jsstring) (v : V) (m : list (jsstring * V)) :
  NoDup m.*1 → (k, v) ∈ m → map_get k m = Some v.
Proof.
  unfold map_get. induction m as [|[k0 v0] m IH]; simpl.
  - by intros _ ?%elem_of_nil.
  - intros Hnd. pose proof (NoDup_cons_1_1 _ _ Hnd) as Hk0.
    apply NoDup_cons_1_2 in Hnd.
    intros [[= <- <-]|He]%elem_of_cons.
    + by rewrite bool_decide_eq_true_2.
    + case_bool_decide as H0; simpl in *; [|by apply IH].
      subst k0. destruct Hk0. apply list_elem_of_fmap. by exists (k, v).
Qed.

Lemma map_get_Some_elem_of {V} (k : jsstring) (v : V) (m : list (jsstring * V)) :
  map_get k m = Some v → (k, v) ∈ m.
Proof.
  unfold map_get. induction m as [|[k0 v0] m IH]; simpl; [done|].
  case_bool_decide as H0; simpl in *.
  - intros [= <-]. subst k0. left.
  - intros Hm. right. by apply IH.
Qed.

Section ConnectUser.
Context `{Runtime}.

(** The test at the head of [connectUser]. *)
Lemma already_connected_spec (w : World) (userId : jsstring) :
  match conn_get w userId with
  | Some (_, existing) =>
      bool_decide (UserConnection.status existing = connected)
  | None => false
  end = true
  ↔ ∃ r c, conn_get w userId = Some (r, c)
           ∧ UserConnection.status c = connected.
Proof.
  destruct (conn_get w userId) as [[r c]|].
  - rewrite bool_decide_eq_true. split; [by exists r, c|].
    by intros (? & ? & [= <- <-] & ?).
  - split; [done|]. by intros (? & ? & ? & _).
Qed.

Lemma connectUser_fresh (w : World) (userId : jsstring)
    (credentials : list (jsstring * json number))
    (metadata : option Integration.Meta) (lib : outcome unit) :
  match conn_get w userId with
  | Some (_, existing) =>
      bool_decide (UserConnection.status existing = connected)
  | None => false
  end = false →
  connectUser w userId credentials metadata lib
  = let w1 :=
      set_disk w (writeCredentials (World.disk w) userId credentials).1 in
    match (writeCredentials (World.disk w) userId credentials).2 with
    | Throw e => (w1, [], Throw e)
    | Ret _ =>
        match extractPhone credentials metadata with
        | Throw e => (w1, [], Throw e)
        | Ret phone =>
            createSocket
              (set_connections
                 (set_store w1
                    (World.store w
                     ++ [UserConnection.mk userId None (getAuthDir userId)
                           connecting phone None None 0]))
                 (map_set userId (length (World.store w))
                    (World.connections w)))
              (length (World.store w)) lib
        end
    end.
Proof.
  unfold connectUser. intros ->.
  pose proof (writeCredentials_Ret (World.disk w) userId credentials) as Hdir.
  destruct (writeCredentials _ _ _) as [fs [dir|]]; [|done].
  cbn [fst snd] in *. by rewrite (Hdir dir eq_refl).
Qed.

(** X14.  [connectUser] does nothing (no write to the disk, no socket) for a
    user whose connection is [connected].  Otherwise it writes the
    credentials.  If a call of the file system throws while it does, or if
    the phone cannot be extracted, it stops there and passes the exception
    on, with the map, the store and the sockets as they were and the disk
    as the writes left it.  Else the map holds, for that user, a new
    connection in status [connecting] with counter 0, the user's directory
    and the extracted phone, and the socket just made (none if the library
    calls failed, whose failure is passed on).  The other entries of the map
    are the same, and no object that was in the store changes: a connection
    that is replaced keeps its socket, which is not ended. *)
Theorem connectUser_registers (w : World) (userId : jsstring)
    (credentials : list (jsstring * json number))
    (metadata : option Integration.Meta) (lib : outcome unit) :
  let already :=
    ∃ r c, conn_get w userId = Some (r, c)
           ∧ UserConnection.status c = connected in
  let after := connectUser w userId credentials metadata lib in
  let written := (writeCredentials (World.disk w) userId credentials).1 in
  let wrote := (writeCredentials (World.disk w) userId credentials).2 in
  (already → after = (w, [], Ret ()))
  ∧ (¬ already → ∀ e,
       wrote = Throw e → after = (set_disk w written, [], Throw e))
  ∧ (¬ already → returned wrote = true → ∀ e,
       extractPhone credentials metadata = Throw e →
       after = (set_disk w written, [], Throw e))
  ∧ (¬ already → returned wrote = true → ∀ phone,
       extractPhone credentials metadata = Ret phone →
       conn_get after.1.1 userId
       = Some (length (World.store w),
               UserConnection.mk userId
                 (match lib with
                  | Ret _ => Some (length (World.sockets w))
                  | Throw _ => None
                  end)
                 (getAuthDir userId) connecting phone None None 0)
       ∧ (∀ r, r < length (World.store w) →
               World.store after.1.1 !! r = World.store w !! r)
       ∧ (∀ other, other ≠ userId →
                   map_get other (World.connections after.1.1)
                   = map_get other (World.connections w))
       ∧ World.disk after.1.1 = written
       ∧ after.1.2
         = match lib with
           | Ret _ => [MakeSocket (length (World.sockets w)) (getAuthDir userId)]
           | Throw _ => []
           end
       ∧ after.2 = lib).
Proof.
  cbv zeta. pose proof (already_connected_spec w userId) as Hspec.
  destruct (match conn_get w userId with
            | Some (_, existing) =>
                bool_decide (UserConnection.status existing = connected)
            | None => false
            end) eqn:Htest.
  - assert (Hal : ∃ r c, conn_get w userId = Some (r, c)
                         ∧ UserConnection.status c = connected)
      by by apply Hspec.
    split; [|split; [|split]; intros Hn; by destruct Hn].
    intros _. unfold connectUser. by rewrite Htest.
  - split; [intros Hal; apply Hspec in Hal; discriminate|].
    rewrite (connectUser_fresh w userId credentials metadata lib Htest).
    cbv zeta. split; [|split].
    + intros _ e ->. done.
    + intros _ Hret e ->.
      by destruct (writeCredentials _ _ _).2.
    + intros _ Hret phone ->.
      destruct (writeCredentials _ _ _).2 as [dir|]; [|done].
      unfold createSocket.
      destruct lib as [[]|e]; simpl.
      * repeat split; try done.
        -- unfold conn_get. simpl. rewrite map_get_set_eq.
           rewrite list_lookup_alter_eq, list_lookup_middle by done. done.
        -- intros r Hr. rewrite list_lookup_alter_ne by lia.
           by rewrite lookup_app_l.
        -- intros other Hne. by apply map_get_set_ne.
        -- by rewrite list_lookup_middle.
      * repeat split; try done.
        -- unfold conn_get. simpl. rewrite map_get_set_eq.
           by rewrite list_lookup_middle.
        -- intros r Hr. by rewrite lookup_app_l.
        -- intros other Hne. by apply map_get_set_ne.
Qed.
End ConnectUser.

(** ** Consistency of the states the process reaches *)

Lemma consistent_frame (w w' : World) :
  World.connections w' = World.connections w →
  World.store w' = World.store w →
  World.sockets w' = World.sockets w →
  World.timers w' = World.timers w →
  consistent w → consistent w'.
Proof.
  intros Hc Hs Hk Ht [H1 H2 H3 H4 H5 H6].
  split; rewrite ?Hc, ?Hs, ?Hk, ?Ht; done.
Qed.

(** One object of the store is replaced by one with the same user and
    socket. *)
Lemma consistent_store_update (w : World) (store' : list UserConnection)
    (r : Ref) (c c' : UserConnection) :
  consistent w →
  World.store w !! r = Some c →
  store' !! r = Some c' →
  (∀ r', r' ≠ r → store' !! r' = World.store w !! r') →
  length store' = length (World.store w) →
  UserConnection.userId c' = UserConnection.userId c →
  UserConnection.socket c' = UserConnection.socket c →
  (UserConnection.status c' = connected → is_Some (UserConnection.socket c)) →
  consistent (set_store w store').
Proof.
  intros [H1 H2 H3 H4 H5 H6] Hr Hr' Hother Hlen Huser Hsock Hconn.
  split; simpl.
  - intros userId r0 Hin. destruct (H1 userId r0 Hin) as (c0 & Hc0 & Hu).
    destruct (decide (r0 = r)) as [->|Hne].
    + exists c'. split; [done|]. congruence.
    + exists c0. by rewrite Hother.
  - done.
  - intros sock r0 Hs. destruct (H3 sock r0 Hs) as (c0 & Hc0 & Hsome).
    destruct (decide (r0 = r)) as [->|Hne].
    + exists c'. split; [done|]. rewrite Hsock. congruence.
    + exists c0. by rewrite Hother.
  - intros r0 c0 sock Hc0 Hs. destruct (decide (r0 = r)) as [->|Hne].
    + apply (H4 r c sock Hr). congruence.
    + rewrite Hother in Hc0 by done. by apply (H4 r0 c0 sock).
  - intros r0 c0 Hc0 Hst. destruct (decide (r0 = r)) as [->|Hne].
    + rewrite Hr' in Hc0. injection Hc0 as <-. rewrite Hsock. by apply Hconn.
    + rewrite Hother in Hc0 by done. by apply (H5 r0 c0).
  - intros i r0 Ht. rewrite Hlen. by apply (H6 i r0).
Qed.

Lemma consistent_timers (w : World) (timers' : list Ref) :
  consistent w →
  (∀ i r, timers' !! i = Some r → r < length (World.store w)) →
  consistent (set_timers w timers').
Proof. intros [H1 H2 H3 H4 H5 H6] Ht. by split. Qed.

Lemma createSocket_consistent (w : World) (r : Ref) (lib : outcome unit) :
  consistent w → r < length (World.store w) →
  consistent (createSocket w r lib).1.1.
Proof.
  intros [H1 H2 H3 H4 H5 H6] Hr. unfold createSocket.
  destruct lib as [[]|e]; [|by split]. simpl.
  destruct (lookup_lt_is_Some_2 _ _ Hr) as [c Hc].
  assert (Hnew : alter (λ c, rebound c (length (World.sockets w))) r
                   (World.store w) !! r
                 = Some (rebound c (length (World.sockets w)))).
  { by rewrite list_lookup_alter_eq, Hc. }
  split; simpl.
  - intros userId r0 Hin. destruct (H1 userId r0 Hin) as (c0 & Hc0 & Hu).
    destruct (decide (r0 = r)) as [->|Hne].
    + eexists. split; [exact Hnew|]. simpl. congruence.
    + exists c0. by rewrite list_lookup_alter_ne.
  - done.
  - intros sock r0 Hs. apply lookup_snoc_Some in Hs as [[_ Hs]|[_ <-]].
    + destruct (H3 sock r0 Hs) as (c0 & Hc0 & Hsome).
      destruct (decide (r0 = r)) as [->|Hne].
      * eexists. split; [exact Hnew|]. by eexists.
      * exists c0. by rewrite list_lookup_alter_ne.
    + eexists. split; [exact Hnew|]. by eexists.
  - intros r0 c0 sock Hc0 Hs. destruct (decide (r0 = r)) as [->|Hne].
    + rewrite Hnew in Hc0. injection Hc0 as <-. simpl in Hs.
      injection Hs as <-. by apply list_lookup_middle.
    + rewrite list_lookup_alter_ne in Hc0 by done.
      apply lookup_app_l_Some. by apply (H4 r0 c0 sock).
  - intros r0 c0 Hc0 Hst. destruct (decide (r0 = r)) as [->|Hne].
    + rewrite Hnew in Hc0. injection Hc0 as <-. by eexists.
    + rewrite list_lookup_alter_ne in Hc0 by done. by apply (H5 r0 c0).
  - intros i r0 Ht. rewrite length_alter. by apply (H6 i r0).
Qed.

Section Consistency.
Context `{Runtime}.
Implicit Types (w : World).

Lemma connectUser_consistent w userId credentials metadata lib :
  consistent w →
  consistent (connectUser w userId credentials metadata lib).1.1.
Proof.
  intros Hw.
  destruct (match conn_get w userId with
            | Some (_, existing) =>
                bool_decide (UserConnection.status existing = connected)
            | None => false
            end) eqn:Htest.
  { unfold connectUser. by rewrite Htest. }
  rewrite (connectUser_fresh w userId credentials metadata lib Htest).
  cbv zeta.
  destruct (writeCredentials _ _ _).2 as [dir|e];
    [|simpl; by apply (consistent_frame w)].
  destruct (extractPhone credentials metadata) as [phone|e].
  2: { simpl. by apply (consistent_frame w). }
  apply createSocket_consistent; [|simpl; rewrite length_app; simpl; lia].
  destruct Hw as [H1 H2 H3 H4 H5 H6]. split; simpl.
  - intros u r0 Hin. apply map_set_elem_of in Hin as [[= -> ->]|Hin].
    + eexists. by rewrite list_lookup_middle.
    + destruct (H1 u r0 Hin) as (c0 & Hc0 & Hu). exists c0.
      split; [by apply lookup_app_l_Some | done].
  - by apply map_set_keys_unique.
  - intros sock r0 Hs. destruct (H3 sock r0 Hs) as (c0 & Hc0 & Hsome).
    exists c0. split; [by apply lookup_app_l_Some | done].
  - intros r0 c0 sock Hc0 Hs.
    apply lookup_snoc_Some in Hc0 as [[_ Hc0]|[_ <-]]; [|done].
    by apply (H4 r0 c0 sock).
  - intros r0 c0 Hc0 Hst.
    apply lookup_snoc_Some in Hc0 as [[_ Hc0]|[_ <-]]; [|done].
    by apply (H5 r0 c0).
  - intros i r0 Ht. rewrite length_app. pose proof (H6 i r0 Ht). lia.
Qed.

Lemma connection_update_consistent w sock update sockUser now :
  consistent w →
  consistent (connection_update w sock update sockUser now).1.
Proof.
  intros Hw. unfold connection_update.
  destruct (World.sockets w !! sock) as [r|] eqn:Hsock; [|done].
  destruct (socket_owner w Hw sock r Hsock) as (c & Hc & Hsome).
  destruct (connection update) as [[]|]; try done; simpl.
  - apply (consistent_store_update w _ r c (on_open c sockUser now)); try done.
    + by rewrite list_lookup_alter_eq, Hc.
    + intros r' Hr'. by rewrite list_lookup_alter_ne.
    + by rewrite length_alter.
  - rewrite Hc.
    assert (Hlen : r < length (World.store w)) by by eapply lookup_lt_Some.
    assert (Hupd : ∀ c', UserConnection.userId c' = UserConnection.userId c →
                         UserConnection.socket c' = UserConnection.socket c →
                         consistent (set_store w (<[r := c']> (World.store w)))).
    { intros c' Hu Hs.
      apply (consistent_store_update w _ r c c'); try done.
      - by rewrite list_lookup_insert_eq.
      - intros r' Hr'. by rewrite list_lookup_insert_ne.
      - by rewrite length_insert. }
    unfold on_close.
    destruct (_ && _).
    + apply (consistent_timers (set_store w _)); [by apply Hupd|].
      simpl. intros i r0 Hi. rewrite length_insert.
      apply lookup_snoc_Some in Hi as [[_ Hi]|[_ <-]]; [|done].
      by apply (timer_allocated w Hw i).
    + destruct (bool_decide _); by apply Hupd.
Qed.

Lemma timer_fires_consistent w i lib :
  consistent w → consistent (timer_fires w i lib).1.1.
Proof.
  intros Hw. unfold timer_fires.
  destruct (World.timers w !! i) as [r|] eqn:Hi; [|done].
  apply createSocket_consistent; [|by apply (timer_allocated w Hw i)].
  apply consistent_timers; [done|]. intros j r0 Hj.
  destruct (decide (j < i)) as [Hlt|Hge].
  - rewrite list_lookup_delete_lt in Hj by done.
    by apply (timer_allocated w Hw j).
  - rewrite list_lookup_delete_ge in Hj by lia.
    by apply (timer_allocated w Hw (S j)).
Qed.

Lemma disconnectUser_consistent w userId :
  consistent w → consistent (disconnectUser w userId).1.
Proof.
  intros [H1 H2 H3 H4 H5 H6]. unfold disconnectUser. split; simpl; try done.
  - intros u r0 [Hin _]%map_delete_elem_of. by apply H1.
  - by apply map_delete_keys_unique.
Qed.

Lemma shutdown_consistent w : consistent w → consistent (shutdown w).1.
Proof.
  intros Hw. unfold shutdown.
  match goal with
  | |- context [foldl ?f ?a ?l] =>
      assert (Hfold : consistent (foldl f a l).1)
  end.
  { apply (foldl_preserves (λ acc : World * list Effect, consistent acc.1));
      [|done].
    intros [w0 effs0] e Hw0. simpl in *.
    by apply (disconnectUser_consistent w0 e.1). }
  destruct (foldl _ _ _) as [w' effs]. simpl in *.
  by apply (consistent_frame w').
Qed.

Lemma initialize_consistent w env :
  consistent w → consistent (initialize w env).1.
Proof.
  intros Hw. unfold initialize. destruct (World.isInitialized w); [done|].
  destruct (fetchIntegrations _ _) as [integrations fetched].
  match goal with
  | |- context [foldl ?f ?a ?l] =>
      assert (Hfold : consistent (foldl f a l).1)
  end.
  { apply (foldl_preserves (λ acc : World * list Effect, consistent acc.1));
      [|done].
    intros [w' effs] [i integration] Hw'. simpl in *.
    pose proof (connectUser_consistent w' (Integration.userId integration)
                  (default [] (Integration.credentials integration))
                  (Integration.metadata integration) (socket_lib env i) Hw')
      as Hc.
    by destruct (connectUser _ _ _ _ _) as [[??]?]. }
  destruct (foldl _ _ _) as [w' effs]. simpl in *.
  by apply (consistent_frame w').
Qed.

Lemma step_consistent w a : consistent w → consistent (step w a).1.
Proof.
  intros Hw. destruct a; simpl; try done.
  - by apply (consistent_frame w).
  - by apply (consistent_frame w).
  - by apply initialize_consistent.
  - by apply connectUser_consistent.
  - by apply connection_update_consistent.
  - by apply timer_fires_consistent.
  - by apply disconnectUser_consistent.
  - by apply shutdown_consistent.
Qed.

Lemma initial_consistent (fs : FileSystem) : consistent (initial fs).
Proof.
  split; simpl; try done.
  - by intros ?? ?%elem_of_nil.
  - apply NoDup_nil_2.
Qed.

Lemma run_consistent w actions : consistent w → consistent (run w actions).
Proof.
  intros Hw. unfold run. apply (foldl_preserves consistent); [|done].
  intros w' a. apply step_consistent.
Qed.
End Consistency.

Lemma entries_elem_of (w : World) (userId : jsstring) (c : UserConnection) :
  (userId, c) ∈ entries w
  ↔ ∃ r, (userId, r) ∈ World.connections w ∧ World.store w !! r = Some c.
Proof.
  unfold entries. rewrite list_elem_of_omap. split.
  - intros ([u r] & Hin & Hc). simpl in Hc.
    destruct (World.store w !! r) as [c0|] eqn:Hr; simplify_eq/=.
    by exists r.
  - intros (r & Hin & Hr). exists (userId, r). split; [done|]. simpl.
    by rewrite Hr.
Qed.

Lemma consistent_conn_get (w : World) (userId : jsstring) (c : UserConnection) :
  consistent w →
  ((userId, c) ∈ entries w ↔ ∃ r, conn_get w userId = Some (r, c)).
Proof.
  intros Hw. rewrite entries_elem_of. unfold conn_get. split.
  - intros (r & Hin & Hr). exists r.
    by rewrite (map_get_elem_of userId r _ (map_keys_unique w Hw) Hin), Hr.
  - intros (r & Hget).
    destruct (map_get userId (World.connections w)) as [r0|] eqn:Hm; [|done].
    destruct (World.store w !! r0) as [c0|] eqn:Hr0; simplify_eq.
    exists r. split; [by apply map_get_Some_elem_of | done].
Qed.

Lemma consistent_connected_ids (w : World) (userId : jsstring) :
  consistent w →
  (userId ∈ getConnectedUserIds w
   ↔ ∃ r c, conn_get w userId = Some (r, c)
            ∧ UserConnection.status c = connected).
Proof.
  intros Hw. unfold getConnectedUserIds. rewrite list_elem_of_fmap. split.
  - intros ([u c] & -> & Hin). simpl.
    apply list_elem_of_In, filter_In in Hin as [Hin Hst].
    apply list_elem_of_In in Hin. apply bool_decide_eq_true in Hst.
    apply (consistent_conn_get w u c Hw) in Hin as [r Hr]. by exists r, c.
  - intros (r & c & Hget & Hst). exists (userId, c). split; [done|].
    apply list_elem_of_In, filter_In. split.
    + apply list_elem_of_In, (consistent_conn_get w userId c Hw). by exists r.
    + by apply bool_decide_eq_true.
Qed.

Section Reachable.
Context `{Runtime}.

(** X15.  In every state the process reaches, the map has one entry per user
    id, and the entry of a user holds a connection object whose [userId] is
    that user; so iterating the map and looking a user up agree: the
    connected user ids are exactly the users whose looked-up connection is
    [connected].  Every pending reconnect timer holds an object of the
    store. *)
Theorem reachable_one_connection_per_user (fs : FileSystem)
    (actions : list Action) :
  let w := run (initial fs) actions in
  NoDup (World.connections w).*1
  ∧ (∀ userId r, (userId, r) ∈ World.connections w →
       ∃ c, conn_get w userId = Some (r, c)
            ∧ UserConnection.userId c = userId)
  ∧ (∀ userId c, (userId, c) ∈ entries w
                 ↔ ∃ r, conn_get w userId = Some (r, c))
  ∧ (∀ userId, userId ∈ getConnectedUserIds w
               ↔ ∃ r c, conn_get w userId = Some (r, c)
                        ∧ UserConnection.status c = connected)
  ∧ (∀ i r, World.timers w !! i = Some r → is_Some (World.store w !! r)).
Proof.
  intros w.
  assert (Hw : consistent w) by apply run_consistent, initial_consistent.
  split; [apply (map_keys_unique w Hw)|]. split; [|split; [|split]].
  - intros userId r Hin.
    destruct (map_allocated w Hw userId r Hin) as (c & Hc & Hu).
    exists c. split; [|done]. unfold conn_get.
    by rewrite (map_get_elem_of userId r _ (map_keys_unique w Hw) Hin), Hc.
  - intros userId c. by apply consistent_conn_get.
  - intros userId. by apply consistent_connected_ids.
  - intros i r Hi. apply lookup_lt_is_Some_2.
    by apply (timer_allocated w Hw i).
Qed.

(** X16.  In every state the process reaches, a connection whose status is
    [connected] has a socket, the socket a connection holds is one whose
    handlers were registered for that same connection, and no two
    connection objects hold the same socket. *)
Theorem reachable_socket_ownership (fs : FileSystem) (actions : list Action) :
  let w := run (initial fs) actions in
  (∀ r c, World.store w !! r = Some c →
     UserConnection.status c = connected →
     ∃ sock, UserConnection.socket c = Some sock
             ∧ World.sockets w !! sock = Some r)
  ∧ (∀ r c sock, World.store w !! r = Some c →
       UserConnection.socket c = Some sock →
       World.sockets w !! sock = Some r)
  ∧ (∀ r1 r2 c1 c2 sock,
       World.store w !! r1 = Some c1 → World.store w !! r2 = Some c2 →
       UserConnection.socket c1 = Some sock →
       UserConnection.socket c2 = Some sock → r1 = r2).
Proof.
  intros w.
  assert (Hw : consistent w) by apply run_consistent, initial_consistent.
  split; [|split].
  - intros r c Hc Hst.
    destruct (connected_has_socket w Hw r c Hc Hst) as [sock Hs].
    exists sock. split; [done|]. by apply (socket_bound w Hw r c).
  - intros r c sock. apply (socket_bound w Hw).
  - intros r1 r2 c1 c2 sock Hc1 Hc2 Hs1 Hs2.
    pose proof (socket_bound w Hw r1 c1 sock Hc1 Hs1).
    pose proof (socket_bound w Hw r2 c2 sock Hc2 Hs2). congruence.
Qed.

(** X17.  In a state the process reaches, a valid request for ["whatsapp"]
    that names no user, made while exactly one user is connected, always
    gets as far as that user's socket: the route makes one send call on the
    socket of that user's connection (it never answers "User not connected"
    or "Connection status"), and answers 200 with the message id when the
    socket accepts and 500 with the socket's error when it rejects. *)
Theorem send_route_infers_user (fs : FileSystem) (actions : list Action)
    (payload : OutboundPayload) (net : outcome (option jsstring))
    (userId chatId text : jsstring) :
  let w := run (initial fs) actions in
  OutboundPayload.integrationId payload = Some (lit "whatsapp") →
  OutboundPayload.chatId payload = Some chatId → chatId ≠ [] →
  OutboundPayload.text payload = Some text → text ≠ [] →
  truthy (OutboundPayload.userId payload) = false →
  getConnectedUserIds w = [userId] →
  ∃ r c sock,
    conn_get w userId = Some (r, c)
    ∧ UserConnection.socket c = Some sock
    ∧ (handler w (Request.mk (lit "POST") (Ret payload)) net).2
      = [SocketSendMessage sock chatId
           (build_content text (first_media_url payload))]
    ∧ (handler w (Request.mk (lit "POST") (Ret payload)) net).1
      = match net with
        | Ret id => HttpResponse.mk 200 (SendResult.mk true id None)
        | Throw e =>
            HttpResponse.mk 500
              (SendResult.mk false None
                 (Some (message_or e (lit "Send failed"))))
        end.
Proof.
  intros w Hint Hchat Hchat_ne Htext Htext_ne Hu Hone.
  assert (Hw : consistent w) by apply run_consistent, initial_consistent.
  assert (Hin : userId ∈ getConnectedUserIds w) by (rewrite Hone; left).
  apply (consistent_connected_ids w userId Hw) in Hin as (r & c & Hget & Hst).
  assert (Hr : World.store w !! r = Some c).
  { unfold conn_get in Hget.
    destruct (map_get userId (World.connections w)) as [r0|]; [|done].
    destruct (World.store w !! r0) eqn:Hr0; by simplify_eq. }
  destruct (connected_has_socket w Hw r c Hr Hst) as [sock Hsock].
  exists r, c, sock. split; [done|]. split; [done|].
  unfold handler. simpl. rewrite Hint, Hchat, Htext. simpl.
  destruct chatId as [|c0 chatId]; [done|].
  destruct text as [|t0 text]; [done|]. simpl.
  rewrite (resolve_user_only w payload userId Hu Hone). simpl.
  unfold sendMessage. rewrite Hget, Hsock.
  rewrite (bool_decide_eq_true_2 _ Hst). simpl.
  by destruct net.
Qed.
End Reachable.

(** ** The reconnect budget *)

Lemma timers_set_app (r : Ref) (a b : list Effect) :
  timers_set r (a ++ b) = timers_set r a + timers_set r b.
Proof. unfold timers_set. by rewrite List.filter_app, length_app. Qed.

Lemma createSocket_quiet (w : World) (r0 r : Ref) (lib : outcome unit) :
  timers_set r (createSocket w r0 lib).1.2 = 0
  ∧ attempts_at (createSocket w r0 lib).1.1 r = attempts_at w r.
Proof.
  unfold createSocket, attempts_at. destruct lib; [|done]. simpl.
  split; [done|]. destruct (decide (r0 = r)) as [->|Hne].
  - rewrite list_lookup_alter_eq. by destruct (World.store w !! r).
  - by rewrite list_lookup_alter_ne.
Qed.

Lemma disconnectUser_quiet (w : World) (userId : jsstring) (r : Ref) :
  timers_set r (disconnectUser w userId).2 = 0.
Proof.
  unfold disconnectUser. simpl. destruct (conn_get w userId) as [[? c]|]; [|done].
  by destruct (UserConnection.socket c).
Qed.

Lemma sendMessage_quiet (w : World) (userId chatId text : jsstring)
    (mediaUrl : option jsstring) (net : outcome (option jsstring)) (r : Ref) :
  timers_set r (sendMessage w userId chatId text mediaUrl net).2 = 0.
Proof.
  destruct (sendMessage_effects_inv w userId chatId text mediaUrl net)
    as [->|(? & ? & ? & _ & _ & _ & ->)]; done.
Qed.

Section Budget.
Context `{Runtime}.
Implicit Types (w : World) (r : Ref).

Lemma handleIncomingMessage_quiet w userConn msg sock env r :
  timers_set r (handleIncomingMessage w userConn msg sock env) = 0.
Proof.
  destruct (handleIncomingMessage_cases w userConn msg sock env)
    as [->|(jid & message & Hjid & Hne & Hst & Hbc & Hme & Hmsg & Htext)];
    [done|].
  destruct (handleIncomingMessage_passes w userConn msg sock env jid message
              Hjid Hne Hst Hbc Hme Hmsg Htext) as (m & -> & _).
  rewrite !timers_set_app.
  by destruct (isJidGroup jid), (truthy _), (World.onMessageCallback w).
Qed.

Lemma messages_upsert_quiet w sock type messages r :
  timers_set r (messages_upsert w sock type messages) = 0.
Proof.
  unfold messages_upsert. destruct (negb _); [done|].
  destruct (_ ≫= _) as [userConn|]; [|done].
  induction (default [] messages) as [|me l IH]; [done|].
  rewrite fmap_cons, concat_cons, timers_set_app, IH.
  by rewrite handleIncomingMessage_quiet.
Qed.

Lemma connectUser_quiet w userId credentials metadata lib r :
  timers_set r (connectUser w userId credentials metadata lib).1.2 = 0
  ∧ attempts_at (connectUser w userId credentials metadata lib).1.1 r
    = attempts_at w r.
Proof.
  destruct (match conn_get w userId with
            | Some (_, existing) =>
                bool_decide (UserConnection.status existing = connected)
            | None => false
            end) eqn:Htest.
  { unfold connectUser. by rewrite Htest. }
  rewrite (connectUser_fresh w userId credentials metadata lib Htest).
  cbv zeta. destruct (writeCredentials _ _ _).2 as [dir|e]; [|done].
  destruct (extractPhone credentials metadata) as [phone|e]; [|done].
  match goal with
  | |- context [createSocket ?w0 ?r0 lib] =>
      destruct (createSocket_quiet w0 r0 r lib) as [-> ->]
  end.
  split; [done|]. unfold attempts_at. simpl.
  destruct (decide (r < length (World.store w))) as [Hlt|Hge].
  - by rewrite lookup_app_l.
  - rewrite (lookup_ge_None_2 (World.store w)) by lia.
    destruct (decide (r = length (World.store w))) as [->|Hne].
    + by rewrite list_lookup_middle.
    + rewrite lookup_ge_None_2; [done|]. rewrite length_app. simpl. lia.
Qed.

Lemma initialize_quiet w env r :
  timers_set r (initialize w env).2 = 0
  ∧ attempts_at (initialize w env).1 r = attempts_at w r.
Proof.
  unfold initialize. destruct (World.isInitialized w); [done|].
  assert (Hfetch : timers_set r
            (fetchIntegrations w (integrations_response env)).2 = 0).
  { unfold fetchIntegrations. by destruct (negb _). }
  destruct (fetchIntegrations _ _) as [integrations fetched]. simpl in Hfetch.
  match goal with
  | |- context [foldl ?f ?a ?l] =>
      assert (Hfold : timers_set r (foldl f a l).2 = 0
                      ∧ attempts_at (foldl f a l).1 r = attempts_at w r)
  end.
  { apply (foldl_preserves
             (λ acc : World * list Effect,
                timers_set r acc.2 = 0
                ∧ attempts_at acc.1 r = attempts_at w r)); [|done].
    intros [w' effs] [i integration] [Heffs Hatt]. simpl in *.
    destruct (connectUser_quiet w' (Integration.userId integration)
                (default [] (Integration.credentials integration))
                (Integration.metadata integration) (socket_lib env i) r)
      as [Hq Ha].
    destruct (connectUser _ _ _ _ _) as [[w'' effs''] res]. simpl in *.
    by rewrite timers_set_app, Heffs, Hq, Ha. }
  by destruct (foldl _ _ _).
Qed.

Lemma shutdown_quiet w r :
  timers_set r (shutdown w).2 = 0
  ∧ attempts_at (shutdown w).1 r = attempts_at w r.
Proof.
  pose proof (shutdown_store w) as Hstore. unfold attempts_at.
  rewrite Hstore. split; [|done]. unfold shutdown.
  match goal with
  | |- context [foldl ?f ?a ?l] =>
      assert (Hfold : timers_set r (foldl f a l).2 = 0)
  end.
  { apply (foldl_preserves
             (λ acc : World * list Effect, timers_set r acc.2 = 0)); [|done].
    intros [w' effs] e Heffs. simpl in *.
    pose proof (disconnectUser_quiet w' e.1 r) as Hq.
    unfold disconnectUser in *. simpl in *.
    by rewrite timers_set_app, Heffs, Hq. }
  by destruct (foldl _ _ _).
Qed.

Lemma on_close_counts (c : UserConnection) (code : option Z) :
  UserConnection.reconnectAttempts (on_close c code).1
  = (UserConnection.reconnectAttempts c
     + if (on_close c code).2 then 1 else 0)%Z.
Proof.
  unfold on_close. destruct (_ && _); simpl; [done|].
  destruct (bool_decide _); simpl; lia.
Qed.

Lemma step_counts w a r :
  is_open_event a = false →
  (Z.of_nat (timers_set r (step w a).2) + attempts_at w r)%Z
  = attempts_at (step w a).1 r.
Proof.
  intros Ha. destruct a; cbn [step fst snd].
  - done.
  - done.
  - by destruct (initialize_quiet w env r) as [-> ->].
  - by destruct (connectUser_quiet w userId credentials metadata lib r)
      as [-> ->].
  - unfold connection_update.
    destruct (World.sockets w !! sock) as [r0|]; [|done].
    simpl in Ha. destruct (connection update) as [[]|]; try done.
    destruct (World.store w !! r0) as [c|] eqn:Hc; [|done].
    pose proof (on_close_counts c (statusCode update)) as Hcount.
    assert (Hlen : r0 < length (World.store w)) by by eapply lookup_lt_Some.
    destruct (on_close c (statusCode update)) as [c' timer]. simpl in Hcount.
    unfold attempts_at.
    destruct (decide (r0 = r)) as [->|Hne].
    + destruct timer; simpl; rewrite list_lookup_insert_eq by done;
        rewrite Hc; unfold timers_set; simpl;
        rewrite ?bool_decide_eq_true_2 by done; simpl; lia.
    + destruct timer; simpl; rewrite list_lookup_insert_ne by done;
        unfold timers_set; simpl;
        rewrite ?bool_decide_eq_false_2 by done; simpl; lia.
  - unfold timer_fires. destruct (World.timers w !! i); [|done].
    match goal with
    | |- context [createSocket ?w0 ?r0 lib] =>
        destruct (createSocket_quiet w0 r0 r lib) as [-> ->]
    end.
    done.
  - by rewrite messages_upsert_quiet.
  - by rewrite sendMessage_quiet.
  - by rewrite disconnectUser_quiet.
  - by destruct (shutdown_quiet w r) as [-> ->].
Qed.

Lemma run_counts w actions r :
  Forall (λ a, is_open_event a = false) actions →
  (Z.of_nat (timers_set r (trace w actions)) + attempts_at w r)%Z
  = attempts_at (run w actions) r.
Proof.
  intros Ha. revert w. induction Ha as [|a actions Ha _ IH]; intros w; simpl.
  - done.
  - rewrite timers_set_app, <- (IH (step w a).1), <- (step_counts w a r Ha).
    lia.
Qed.

Lemma attempts_at_bounded w r :
  Forall attempts_bounded (World.store w) → (0 ≤ attempts_at w r ≤ 3)%Z.
Proof.
  intros Hw. unfold attempts_at.
  destruct (World.store w !! r) as [c|] eqn:Hc; simpl; [|lia].
  rewrite Forall_lookup in Hw. apply (Hw r c Hc).
Qed.

(** X18.  Between two handshakes the reconnect timers of a connection are
    counted by its counter: along any run of the process in which no socket
    reports an open connection, the number of timers set for a connection,
    added to its counter before the run, is its counter after the run.  As
    the counter never exceeds 3, at most [3 - counter] timers, and so at
    most 3, are set for a connection before its next handshake. *)
Theorem reconnect_budget (fs : FileSystem) (before actions : list Action)
    (r : Ref) :
  Forall (λ a, is_open_event a = false) actions →
  let w := run (initial fs) before in
  (Z.of_nat (timers_set r (trace w actions)) + attempts_at w r)%Z
  = attempts_at (run w actions) r
  ∧ (Z.of_nat (timers_set r (trace w actions)) ≤ 3 - attempts_at w r)%Z
  ∧ timers_set r (trace w actions) ≤ 3.
Proof.
  intros Ha w. pose proof (run_counts w actions r Ha) as Hcount.
  assert (Hw : Forall attempts_bounded (World.store w)).
  { apply run_bounded. constructor. }
  pose proof (attempts_at_bounded w r Hw).
  pose proof (attempts_at_bounded (run w actions) r
                (run_bounded w actions Hw)).
  split; [done|]. split; lia.
Qed.
End Budget.

(** ** What the credential store leaves on the disk *)

Section CredentialFiles.
Context `{Runtime}.
Implicit Types (fs : FileSystem) (p authDir credsPath : jsstring).

(** A file that no entry is written to is left alone by the loop, whether
    the loop ends or is stopped by an exception. *)
Lemma write_entries_frame authDir credentials p fs :
  (∀ key value, (key, value) ∈ credentials → value ≠ JNull →
     path_join [authDir; key ++ lit ".json"] ≠ p) →
  FileSystem.files (write_entries authDir fs credentials).1 !! p
  = FileSystem.files fs !! p.
Proof.
  revert fs. induction credentials as [|[k v] cs IH]; intros fs Hp; [done|].
  cbn [write_entries].
  destruct (write_entry authDir fs (k, v)) as [fs1|e] eqn:He; [|done].
  rewrite IH by (intros key value Hin; apply Hp; by right).
  destruct (write_entry_Ret _ _ _ _ He) as [_ ->].
  unfold entry_content. cbn [fst snd].
  destruct v; [done|..];
    (rewrite bool_decide_eq_false_2; [done|]; eapply (Hp k); [left | done]).
Qed.

Lemma after_entries_cons authDir entry credentials p before :
  after_entries authDir (entry :: credentials) p before
  = after_entries authDir credentials p
      (from_option Some before (entry_content authDir entry p)).
Proof. done. Qed.

Lemma after_entries_app authDir credentials credentials' p before :
  after_entries authDir (credentials ++ credentials') p before
  = after_entries authDir credentials' p
      (after_entries authDir credentials p before).
Proof. apply foldl_app. Qed.

Lemma after_entries_frame authDir credentials p before :
  (∀ key value, (key, value) ∈ credentials → value ≠ JNull →
     path_join [authDir; key ++ lit ".json"] ≠ p) →
  after_entries authDir credentials p before = before.
Proof.
  revert before. induction credentials as [|[k v] cs IH]; intros before Hp;
    [done|].
  rewrite after_entries_cons.
  rewrite IH by (intros key value Hin; apply Hp; by right).
  unfold entry_content. cbn [fst snd].
  destruct v; [done|..];
    (rewrite bool_decide_eq_false_2; [done|]; eapply (Hp k); [left | done]).
Qed.

Lemma entry_content_stored authDir key value :
  value ≠ JNull →
  entry_content authDir (key, value) (path_join [authDir; key ++ lit ".json"])
  = Some (JSON_stringify 2 value).
Proof.
  intros Hv. unfold entry_content. cbn [fst snd].
  destruct value; [done|..]; by rewrite bool_decide_eq_true_2.
Qed.

(** X19.  A file other than [creds.json] that no non-null entry is written
    to is left as it was by [writeCredentials] (entries with a null value
    write nothing), also when a call of the file system throws.  When none
    does, [writeCredentials] returns the user's directory, which exists
    afterwards, and a non-null entry whose file is not [creds.json] and is
    not written again by a later entry can be read back as
    [JSON.stringify(value, null, 2)]. *)
Theorem writeCredentials_files fs (userId : jsstring)
    (credentials : list (jsstring * json number)) :
  let authDir := getAuthDir userId in
  let credsPath := path_join [authDir; lit "creds.json"] in
  let file (key : jsstring) := path_join [authDir; key ++ lit ".json"] in
  let fs' := (writeCredentials fs userId credentials).1 in
  let wrote := (writeCredentials fs userId credentials).2 in
  (returned wrote = true →
   wrote = Ret authDir ∧ authDir ∈ FileSystem.dirs fs')
  ∧ (∀ p, p ≠ credsPath →
       (∀ key value, (key, value) ∈ credentials → value ≠ JNull →
          file key ≠ p) →
       readFile fs' p = readFile fs p)
  ∧ (returned wrote = true →
     ∀ before key value after,
       credentials = before ++ (key, value) :: after →
       value ≠ JNull → file key ≠ credsPath →
       (∀ key' value', (key', value') ∈ after → value' ≠ JNull →
          file key' ≠ file key) →
       readFile fs' (file key) = Some (JSON_stringify 2 value)).
Proof.
  cbv zeta. unfold writeCredentials, readFile.
  set (authDir := getAuthDir userId).
  destruct (mkdirSync fs authDir) as [D|e] eqn:Hmk.
  2: { split; [done|]. split; [done|]. done. }
  apply mkdirSync_Ret in Hmk. subst D.
  pose proof (λ p, write_entries_frame authDir credentials p
                     (with_dir fs authDir)) as Hframe.
  pose proof (write_entries_dirs authDir credentials (with_dir fs authDir))
    as Hdirs.
  destruct (write_entries authDir (with_dir fs authDir) credentials)
    as [L [u|e]] eqn:Hloop; cbn [fst snd] in *.
  2: { split; [done|]. split; [|done].
       intros p _ Hfree. by rewrite (Hframe p Hfree). }
  split; [|split].
  - intros _. split; [done|]. rewrite ensure_registered_dirs, Hdirs. simpl.
    apply elem_of_union_l, elem_of_singleton. done.
  - intros p Hp Hfree. rewrite ensure_registered_other by done.
    by rewrite (Hframe p Hfree).
  - intros _ before key value after -> Hv Hp Hlater.
    rewrite ensure_registered_other by done.
    destruct (write_entries_Ret _ _ _ _ _ Hloop) as [_ ->].
    rewrite after_entries_app, after_entries_cons.
    rewrite after_entries_frame by done.
    by rewrite entry_content_stored.
Qed.

(** The laws of the host's JSON printer and parser, about a value that
    the parser has given: the print of a parsed array parses to an array,
    and the print of a parsed object in which [registered] was set to
    [true] parses to an object in which [registered] is [true]. *)
Hypothesis JSON_reparse_array :
  ∀ content items v',
    JSON_parse content = Some (JArray items) →
    JSON_parse (JSON_stringify 2 (JArray items)) = Some v' →
    ∃ items', v' = JArray items'.
Hypothesis JSON_reparse_object :
  ∀ content props v',
    JSON_parse content = Some (JObject props) →
    JSON_parse
      (JSON_stringify 2
         (JObject (map_set (lit "registered") (JBool true) props)))
    = Some v' →
    ∃ props', v' = JObject props'
              ∧ map_get (lit "registered") props' = Some (JBool true).

Lemma ensure_registered_marked fs credsPath content props :
  readFileSync_error fs credsPath = None →
  (∀ c, writeFileSync_error fs credsPath c = None) →
  readFile (ensure_registered fs credsPath) credsPath = Some content →
  JSON_parse content = Some (JObject props) →
  from_option json_truthy false (map_get (lit "registered") props) = true.
Proof.
  intros Hr Hw. unfold ensure_registered.
  destruct (existsSync fs credsPath) eqn:Hex; cbn [negb].
  2: { unfold existsSync in Hex. apply orb_false_iff in Hex as [Hf _].
       apply bool_decide_eq_false in Hf. unfold readFile. intros Hc.
       destruct Hf. by rewrite Hc. }
  cbv zeta. unfold readFileSync. rewrite Hr.
  destruct (FileSystem.files fs !! credsPath) as [content0|] eqn:Hread.
  2: { case_bool_decide; unfold readFile; rewrite Hread; discriminate. }
  unfold writeFileSync.
  destruct (JSON_parse content0) as [v|] eqn:Hparse.
  2: { unfold readFile. rewrite Hread. intros [= <-]. congruence. }
  destruct v as [| | | |items|props0].
  1-4: unfold readFile; rewrite Hread; intros [= <-]; congruence.
  - rewrite Hw. cbn [catch_default]. unfold readFile. simpl.
    rewrite lookup_insert_eq. intros [= <-] Hp.
    destruct (JSON_reparse_array _ _ _ Hparse Hp) as [items' ?]. congruence.
  - destruct (from_option json_truthy false
                (map_get (lit "registered") props0)) eqn:Hreg.
    + unfold readFile. rewrite Hread. intros [= <-]. rewrite Hparse.
      by intros [= <-].
    + rewrite Hw. cbn [catch_default]. unfold readFile. simpl.
      rewrite lookup_insert_eq. intros [= <-] Hp.
      destruct (JSON_reparse_object _ _ _ Hparse Hp)
        as (props' & [= <-] & Hkeep).
      by rewrite Hkeep.
Qed.

(** X20.  On a host whose JSON printer and parser obey the two laws above,
    after a [writeCredentials] in which no call of the file system threw
    (the loop ended, and the read and the write of [creds.json] in the
    block that ensures [registered] do not throw on the tree the loop
    left), the primary record [creds.json], if it is there and parses to an
    object, has a truthy [registered] member: the library will take the
    credentials as linked. *)
Theorem writeCredentials_marks_registered fs (userId : jsstring)
    (credentials : list (jsstring * json number))
    (content : jsstring) (props : list (jsstring * json number)) :
  let authDir := getAuthDir userId in
  let credsPath := path_join [authDir; lit "creds.json"] in
  let looped := (write_entries authDir (with_dir fs authDir) credentials).1 in
  let fs' := (writeCredentials fs userId credentials).1 in
  returned (writeCredentials fs userId credentials).2 = true →
  readFileSync_error looped credsPath = None →
  (∀ c, writeFileSync_error looped credsPath c = None) →
  readFile fs' credsPath = Some content →
  JSON_parse content = Some (JObject props) →
  from_option json_truthy false (map_get (lit "registered") props) = true.
Proof.
  cbv zeta. unfold writeCredentials.
  destruct (mkdirSync fs (getAuthDir userId)) as [D|e] eqn:Hmk; [|done].
  apply mkdirSync_Ret in Hmk. subst D.
  destruct (write_entries _ _ _) as [L [u|e]]; [|done]. cbn [fst snd].
  intros _. apply ensure_registered_marked.
Qed.
End CredentialFiles.

(** ** Start-up with a list of integrations *)

Lemma map_set_keys {V} (k : jsstring) (v : V) (m : list (jsstring * V))
    (x : jsstring) :
  x ∈ (map_set k v m).*1 ↔ x = k ∨ x ∈ m.*1.
Proof.
  induction m as [|[k0 v0] m IH]; simpl.
  - rewrite list_elem_of_singleton. split; [by left|].
    by intros [?|?%elem_of_nil].
  - case_bool_decide as H0; simpl in *.
    + subst k0. rewrite !elem_of_cons. tauto.
    + rewrite !elem_of_cons, IH. tauto.
Qed.

Lemma conn_get_key (w : World) (userId : jsstring) (r : Ref)
    (c : UserConnection) :
  conn_get w userId = Some (r, c) → userId ∈ (World.connections w).*1.
Proof.
  unfold conn_get.
  destruct (map_get userId (World.connections w)) as [r0|] eqn:Hm; [|done].
  intros _. apply list_elem_of_fmap. exists (userId, r0).
  split; [done|]. by apply map_get_Some_elem_of.
Qed.

Section StartUp.
Context `{Runtime}.
Implicit Types (w : World).

Lemma createSocket_connections w r lib :
  World.connections (createSocket w r lib).1.1 = World.connections w.
Proof. unfold createSocket. by destruct lib. Qed.

(** The keys of the map after [connectUser]. *)
Lemma connectUser_keys w userId credentials metadata lib :
  let keys' :=
    (World.connections
       (connectUser w userId credentials metadata lib).1.1).*1 in
  (∀ k, k ∈ (World.connections w).*1 → k ∈ keys')
  ∧ (∀ k, k ∈ keys' → k ∈ (World.connections w).*1 ∨ k = userId)
  ∧ (returned (writeCredentials (World.disk w) userId credentials).2 = true →
     (∀ e, extractPhone credentials metadata ≠ Throw e) → userId ∈ keys').
Proof.
  cbv zeta.
  destruct (match conn_get w userId with
            | Some (_, existing) =>
                bool_decide (UserConnection.status existing = connected)
            | None => false
            end) eqn:Htest.
  { unfold connectUser. rewrite Htest. simpl.
    split; [done|]. split; [by left|]. intros _ _.
    destruct (conn_get w userId) as [[r c]|] eqn:Hget; [|done].
    by apply (conn_get_key w userId r c). }
  rewrite (connectUser_fresh w userId credentials metadata lib Htest).
  cbv zeta.
  destruct (writeCredentials _ _ _).2 as [dir|e]; simpl.
  2: { split; [done|]. split; [by left|]. done. }
  destruct (extractPhone credentials metadata) as [phone|e]; simpl.
  - rewrite createSocket_connections. simpl.
    split; [|split].
    + intros k Hk. apply map_set_keys. by right.
    + intros k Hk. apply map_set_keys in Hk. tauto.
    + intros _ _. apply map_set_keys. by left.
  - split; [done|]. split; [by left|]. intros _ Hno. by destruct (Hno e).
Qed.

(** The loop of [initialize] keeps the users of the map, adds only users of
    the integrations it goes through, and adds the user of an integration
    whose credentials are written without an exception when its turn comes
    and whose phone can be extracted. *)
Lemma connect_loop_keys (env : InitEnv)
    (l : list (nat * Integration.t number)) (acc : World * list Effect) :
  let loop :=
    foldl (λ (acc : World * list Effect) (ii : nat * Integration.t number),
             let '(w', effs', _) :=
               connectUser acc.1 (Integration.userId ii.2)
                 (default [] (Integration.credentials ii.2))
                 (Integration.metadata ii.2) (socket_lib env ii.1) in
             (w', acc.2 ++ effs')) in
  (∀ k, k ∈ (World.connections acc.1).*1 →
        k ∈ (World.connections (loop acc l).1).*1)
  ∧ (∀ k, k ∈ (World.connections (loop acc l).1).*1 →
       k ∈ (World.connections acc.1).*1
       ∨ ∃ ii, ii ∈ l ∧ Integration.userId ii.2 = k)
  ∧ (∀ pre ii post, l = pre ++ ii :: post →
       returned (writeCredentials (World.disk (loop acc pre).1)
                   (Integration.userId ii.2)
                   (default [] (Integration.credentials ii.2))).2 = true →
       (∀ e, extractPhone (default [] (Integration.credentials ii.2))
               (Integration.metadata ii.2) ≠ Throw e) →
       Integration.userId ii.2 ∈ (World.connections (loop acc l).1).*1).
Proof.
  cbv zeta. revert acc. induction l as [|[n i] l IH]; intros acc; cbn [foldl].
  - split; [done|]. split; [by left|]. by intros [|??] ?? ?.
  - pose proof (connectUser_keys acc.1 (Integration.userId i)
                  (default [] (Integration.credentials i))
                  (Integration.metadata i) (socket_lib env n))
      as (Hkeep & Honly & Hadd).
    cbn [fst snd] in *.
    destruct (connectUser acc.1 (Integration.userId i)
                (default [] (Integration.credentials i))
                (Integration.metadata i) (socket_lib env n))
      as [[w1 effs1] res1] eqn:Hconnect.
    cbn [fst snd] in *.
    destruct (IH (w1, acc.2 ++ effs1)) as (Hkeep' & Honly' & Hadd').
    cbn [fst snd] in *.
    split; [|split].
    + intros k Hk. by apply Hkeep', Hkeep.
    + intros k Hk. destruct (Honly' k Hk) as [Hk1|(ii & Hii & Hu)].
      * destruct (Honly k Hk1) as [?| ->]; [by left|].
        right. exists (n, i). split; [left | done].
      * right. exists ii. split; [by right | done].
    + intros [|first pre] ii post Hl Hwrite Hno.
      * injection Hl as <- <-. cbn [foldl fst snd] in Hwrite.
        apply Hkeep'. by apply Hadd.
      * injection Hl as <- ->. apply (Hadd' pre ii post); [done| |done].
        cbn [foldl fst snd] in Hwrite. by rewrite Hconnect in Hwrite.
Qed.

(** X21.  When [initialize] gets a list of integrations (a 2xx answer with a
    body), it sets the flag, and afterwards the map has an entry for every
    listed integration that is for ["whatsapp"], has credentials that are
    written without an exception of the file system when its turn comes,
    and has a phone that can be extracted - whatever happened for the
    integrations before it, whose credentials may have failed to be
    written, and whatever the library calls for any of the sockets do: a
    failure for one user does not keep the others from being connected.  It
    keeps the users that were in the map, and adds no user that is not a
    listed integration for ["whatsapp"] with credentials. *)
Theorem initialize_connects_each w (env : InitEnv) (status : Z)
    (text : outcome jsstring) (integrations : list (Integration.t number)) :
  World.isInitialized w = false →
  truthy (World.apiUrl w) = true →
  integrations_response env = Response status text (Ret (Some integrations)) →
  response_ok status = true →
  let w' := (initialize w env).1 in
  let eligible (i : Integration.t number) :=
    i ∈ integrations ∧ Integration.integrationId i = lit "whatsapp"
    ∧ is_Some (Integration.credentials i) in
  let kept :=
    List.filter
      (λ i : Integration.t number,
         bool_decide (Integration.integrationId i = lit "whatsapp")
         && bool_decide (is_Some (Integration.credentials i)))
      integrations in
  let fetched :=
    [FetchIntegrations
       (default [] (World.apiUrl w) ++ lit "/i/moltbot/integrations")] in
  World.isInitialized w' = true
  ∧ (∀ earlier i later, kept = earlier ++ i :: later →
       returned (writeCredentials
                   (World.disk (connect_each env 0 (w, fetched) earlier).1)
                   (Integration.userId i)
                   (default [] (Integration.credentials i))).2 = true →
       (∀ e, extractPhone (default [] (Integration.credentials i))
               (Integration.metadata i) ≠ Throw e) →
       Integration.userId i ∈ (World.connections w').*1)
  ∧ (∀ k, k ∈ (World.connections w).*1 → k ∈ (World.connections w').*1)
  ∧ (∀ k, k ∈ (World.connections w').*1 →
       k ∈ (World.connections w).*1
       ∨ ∃ i, eligible i ∧ Integration.userId i = k).
Proof.
  intros Hflag Hurl Hresp Hok. cbv zeta.
  split; [apply initialize_isInitialized|].
  unfold initialize, fetchIntegrations.
  rewrite Hflag, Hurl, Hresp. cbn [negb]. rewrite Hok.
  cbn [negb default from_option id].
  set (wanted := List.filter _ integrations).
  assert (Hwanted : ∀ i, i ∈ wanted ↔
            i ∈ integrations ∧ Integration.integrationId i = lit "whatsapp"
            ∧ is_Some (Integration.credentials i)).
  { intros i. unfold wanted. rewrite !list_elem_of_In, filter_In.
    rewrite andb_true_iff, !bool_decide_eq_true. tauto. }
  clearbody wanted.
  pose proof (connect_loop_keys env (zip (seq 0 (length wanted)) wanted)
                (w, [FetchIntegrations
                       (default [] (World.apiUrl w)
                        ++ lit "/i/moltbot/integrations")]))
    as Hloop.
  cbv zeta in Hloop. destruct Hloop as (Hkeep & Honly & Hadd).
  split; [|split].
  - intros earlier i later -> Hwrite Hno.
    assert (Hzip : zip (seq 0 (length (earlier ++ i :: later)))
                     (earlier ++ i :: later)
                   = zip (seq 0 (length earlier)) earlier
                     ++ (length earlier, i)
                        :: zip (seq (S (length earlier)) (length later)) later).
    { rewrite length_app. cbn [length].
      rewrite seq_app. cbn [seq Nat.add].
      rewrite zip_with_app by by rewrite length_seq. done. }
    specialize (Hadd _ (length earlier, i) _ Hzip Hwrite Hno).
    cbn [fst snd] in Hadd.
    by destruct (foldl _ _ _) as [w' effs].
  - destruct (foldl _ _ _) as [w' effs]. done.
  - intros k Hk. destruct (foldl _ _ _) as [w' effs]. cbn [fst snd] in *.
    destruct (Honly k Hk) as [?|([j i] & Hii & Hu)]; [by left|].
    right. exists i. split; [|done]. apply Hwanted.
    by apply elem_of_zip_r in Hii.
Qed.
End StartUp.

(** * The theorems at concrete inputs *)

Section Instances.
#[local] Existing Instance ReferenceRuntime.runtime.

(** The route answers 200 with the message id when the socket accepts. *)
Lemma send_route_accepts :
  ∃ result,
    (sendMessage one_user_world (lit "u1") (lit "123@x") (lit "hi")
       (first_media_url hi_payload) (Ret (Some (lit "3EB0")))).1 = Ret result
    ∧ handler one_user_world (Request.mk (lit "POST") (Ret hi_payload))
        (Ret (Some (lit "3EB0")))
      = (HttpResponse.mk (if SendResult.success result then 200%Z else 500%Z)
           result,
         (sendMessage one_user_world (lit "u1") (lit "123@x") (lit "hi")
            (first_media_url hi_payload) (Ret (Some (lit "3EB0")))).2).
Proof.
  apply (send_route_status_follows_result one_user_world hi_payload
           (Ret (Some (lit "3EB0"))) (lit "u1") (lit "123@x") (lit "hi")).
  - reflexivity.
  - reflexivity.
  - vm_compute. discriminate.
  - reflexivity.
  - vm_compute. discriminate.
  - right. split; vm_compute; reflexivity.
Defined.

(** After one restart and a disconnect, the timer makes socket 1. *)
Lemma stale_timer_makes_socket :
  (timer_fires (disconnectUser (run (initial empty_disk) one_restart)
                  (lit "u1")).1 0 (Ret ())).1.2
  = [MakeSocket 1 (lit "/home/bot/.clawdbot/credentials/whatsapp/raccoon-u1")].
Proof.
  apply (reconnect_timer_after_disconnect
           (run (initial empty_disk) one_restart) (lit "u1") 0
           (restarted_connection 0 1) 0).
  - vm_compute. reflexivity.
  - vm_compute. reflexivity.
Defined.

(** After three restarts a fourth close sets no timer and the connection
    is [disconnected]. *)
Lemma fourth_restart_gives_up :
  ∃ c',
    connection_update (run (initial empty_disk) three_restarts) 3
      (mkUpdate (Some conn_close) (Some 515%Z)) None 0%Z
    = (set_store (run (initial empty_disk) three_restarts)
         (<[0 := c']> (World.store (run (initial empty_disk) three_restarts))),
       [])
    ∧ World.timers
        (set_store (run (initial empty_disk) three_restarts)
           (<[0 := c']>
              (World.store (run (initial empty_disk) three_restarts))))
      = World.timers (run (initial empty_disk) three_restarts)
    ∧ UserConnection.reconnectAttempts c' = 3%Z
    ∧ UserConnection.status c' = disconnected.
Proof.
  apply (proj2 (reconnectAttempts_bounded empty_disk three_restarts 3 0
                  (restarted_connection 3 3) (Some 515%Z) None 0%Z)).
  - vm_compute. reflexivity.
  - vm_compute. reflexivity.
  - reflexivity.
  - right. left. reflexivity.
Defined.

(** A status update, an own message and a blank message are dropped. *)
Lemma dropped_messages :
  handleIncomingMessage one_user_world (restarted_connection 0 0)
    (text_message (lit "status@broadcast") false (lit "hi")) 0 quiet = []
  ∧ handleIncomingMessage one_user_world (restarted_connection 0 0)
      (text_message (lit "123@s.whatsapp.net") true (lit "hi")) 0 quiet = []
  ∧ handleIncomingMessage one_user_world (restarted_connection 0 0)
      (text_message (lit "123@s.whatsapp.net") false (lit "  ")) 0 quiet = [].
Proof.
  split; [|split].
  - apply (handleIncomingMessage_drops one_user_world (restarted_connection 0 0)
             (text_message (lit "status@broadcast") false (lit "hi")) 0 quiet).
    left. exists (lit "status@broadcast"). split; [reflexivity|].
    right. exists (lit "status"). vm_compute. reflexivity.
  - apply (handleIncomingMessage_drops one_user_world (restarted_connection 0 0)
             (text_message (lit "123@s.whatsapp.net") true (lit "hi")) 0 quiet).
    right. left. reflexivity.
  - apply (handleIncomingMessage_drops one_user_world (restarted_connection 0 0)
             (text_message (lit "123@s.whatsapp.net") false (lit "  ")) 0 quiet).
    right. right. intros m Hm. injection Hm as <-. vm_compute.
    repeat constructor.
Defined.

(** A user the map does not know. *)
Lemma unknown_user_not_connected :
  sendMessage one_user_world (lit "u2") (lit "123@x") (lit "hi") None
    (Ret None)
  = (Ret (SendResult.mk false None (Some (lit "User not connected"))), []).
Proof.
  apply (sendMessage_unknown_user one_user_world (lit "u2") (lit "123@x")
           (lit "hi") None (Ret None)).
  apply (bool_decide_unpack _). vm_compute. exact I.
Defined.

(** The webhook answers 500 with body "oops". *)
Lemma webhook_500_oops :
  (forwardToRaccoonAI enabled_config sample_inbound
     (Response 500 (Ret (lit "oops")) (Throw JsOther))).1
  = Ret (ForwardResult.mk false None None (Some (lit "HTTP 500: oops"))).
Proof.
  apply (proj1 (proj2 (forwardToRaccoonAI_non_2xx enabled_config
                         sample_inbound 500 (Ret (lit "oops"))
                         (Throw JsOther) eq_refl eq_refl ltac:(lia))));
    reflexivity.
Defined.

(** Writing the sample credentials twice on the reference host; and
    writing no credentials twice where the primary record is on the disk
    without the marker, which the first write sets. *)
Lemma sample_credentials_twice :
  writeCredentials
    (writeCredentials empty_disk (lit "u1") sample_credentials).1 (lit "u1")
    sample_credentials
  = writeCredentials empty_disk (lit "u1") sample_credentials
  ∧ writeCredentials (writeCredentials unmarked_disk (lit "u1") []).1
      (lit "u1") []
    = writeCredentials unmarked_disk (lit "u1") [].
Proof.
  split.
  - apply (@writeCredentials_idempotent ReferenceRuntime.runtime
             ReferenceRuntimeFacts.reparse_array
             ReferenceRuntimeFacts.reparse_object empty_disk (lit "u1")
             sample_credentials).
    + vm_compute. reflexivity.
    + vm_compute. reflexivity.
  - apply (@writeCredentials_idempotent ReferenceRuntime.runtime
             ReferenceRuntimeFacts.reparse_array
             ReferenceRuntimeFacts.reparse_object unmarked_disk (lit "u1") []).
    + vm_compute. reflexivity.
    + vm_compute. reflexivity.
Defined.

(** On that disk the first write sets the marker. *)
Example unmarked_record_marked :
  (readFile (writeCredentials unmarked_disk (lit "u1") []).1
     (lit "/home/bot/.clawdbot/credentials/whatsapp/raccoon-u1/creds.json")
   ≫= JSON_parse)
  = Some (JObject
            [(lit "me", JObject [(lit "name", JString (lit "Ann"))]);
             (lit "registered", JBool true)]).
Proof. vm_compute. reflexivity. Qed.

(** The first write sets the marker in the primary record and skips the
    null entry. *)
Example sample_credentials_marked :
  let fs := (writeCredentials empty_disk (lit "u1") sample_credentials).1 in
  (readFile fs
     (lit "/home/bot/.clawdbot/credentials/whatsapp/raccoon-u1/creds.json")
   ≫= JSON_parse)
  = Some (JObject
            [(lit "me",
              JObject [(lit "id", JString (lit "15551234567:2@s.whatsapp.net"))]);
             (lit "registered", JBool true)])
  ∧ readFile fs
      (lit "/home/bot/.clawdbot/credentials/whatsapp/raccoon-u1/unused.json")
    = None.
Proof. vm_compute. split; reflexivity. Qed.

(** The lookup of "15551234567" finds the shorter stored phone. *)
Lemma long_number_finds_short_phone :
  getUserIdByPhone short_phone_world (lit "15551234567") = Some (lit "u1").
Proof.
  apply (proj2 (proj2 (proj2 (proj2 (proj2
           (getUserIdByPhone_suffix_match short_phone_world
              (lit "15551234567"))))))
           (lit "u1")
           (UserConnection.mk (lit "u1") (Some 0) (lit "/auth/raccoon-u1")
              disconnected (Some (lit "5551234567")) None None 0))
    with (post := []).
  - vm_compute. left.
  - left. reflexivity.
  - reflexivity.
Defined.

(** An input without digits finds the first connection with a phone, here
    a disconnected one. *)
Lemma no_digits_finds_first_phone :
  getUserIdByPhone short_phone_world (lit "n/a") = Some (lit "u1").
Proof.
  apply (proj2 (proj2 (getUserIdByPhone_no_digits short_phone_world
                         (lit "n/a") ltac:(vm_compute; repeat constructor)))
           [] (lit "u1")
           (UserConnection.mk (lit "u1") (Some 0) (lit "/auth/raccoon-u1")
              disconnected (Some (lit "5551234567")) None None 0)
           [] disconnected).
  - reflexivity.
  - constructor.
  - reflexivity.
  - reflexivity.
Defined.

(** A 503 from the API: the flag is set after one request, and a second
    [initialize] does nothing. *)
Lemma unavailable_api_latches :
  initialize configured_world unavailable
  = (set_isInitialized configured_world true,
     [FetchIntegrations (lit "http://api/i/moltbot/integrations")])
  ∧ initialize (initialize configured_world unavailable).1 unavailable
    = ((initialize configured_world unavailable).1, []).
Proof.
  pose proof (initialize_latches_on_failure configured_world unavailable
                eq_refl ltac:(simpl; lia)) as (Hfirst & Hagain & _).
  split.
  - exact Hfirst.
  - exact (Hagain [] unavailable (Forall_nil _)).
Defined.
End Instances.


(** * The further properties at concrete inputs *)

Section FurtherInstances.
#[local] Existing Instance ReferenceRuntime.runtime.

(** The phone of a device JID. *)
Lemma device_jid_phone :
  lit "15551234567" `prefix_of` phone_of_jid (lit "15551234567:2@s.whatsapp.net").
Proof.
  apply (proj1 (proj2 (proj2 (proj2
           (phone_of_jid_longest_prefix (lit "15551234567:2@s.whatsapp.net")))))
           (lit "15551234567")).
  - exists (lit ":2@s.whatsapp.net"). vm_compute. reflexivity.
  - apply (bool_decide_unpack _). vm_compute. exact I.
  - apply (bool_decide_unpack _). vm_compute. exact I.
Defined.

(** A phone stored with its formatting is not found by its digits. *)
Lemma formatted_phone_not_found :
  getUserIdByPhone formatted_phone_world (lit "15551234567") = None.
Proof.
  apply (proj2 (getUserIdByPhone_unnormalized_store formatted_phone_world
                  (lit "15551234567"))).
  intros userId conn Hin.
  change (entries formatted_phone_world)
    with [(lit "u1",
           UserConnection.mk (lit "u1") (Some 0) (lit "/auth/raccoon-u1")
             connected (Some (lit "+1-555-123-4567")) None None 0)] in Hin.
  apply list_elem_of_singleton in Hin. injection Hin as -> ->.
  exists (lit "+1-555-123-4567"), 43%N.
  split; [reflexivity|]. split; [vm_compute; left|].
  split; [reflexivity|].
  apply (bool_decide_unpack _). vm_compute. exact I.
Defined.

(** A 200 with a session: the forwarder passes the session on. *)
Lemma webhook_200_session :
  (forwardToRaccoonAI enabled_config sample_inbound
     (Response 200 (Ret []) (Ret session_reply))).1
  = Ret (ForwardResult.mk true (Some (lit "s1")) (Some (lit "http://app/s1"))
           None).
Proof.
  apply (proj2 (proj2 (forwardToRaccoonAI_request_and_success enabled_config
                         sample_inbound
                         (Response 200 (Ret []) (Ret session_reply))))
           200%Z (Ret []) session_reply); reflexivity.
Defined.

(** A send for the connected user is one call on its socket. *)
Lemma connected_user_send_is_live :
  (sendMessage one_user_world (lit "u1") (lit "123@x") (lit "hi") None
     (Ret None)).2
  = [SocketSendMessage 0 (lit "123@x") (build_content (lit "hi") None)].
Proof.
  apply (proj1 (sendMessage_reaches_socket one_user_world (lit "u1")
                  (lit "123@x") (lit "hi") None (Ret None))
           0
           (UserConnection.mk (lit "u1") (Some 0) (lit "/auth/raccoon-u1")
              connected (Some (lit "15551234567")) None
              (Some 1700000000000%Z) 0)
           0); reflexivity.
Defined.

(** A GET makes no socket call. *)
Lemma get_request_calls_nothing :
  length (handler one_user_world (Request.mk (lit "GET") (Ret hi_payload))
            (Ret None)).2 ≤ 1.
Proof.
  exact (proj1 (proj2 (proj2 (send_route_total one_user_world
                                (Request.mk (lit "GET") (Ret hi_payload))
                                (Ret None))))).
Defined.

(** Nobody is connected: 500. *)
Lemma nobody_connected_is_500 :
  handler (initial empty_disk) (Request.mk (lit "POST") (Ret hi_payload))
    (Ret None)
  = (http_error 500 (lit "No WhatsApp connections available"), []).
Proof.
  apply (proj1 (send_route_without_user (initial empty_disk) hi_payload
                  (Ret None) eq_refl eq_refl eq_refl eq_refl)).
  reflexivity.
Defined.

(** Without [enabled] and with an API URL the manager is set up. *)
Lemma sample_plugin_config_schedules :
  (register sample_plugin_config (initial empty_disk)).2 = true.
Proof.
  apply (proj2 (proj1 (register_enables_forwarding sample_plugin_config
                         (initial empty_disk) sample_inbound
                         (FetchRejected JsOther)))).
  split; [discriminate | reflexivity].
Defined.

(** The callback returns when the webhook is unreachable. *)
Lemma callback_survives_unreachable_webhook :
  (on_message enabled_config one_user_world sample_message
     (FetchRejected JsOther) (Ret None)).1 = Ret ().
Proof.
  exact (proj1 (on_message_acknowledges enabled_config one_user_world
                  sample_message (FetchRejected JsOther) (Ret None))).
Defined.

(** Disconnecting a user the map does not know. *)
Lemma disconnect_unknown_user :
  disconnectUser one_user_world (lit "u2") = (one_user_world, []).
Proof.
  apply (proj2 (proj2 (proj2 (proj2 (proj2 (proj2
           (disconnectUser_removes_one one_user_world (lit "u2")))))))).
  apply (bool_decide_unpack _). vm_compute. exact I.
Defined.

(** Shutting down the process with one user. *)
Lemma shutdown_one_user :
  World.connections (shutdown one_user_world).1 = []
  ∧ (shutdown one_user_world).2
    = concat ((λ e, (disconnectUser one_user_world e.1).2)
                <$> World.connections one_user_world).
Proof.
  apply (proj1 (shutdown_clears_map one_user_world)).
  apply (bool_decide_unpack _). vm_compute. exact I.
Defined.

(** A logged-out connection closes again: no timer. *)
Lemma logged_out_closes_again :
  (connection_update (run (initial empty_disk) logged_out_run) 0
     (mkUpdate (Some conn_close) (Some 428%Z)) None 0%Z).2 = [].
Proof.
  apply (proj1 (close_without_reconnect
                  (run (initial empty_disk) logged_out_run) 0 0
                  (UserConnection.mk (lit "u1") (Some 0)
                     (lit "/home/bot/.clawdbot/credentials/whatsapp/raccoon-u1")
                     error None (Some (lit "logged_out")) None 0)
                  (Some 428%Z) None 0%Z eq_refl eq_refl
                  (or_intror (or_intror eq_refl)))).
Defined.

(** At the cap, a handshake and a restart: a timer again. *)
Lemma handshake_at_the_cap :
  (connection_update
     (connection_update (run (initial empty_disk) three_restarts) 3
        (mkUpdate (Some conn_open) None) None 0%Z).1 3
     (mkUpdate (Some conn_close) (Some 515%Z)) None 0%Z).2
  = [SetTimeout 0 2000%Z].
Proof.
  apply (proj1 (proj2 (proj2 (proj2 (proj2 (proj2 (proj2
           (handshake_restores_budget
              (run (initial empty_disk) three_restarts) 3 3 0
              (restarted_connection 3 3) None (Some 515%Z) None None 0%Z 0%Z
              ltac:(vm_compute; reflexivity) ltac:(vm_compute; reflexivity)
              ltac:(vm_compute; reflexivity)
              ltac:(vm_compute; reflexivity))))))))).
Defined.

(** A direct message is delivered. *)
Lemma direct_message_delivered :
  ∃ m, OnMessage m
       ∈ handleIncomingMessage one_user_world (restarted_connection 0 0)
           (text_message (lit "123@s.whatsapp.net") false (lit "hi")) 0 quiet.
Proof.
  apply (proj2 (proj1 (handleIncomingMessage_delivers one_user_world
                         (restarted_connection 0 0)
                         (text_message (lit "123@s.whatsapp.net") false
                            (lit "hi")) 0 quiet))).
  split; [reflexivity|].
  exists (lit "123@s.whatsapp.net"),
         (WAMessage.mkContent (Some (lit "hi")) None None None).
  split; [reflexivity|]. split; [vm_compute; discriminate|].
  split; [vm_compute; reflexivity|]. split; [vm_compute; reflexivity|].
  split; [vm_compute; discriminate|]. split; [reflexivity|].
  vm_compute. discriminate.
Defined.

(** Credentials whose file cannot be written: the exception is passed on
    and the user is not put into the map.  Credentials that can be written:
    the user is, with the socket just made. *)
Lemma connect_needs_written_credentials :
  connectUser (initial empty_disk) (lit "u1") nested_credentials None (Ret ())
  = (set_disk (initial empty_disk)
       (writeCredentials empty_disk (lit "u1") nested_credentials).1,
     [],
     Throw (JsError
              (lit "ENOENT: no such file or directory, open '/home/bot/.clawdbot/credentials/whatsapp/raccoon-u1/keys/1.json'")))
  ∧ conn_get
      (connectUser (initial empty_disk) (lit "u1") sample_credentials None
         (Ret ())).1.1 (lit "u1")
    = Some (0,
            UserConnection.mk (lit "u1") (Some 0) (getAuthDir (lit "u1"))
              connecting (Some (lit "15551234567")) None None 0).
Proof.
  pose proof (@connectUser_registers ReferenceRuntime.runtime
                (initial empty_disk) (lit "u1") nested_credentials None
                (Ret ())) as (_ & Hthrow & _).
  pose proof (@connectUser_registers ReferenceRuntime.runtime
                (initial empty_disk) (lit "u1") sample_credentials None
                (Ret ())) as (_ & _ & _ & Hfresh).
  split.
  - apply Hthrow.
    + intros (r & c & Hget & _). discriminate.
    + vm_compute. reflexivity.
  - apply Hfresh.
    + intros (r & c & Hget & _). discriminate.
    + vm_compute. reflexivity.
    + vm_compute. reflexivity.
Defined.

(** After three restarts the map has one entry per user. *)
Lemma restarts_keep_one_entry :
  NoDup (World.connections (run (initial empty_disk) three_restarts)).*1.
Proof.
  exact (proj1 (reachable_one_connection_per_user empty_disk three_restarts)).
Defined.

(** After three restarts the socket of the connection is its own. *)
Lemma restarts_socket_is_own :
  World.sockets (run (initial empty_disk) three_restarts) !! 3 = Some 0.
Proof.
  apply (proj1 (proj2 (reachable_socket_ownership empty_disk three_restarts))
           0 (restarted_connection 3 3) 3).
  - vm_compute. reflexivity.
  - reflexivity.
Defined.

(** One connected user: the request without a user reaches its socket. *)
Lemma only_user_gets_the_message :
  ∃ r c sock,
    conn_get (run (initial empty_disk) connected_run) (lit "u1") = Some (r, c)
    ∧ UserConnection.socket c = Some sock
    ∧ (handler (run (initial empty_disk) connected_run)
         (Request.mk (lit "POST") (Ret hi_payload))
         (Ret (Some (lit "3EB0")))).2
      = [SocketSendMessage sock (lit "123@x")
           (build_content (lit "hi") (first_media_url hi_payload))]
    ∧ (handler (run (initial empty_disk) connected_run)
         (Request.mk (lit "POST") (Ret hi_payload))
         (Ret (Some (lit "3EB0")))).1
      = HttpResponse.mk 200 (SendResult.mk true (Some (lit "3EB0")) None).
Proof.
  apply (send_route_infers_user empty_disk connected_run hi_payload
           (Ret (Some (lit "3EB0"))) (lit "u1") (lit "123@x") (lit "hi")).
  - reflexivity.
  - reflexivity.
  - vm_compute. discriminate.
  - reflexivity.
  - vm_compute. discriminate.
  - reflexivity.
  - vm_compute. reflexivity.
Defined.

(** Three restarts set three timers. *)
Lemma three_restarts_three_timers :
  timers_set 0 (trace (run (initial empty_disk) []) three_restarts) ≤ 3.
Proof.
  apply (proj2 (proj2 (reconnect_budget empty_disk [] three_restarts 0
                         ltac:(repeat constructor)))).
Defined.

(** The key file of the sample credentials can be read back. *)
Lemma sample_key_file_written :
  readFile (writeCredentials empty_disk (lit "u1") sample_credentials).1
    (path_join [getAuthDir (lit "u1"); lit "app-state-sync-key-1" ++ lit ".json"])
  = Some (JSON_stringify 2 (JObject [(lit "keyData", JString (lit "AAAA"))])).
Proof.
  apply (proj2 (proj2 (@writeCredentials_files ReferenceRuntime.runtime
                         empty_disk (lit "u1") sample_credentials))
           ltac:(vm_compute; reflexivity)
           [(lit "creds",
             JObject [(lit "me",
                       JObject [(lit "id",
                                 JString (lit "15551234567:2@s.whatsapp.net"))])])]
           (lit "app-state-sync-key-1")
           (JObject [(lit "keyData", JString (lit "AAAA"))])
           [(lit "unused", JNull)]).
  - reflexivity.
  - discriminate.
  - vm_compute. discriminate.
  - intros key' value' Hin%list_elem_of_singleton Hnull.
    injection Hin as -> ->. by destruct Hnull.
Defined.

(** The primary record of the sample credentials is marked. *)
Lemma sample_primary_record_marked :
  from_option json_truthy false
    (map_get (lit "registered")
       [(lit "me",
         JObject [(lit "id", JString (lit "15551234567:2@s.whatsapp.net"))]);
        (lit "registered", JBool true)])
  = true.
Proof.
  apply (@writeCredentials_marks_registered ReferenceRuntime.runtime
           (λ content items v' Hparsed Hprint,
              proj1 (ReferenceRuntimeFacts.reparse_array content items v'
                       Hparsed Hprint))
           ReferenceRuntimeFacts.reparse_object empty_disk (lit "u1")
           sample_credentials
           (JSON_stringify 2
              (JObject
                 [(lit "me",
                   JObject [(lit "id",
                             JString (lit "15551234567:2@s.whatsapp.net"))]);
                  (lit "registered", JBool true)]))).
  - vm_compute. reflexivity.
  - vm_compute. reflexivity.
  - intros c. vm_compute. reflexivity.
  - vm_compute. reflexivity.
  - apply (ReferenceRuntimeFacts.parse_stringify 2).
Defined.

(** The credentials of the first user cannot be written and the library
    fails for the socket of the second; the second is in the map all the
    same. *)
Lemma second_user_connected_after_failure :
  lit "u2" ∈ (World.connections (initialize configured_world listed).1).*1.
Proof.
  apply (proj1 (proj2 (@initialize_connects_each ReferenceRuntime.runtime
                         configured_world listed 200%Z (Ret [])
                         listed_integrations eq_refl eq_refl eq_refl eq_refl))
           [@Integration.mk Z (lit "u1") (lit "whatsapp")
              (Some nested_credentials) None]
           (@Integration.mk Z (lit "u2") (lit "whatsapp") (Some [])
              (Some (Integration.mkMeta (Some (lit "+1-555-123-4567")) None)))
           []).
  - vm_compute. reflexivity.
  - vm_compute. reflexivity.
  - intros e. vm_compute. discriminate.
Defined.

(** The first user, whose credentials could not be written, is not. *)
Example first_user_not_connected :
  map_get (lit "u1") (World.connections (initialize configured_world listed).1)
  = None.
Proof. vm_compute. reflexivity. Qed.
End FurtherInstances.
